(** * Gateway request engine (gateway/request.py)

    A shallow embedding of [BaseGatewayRequest], [GatewayRequest] and
    [AsyncGatewayRequest]: the OpenAPI-driven resolver, the two per-request
    caches and the DataMesh join in its sequential and its concurrent form,
    with the properties of the engine proved over it. *)

From Stdlib Require Import ZArith Ascii String List Bool Lia.
From stdpp Require Import base option list gmap strings pretty.

Set Warnings "-register-all".
Local Open Scope string_scope.
Local Open Scope Z_scope.

(** ** Python string operations used by the engine *)

(** A string is a sequence of characters with code points below 256; the
    operations below are those of Python's [str] on such strings, which
    they never leave. *)

Module PyStr.

(** The characters that have a lower-case form: [A] to [Z], and the
    letters from U+00C0 to U+00DE, which leaves out the multiplication
    sign U+00D7. *)
Definition is_upper (c : ascii) : bool :=
  let n := nat_of_ascii c in
  ((65 <=? n) && (n <=? 90) || (192 <=? n) && (n <=? 222) && negb (n =? 215))%nat.

(** [c.lower()] on one character: the lower-case form lies 32 code points
    above. *)
Definition lower_char (c : ascii) : ascii :=
  if is_upper c then ascii_of_nat (nat_of_ascii c + 32) else c.

(** [s.lower()]. *)
Fixpoint lower (s : string) : string :=
  match s with
  | EmptyString => EmptyString
  | String c s' => String (lower_char c) (lower s')
  end.

(** [s.startswith(p)]. *)
Fixpoint startswith (p s : string) : bool :=
  match p, s with
  | EmptyString, _ => true
  | String _ _, EmptyString => false
  | String a p', String b s' => if Ascii.eqb a b then startswith p' s' else false
  end.

(** [s.lstrip(c)] for a single character [c]. *)
Fixpoint lstrip (c : ascii) (s : string) : string :=
  match s with
  | EmptyString => EmptyString
  | String a s' => if Ascii.eqb a c then lstrip c s' else s
  end.

(** [s.rstrip(c)] for a single character [c]: every trailing [c] goes. *)
Fixpoint rstrip (c : ascii) (s : string) : string :=
  match s with
  | EmptyString => EmptyString
  | String a s' =>
      match rstrip c s' with
      | EmptyString => if Ascii.eqb a c then EmptyString else String a EmptyString
      | r => String a r
      end
  end.

(** [s.strip(c)]. *)
Definition strip (c : ascii) (s : string) : string := rstrip c (lstrip c s).

(** [s.replace(old, new)] for a non-empty [old]: every non-overlapping
    occurrence, left to right. [skip] counts the characters of a matched
    occurrence still to be dropped. *)
Fixpoint replace_from (old new s : string) (skip : nat) : string :=
  match s with
  | EmptyString => EmptyString
  | String c s' =>
      match skip with
      | S k => replace_from old new s' k
      | O =>
          if startswith old s
          then new ++ replace_from old new s' (String.length old - 1)
          else String c (replace_from old new s' 0)
      end
  end.

Definition replace (old new s : string) : string := replace_from old new s 0.

(** [s.index(sub, start)]: the first position at or after [start] where
    [sub] occurs; [None] stands for the ValueError of Python. *)
Fixpoint index_at (sub s : string) (start pos : nat) : option nat :=
  if (start <=? pos)%nat && startswith sub s then Some pos
  else match s with
  | EmptyString => None
  | String _ s' => index_at sub s' start (S pos)
  end.

Definition index (sub s : string) (start : nat) : option nat := index_at sub s start 0.

(** [s[n:]] and [s[:n]]. *)
Fixpoint drop (n : nat) (s : string) : string :=
  match n, s with
  | O, _ => s
  | S _, EmptyString => EmptyString
  | S k, String _ s' => drop k s'
  end.

Fixpoint take (n : nat) (s : string) : string :=
  match n, s with
  | O, _ => EmptyString
  | S _, EmptyString => EmptyString
  | S k, String c s' => String c (take k s')
  end.

Definition is_hex (c : ascii) : bool :=
  let n := nat_of_ascii c in
  ((48 <=? n) && (n <=? 57) || (65 <=? n) && (n <=? 70) || (97 <=? n) && (n <=? 102))%nat.

End PyStr.

(** Modelled from the spec: [utils.valid_uuid4] lives in gateway/utils.py,
    which is not part of the sources at hand. The spec asks for a strict
    test of the canonical form: 8-4-4-4-12 hexadecimal digits, hyphens at
    their positions and the right length. *)
Fixpoint uuid_shape (groups : list nat) (s : string) : bool :=
  match groups with
  | [] => match s with EmptyString => true | _ => false end
  | O :: [] => match s with EmptyString => true | _ => false end
  | O :: rest =>
      match s with
      | String c s' => if Ascii.eqb c "-"%char then uuid_shape rest s' else false
      | EmptyString => false
      end
  | S n :: rest =>
      match s with
      | String c s' => if PyStr.is_hex c then uuid_shape (n :: rest) s' else false
      | EmptyString => false
      end
  end.

Definition valid_uuid4 (s : string) : bool := uuid_shape [8; 4; 4; 4; 12]%nat s.

(** ** Data model *)

(** Decoded upstream payloads. A Python dict keeps insertion order, so an
    object is an association list; [VBytes] is a body that did not decode
    as JSON (the raw [response.content]). Numbers are the integers. *)
Inductive value : Type :=
| VNull
| VBool (b : bool)
| VNum (n : Z)
| VStr (s : string)
| VBytes (s : string)
| VList (l : list value)
| VDict (d : list (string * value)).

(** Python truthiness, as [not origin_pk] tests it. *)
Definition truthy (v : value) : bool :=
  match v with
  | VNull => false
  | VBool b => b
  | VNum n => negb (n =? 0)
  | VStr s | VBytes s => negb (String.eqb s EmptyString)
  | VList l => match l with [] => false | _ => true end
  | VDict d => match d with [] => false | _ => true end
  end.

(** [d.get(k)] and [k in d] on an insertion-ordered dict. *)
Fixpoint dict_get {A} (k : string) (d : list (string * A)) : option A :=
  match d with
  | [] => None
  | (k', v) :: d' => if String.eqb k k' then Some v else dict_get k d'
  end.

Definition dict_has {A} (k : string) (d : list (string * A)) : bool :=
  match dict_get k d with Some _ => true | None => false end.

(** [d[k] = v]: an existing key keeps its position, a new one goes last. *)
Fixpoint dict_set {A} (k : string) (v : A) (d : list (string * A)) : list (string * A) :=
  match d with
  | [] => [(k, v)]
  | (k', v') :: d' =>
      if String.eqb k k' then (k, v) :: d' else (k', v') :: dict_set k v d'
  end.

(** [d.pop(k, None)]. *)
Fixpoint dict_pop {A} (k : string) (d : list (string * A)) : list (string * A) :=
  match d with
  | [] => []
  | (k', v') :: d' => if String.eqb k k' then d' else (k', v') :: dict_pop k d'
  end.

(** [d.update(e)]. *)
Definition dict_update {A} (d e : list (string * A)) : list (string * A) :=
  fold_left (fun acc kv => dict_set (fst kv) (snd kv) acc) e d.

(** Django's [QueryDict]: every key holds the list of its values. *)
Definition QueryDict : Type := list (string * list string).

(** [q[k]] of a MultiValueDict is the last value, or [[]] for no value. *)
Definition last_value (vs : list string) : value :=
  match List.rev vs with
  | [] => VList []
  | v :: _ => VStr v
  end.

(** [q.dict()]. *)
Definition querydict_dict (q : QueryDict) : list (string * value) :=
  List.map (fun kv => (fst kv, last_value (snd kv))) q.

(** [q.get(k, default)]. *)
Definition querydict_get (k : string) (default : string) (q : QueryDict) : string :=
  match dict_get k q with
  | Some vs => match List.rev vs with [] => default | v :: _ => v end
  | None => default
  end.

Definition Headers : Type := list (string * string).

(** An uploaded file of [request.FILES]. *)
Record Upload := {
  up_content_type : string;
  up_name : string;
  up_content : string;
}.

(** [request.data]: parsed JSON, or a form as a QueryDict. *)
Inductive ReqData : Type :=
| DataJson (v : value)
| DataForm (q : QueryDict).

(** The inbound [rest_framework] request. [method] stands for both
    [request.method] and [request.META['REQUEST_METHOD']]; [GET] is
    [request._request.GET], which [request.query_params] reads. *)
Record Request := {
  method : string;
  GET : QueryDict;
  content_type : string;
  data : option ReqData;
  FILES : list (string * Upload);
  path : string;
  authorization : string;
}.

Definition query_params (r : Request) : QueryDict := GET r.

(** [**kwargs] of a data request: ['service'], ['model'], ['pk'], and the
    ['method'] and ['relationship_key'] that sub-requests carry along. *)
Record Kwargs := {
  kw_service : string;
  kw_model : option string;
  kw_pk : option string;
  kw_method : option string;
  kw_relationship_key : option string;
}.

(** The exceptions the engine raises or lets through. *)
Inductive exn : Type :=
| ServiceDoesNotExist (msg : string)
| EndpointNotFound (msg : string)
| GatewayError (msg : string)
| DataMeshError (msg : string)
| URLError (msg : string)
| OtherError (cls msg : string).

Definition is_ServiceDoesNotExist (e : exn) : bool :=
  match e with ServiceDoesNotExist _ => true | _ => false end.

(** [e.content] of a gateway exception. *)
Definition exn_content (e : exn) : string :=
  match e with
  | ServiceDoesNotExist m | EndpointNotFound m | GatewayError m
  | DataMeshError m | URLError m | OtherError _ m => m
  end.

(** [e.__class__.__name__]. *)
Definition exn_class (e : exn) : string :=
  match e with
  | ServiceDoesNotExist _ => "ServiceDoesNotExist"
  | EndpointNotFound _ => "EndpointNotFound"
  | GatewayError _ => "GatewayError"
  | DataMeshError _ => "DataMeshError"
  | URLError _ => "URLError"
  | OtherError cls _ => cls
  end.

(** *** The registry: LogicModule, LogicModuleModel, Relationship, JoinRecord *)

Record LogicModule := {
  endpoint_name : string;
  (** legacy aggregation: model name -> (field -> "service.model") *)
  lm_relationships : list (string * list (string * string));
}.

Record LogicModuleModel := {
  logic_module_endpoint_name : string;
  endpoint : string;
  lookup_field_name : string;
}.

Record Relationship := {
  key : string;
  origin_model : LogicModuleModel;
  related_model : LogicModuleModel;
}.

(** The four key fields hold [str(field)] when the field is not None. *)
Record JoinRecord := {
  record_id : option string;
  record_uuid : option string;
  related_record_id : option string;
  related_record_uuid : option string;
}.

(** [str(x)] of an optional field: [str(None)] is ["None"]. *)
Definition py_str (o : option string) : string :=
  match o with Some s => s | None => "None" end.

(** [getattr(join_record, name)]; [None] is an AttributeError. *)
Definition jr_getattr (jr : JoinRecord) (name : string) : option (option string) :=
  if String.eqb name "record_id" then Some (record_id jr)
  else if String.eqb name "record_uuid" then Some (record_uuid jr)
  else if String.eqb name "related_record_id" then Some (related_record_id jr)
  else if String.eqb name "related_record_uuid" then Some (related_record_uuid jr)
  else None.

(** *** OpenAPI: bravado_core's [Spec] and [Operation] *)

Record Operation := {
  http_method : string;
  path_name : string;
}.

Record Spec := {
  api_url : string;
  get_op_for_request : string -> string -> option Operation;
}.

(** *** Upstream traffic *)

(** The body handed to the HTTP client by [get_request_data]. *)
Inductive OutData : Type :=
| OutJson (d : ReqData)          (* json.dumps(request.data) *)
| OutDict (d : list (string * value)).

(** One outgoing data request. The concurrent client passes neither
    [params] nor [files]; they are empty there. *)
Record HttpCall := {
  c_method : string;
  c_url : string;
  c_headers : Headers;
  c_params : QueryDict;
  c_data : OutData;
  c_files : list (string * Upload);
}.

(** An upstream answer, as the two HTTP clients show it. [r_json] is what
    [response.json()] returns, [None] when the body does not parse as JSON
    (a ValueError of [requests], a JSONDecodeError of [aiohttp]).
    [r_json_raises] concerns [aiohttp] alone: the class and the message of
    the exception of another kind that its [response.json()] raises for
    this answer, which is a ContentTypeError when the answer does not
    announce JSON. *)
Record HttpResponse := {
  r_json : option value;
  r_json_raises : option (string * string);
  r_content : string;      (* [response.content] *)
  r_status : Z;
  r_headers : Headers;
}.

(** What a client call does: raise (class name, message) or answer. *)
Inductive HttpResult : Type :=
| HttpRaise (cls msg : string)
| HttpAnswer (r : HttpResponse).

(** What fetching and parsing a schema does: the URL cannot be reached,
    the answer is not JSON, something else is raised on the way, or the
    parsed spec. *)
Inductive SchemaResult : Type :=
| SchemaURLError
| SchemaNotJson
| SchemaRaise (cls msg : string)
| SchemaOk (sp : Spec).

(** The upstream services. The first argument is the number of calls
    issued before this one, so that an answer may change over time. *)
Record World := {
  http : nat -> HttpCall -> HttpResult;
  fetch_schema : nat -> string -> SchemaResult;
}.

(** Legacy aggregation: what a lookup in the local workflow models gives;
    [denied] is the message of the PermissionDenied that
    [validate_object_access] raises for the object found. *)
Inductive WfmLookup : Type :=
| WfmNoClass                       (* hasattr(wfm, model) is false *)
| WfmDoesNotExist (msg : string)
| WfmValueError
| WfmFound (denied : option string) (as_dict : value).

(** The read-only collaborators: the ORM managers and the helpers of
    gateway/utils.py and datamesh/utils.py. *)
Record Registry := {
  LogicModule_get : string -> option LogicModule;
  LogicModuleModel_get : string -> string -> option LogicModuleModel;
  get_relationships : LogicModuleModel -> list (Relationship * bool);
  get_join_records : value -> Relationship -> bool -> list JoinRecord;
  prepare_lookup_kwargs : bool -> Relationship -> JoinRecord -> LogicModuleModel * string;
  get_swagger_url_by_logic_module : LogicModule -> string;
  wfm_get : string -> string -> WfmLookup;
  (** [e.status] and [e.content_type] of a gateway exception *)
  exn_status : exn -> Z;
  exn_content_type : exn -> string;
  (** [str(v)] of a list or an object *)
  py_repr : value -> string;
}.

Definition Cached : Type := (value * Z * Headers)%type.

(** The log. An entry whose text embeds the [str] of an object keeps the
    object instead: [LogNoResponseData kw] is the error ['No response data
    for join record (request params: {kw})'], and [LogNoRelationships lm]
    the warning ['Tried to aggregate but no relationship defined in
    {lm}.']. *)
Inductive LogEntry : Type :=
| LogError (msg : string)
| LogNoResponseData (kw : Kwargs)
| LogDebug (msg : string)
| LogInfo (msg : string)
| LogNoRelationships (logic_module : LogicModule).

(** A reference into the primary payload: the keys and indices that lead
    from its root to an object inside it. *)
Inductive step : Type :=
| Key (k : string)
| Idx (i : nat).

Definition Path : Type := list step.

Global Instance step_eq_dec : EqDecision step.
Proof. solve_decision. Defined.

(** The gateway request object, and the part of the Python heap the engine
    mutates in place. [payload] is the object graph of the primary answer
    ([content] in [_get_data]), into which [resp_data] and every
    [data_item] point; [placeholders] has one entry per embed list the
    concurrent engine created: the place where that list still sits in the
    payload, or [None] once another list took its key. The last three
    fields record the traffic and the log. *)
Record Gw := {
  request : Request;
  url_kwargs : Kwargs;
  _logic_modules : gmap string LogicModule;
  _specs : gmap string Spec;
  _data : gmap string Cached;
  payload : value;
  placeholders : list (option Path);
  http_calls : list HttpCall;
  schema_fetches : list string;
  logged : list LogEntry;
}.

(** [BaseGatewayRequest.__init__]. *)
Definition init (rq : Request) (kw : Kwargs) : Gw :=
  {| request := rq; url_kwargs := kw;
     _logic_modules := ∅; _specs := ∅; _data := ∅;
     payload := VNull; placeholders := [];
     http_calls := []; schema_fetches := []; logged := [] |}.

Definition set_request (rq : Request) (s : Gw) : Gw :=
  {| request := rq; url_kwargs := url_kwargs s;
     _logic_modules := _logic_modules s; _specs := _specs s;
     _data := _data s; payload := payload s; placeholders := placeholders s;
     http_calls := http_calls s; schema_fetches := schema_fetches s;
     logged := logged s |}.

Definition set_logic_modules (m : gmap string LogicModule) (s : Gw) : Gw :=
  {| request := request s; url_kwargs := url_kwargs s; _logic_modules := m;
     _specs := _specs s; _data := _data s; payload := payload s;
     placeholders := placeholders s; http_calls := http_calls s;
     schema_fetches := schema_fetches s; logged := logged s |}.

Definition set_specs (m : gmap string Spec) (s : Gw) : Gw :=
  {| request := request s; url_kwargs := url_kwargs s;
     _logic_modules := _logic_modules s; _specs := m; _data := _data s;
     payload := payload s; placeholders := placeholders s;
     http_calls := http_calls s; schema_fetches := schema_fetches s;
     logged := logged s |}.

Definition set_data (m : gmap string Cached) (s : Gw) : Gw :=
  {| request := request s; url_kwargs := url_kwargs s;
     _logic_modules := _logic_modules s; _specs := _specs s; _data := m;
     payload := payload s; placeholders := placeholders s;
     http_calls := http_calls s; schema_fetches := schema_fetches s;
     logged := logged s |}.

Definition set_payload (v : value) (s : Gw) : Gw :=
  {| request := request s; url_kwargs := url_kwargs s;
     _logic_modules := _logic_modules s; _specs := _specs s;
     _data := _data s; payload := v; placeholders := placeholders s;
     http_calls := http_calls s; schema_fetches := schema_fetches s;
     logged := logged s |}.

Definition set_placeholders (ps : list (option Path)) (s : Gw) : Gw :=
  {| request := request s; url_kwargs := url_kwargs s;
     _logic_modules := _logic_modules s; _specs := _specs s;
     _data := _data s; payload := payload s; placeholders := ps;
     http_calls := http_calls s; schema_fetches := schema_fetches s;
     logged := logged s |}.

Definition record_call (c : HttpCall) (s : Gw) : Gw :=
  {| request := request s; url_kwargs := url_kwargs s;
     _logic_modules := _logic_modules s; _specs := _specs s;
     _data := _data s; payload := payload s; placeholders := placeholders s;
     http_calls := http_calls s ++ [c]; schema_fetches := schema_fetches s;
     logged := logged s |}.

Definition record_fetch (u : string) (s : Gw) : Gw :=
  {| request := request s; url_kwargs := url_kwargs s;
     _logic_modules := _logic_modules s; _specs := _specs s;
     _data := _data s; payload := payload s; placeholders := placeholders s;
     http_calls := http_calls s; schema_fetches := schema_fetches s ++ [u];
     logged := logged s |}.

Definition record_log (l : LogEntry) (s : Gw) : Gw :=
  {| request := request s; url_kwargs := url_kwargs s;
     _logic_modules := _logic_modules s; _specs := _specs s;
     _data := _data s; payload := payload s; placeholders := placeholders s;
     http_calls := http_calls s; schema_fetches := schema_fetches s;
     logged := logged s ++ [l] |}.

(** [self.request._request.GET = QueryDict(mutable=True)]. *)
Definition clear_GET (rq : Request) : Request :=
  {| method := method rq; GET := []; content_type := content_type rq;
     data := data rq; FILES := FILES rq; path := path rq;
     authorization := authorization rq |}.

(** Calls issued so far, of both kinds: the clock of the [World]. *)
Definition tick (s : Gw) : nat := (length (http_calls s) + length (schema_fetches s))%nat.

(** ** The monad of the sequential engine: state, and exceptions that keep
    the state reached when they were raised. *)

Inductive result (A : Type) : Type :=
| Ok (a : A)
| Err (e : exn).
Arguments Ok {A} a.
Arguments Err {A} e.

Definition M (A : Type) : Type := Gw -> result A * Gw.

Definition ret {A} (a : A) : M A := fun s => (Ok a, s).
Definition raise {A} (e : exn) : M A := fun s => (Err e, s).
Definition bind {A B} (m : M A) (k : A -> M B) : M B :=
  fun s => match m s with
           | (Ok a, s') => k a s'
           | (Err e, s') => (Err e, s')
           end.
Definition get : M Gw := fun s => (Ok s, s).
Definition modify (f : Gw -> Gw) : M unit := fun s => (Ok tt, f s).

(** [try: m except ServiceDoesNotExist as e: h e]. *)
Definition catch_sdne {A} (m : M A) (h : exn -> M A) : M A :=
  fun s => match m s with
           | (Err e, s') => if is_ServiceDoesNotExist e then h e s' else (Err e, s')
           | r => r
           end.

Declare Scope gw_scope.
Delimit Scope gw_scope with gw.
Notation "'let*' x ':=' m 'in' k" := (bind m (fun x => k))
  (at level 10, x name, m at level 100, k at level 200) : gw_scope.
Notation "'let*' ' pat ':=' m 'in' k" := (bind m (fun x => let 'pat := x in k))
  (at level 10, pat pattern, m at level 100, k at level 200) : gw_scope.
Notation "m ;;; k" := (bind m (fun _ => k))
  (at level 100, right associativity) : gw_scope.
Local Open Scope gw_scope.

(** [for x in xs: body x]. *)
Fixpoint for_each {A} (body : A -> M unit) (xs : list A) : M unit :=
  match xs with
  | [] => ret tt
  | x :: xs' => body x ;;; for_each body xs'
  end.

Definition lift {A} (r : result A) : M A := fun s => (r, s).

(** ** References into the payload *)

(** The object a reference leads to, if the payload has that shape. *)
Fixpoint get_path (p : Path) (v : value) : option value :=
  match p with
  | [] => Some v
  | Key k :: p' =>
      match v with
      | VDict d => match dict_get k d with Some v' => get_path p' v' | None => None end
      | _ => None
      end
  | Idx i :: p' =>
      match v with
      | VList l => match l !! i with Some v' => get_path p' v' | None => None end
      | _ => None
      end
  end.

(** Change the value under the first binding of [k]. *)
Fixpoint dict_alter {A} (f : A -> A) (k : string) (d : list (string * A)) : list (string * A) :=
  match d with
  | [] => []
  | (k', v) :: d' =>
      if String.eqb k k' then (k', f v) :: d' else (k', v) :: dict_alter f k d'
  end.

(** Mutate in place the object a reference leads to. *)
Fixpoint update_path (p : Path) (f : value -> value) (v : value) : value :=
  match p with
  | [] => f v
  | Key k :: p' =>
      match v with
      | VDict d => VDict (dict_alter (update_path p' f) k d)
      | _ => v
      end
  | Idx i :: p' =>
      match v with
      | VList l => VList (alter (update_path p' f) i l)
      | _ => v
      end
  end.

(** [data_item[k] = v] on the object a reference leads to. *)
Definition item_set (k : string) (x : value) (v : value) : value :=
  match v with
  | VDict d => VDict (dict_set k x d)
  | _ => v
  end.

(** [lst.append(x)]. *)
Definition list_append (x : value) (v : value) : value :=
  match v with
  | VList l => VList (l ++ [x])
  | _ => v
  end.

(** [type(content) in [dict, list]]. *)
Definition is_container (v : value) : bool :=
  match v with
  | VDict _ | VList _ => true
  | _ => false
  end.

(** Where [resp_data] points after the pagination step: into ['results']
    when the payload is an object that has this key. *)
Definition resp_data_path (content : value) : Path :=
  match content with
  | VDict d => if dict_has "results" d then [Key "results"] else []
  | _ => []
  end.

(** The body of a [GatewayResponse]: [json.dumps] of a payload, a payload
    passed through, or the text of an exception. *)
Inductive Content : Type :=
| Dumped (v : value)
| Raw (v : value)
| Text (s : string).

Record GatewayResponse := {
  content : Content;
  status_code : Z;
  headers : Headers;
}.

Definition dquote : string := String (ascii_of_nat 34) EmptyString.
Definition newline : string := String (ascii_of_nat 10) EmptyString.

(** [s.split(c)]. *)
Fixpoint split_on (c : ascii) (s : string) : list string :=
  match s with
  | EmptyString => [EmptyString]
  | String a s' =>
      match split_on c s' with
      | h :: t => if Ascii.eqb a c then EmptyString :: h :: t else String a h :: t
      | [] => [String a EmptyString]
      end
  end.

(** The functions of the [requests] module that [getattr] finds for an
    HTTP method name. *)
Definition requests_methods : list string :=
  ["get"; "options"; "head"; "post"; "put"; "patch"; "delete"].

Definition str_in (x : string) (l : list string) : bool :=
  existsb (String.eqb x) l.

(** ** BaseGatewayRequest *)

Section Engine.

Context (reg : Registry) (W : World).

(** [_get_logic_module]: by service name, through [self._logic_modules]. *)
Definition _get_logic_module (service_name : string) : M LogicModule :=
  let* s := get in
  match _logic_modules s !! service_name with
  | Some lm => ret lm
  | None =>
      match LogicModule_get reg service_name with
      | Some lm =>
          modify (set_logic_modules (<[service_name := lm]> (_logic_modules s))) ;;;
          ret lm
      | None =>
          raise (ServiceDoesNotExist
            ("Service " ++ dquote ++ service_name ++ dquote ++ " not found."))
      end
  end.

(** [is_valid_for_cache]. *)
Definition is_valid_for_cache (rq : Request) : bool :=
  String.eqb (PyStr.lower (method rq)) "get"
  && match query_params rq with [] => true | _ => false end.

(** The file entries [get_request_data] adds for uploads. *)
Definition file_entry (u : Upload) : value :=
  VDict [("header", VDict [("Content-Type", VStr (up_content_type u))]);
    ("data", VBytes (up_content u));
    ("filename", VStr (up_name u))].

(** [get_request_data]. *)
Definition get_request_data (rq : Request) : result OutData :=
  if String.eqb (content_type rq) "application/json" then
  match data rq with
  | Some d => Ok (OutJson d)
  | None => Err (OtherError "AttributeError" "data")
  end
  else
  let method := PyStr.lower (method rq) in
  let data0 := querydict_dict (query_params rq) in
  let data1 := dict_pop "aggregate" data0 in
  let data2 := dict_pop "join" data1 in
  if str_in method ["post"; "put"; "patch"] then
  let body :=
  match data rq with
  | None => Ok []
  | Some (DataForm q) => Ok (querydict_dict q)
  | Some (DataJson (VDict d)) => Ok d
  | Some (DataJson _) => Err (OtherError "TypeError" "update")
  end in
  match body with
  | Err e => Err e
  | Ok b =>
      let data3 := dict_update data2 b in
      Ok (OutDict (fold_left (fun acc kv => dict_set (fst kv) (file_entry (snd kv)) acc)
          (FILES rq) data3))
  end
  else Ok (OutDict data2).

(** [get_headers]. *)
Definition get_headers (rq : Request) : Headers :=
  ("Authorization", authorization rq)
  :: (if String.eqb (content_type rq) "application/json"
    then [("content-type", "application/json")] else []).

(** [prepare_data]: the inbound path template, the operation of the
    spec, and the method and URL of the outgoing request. *)
Definition path_template (kw : Kwargs) : list (string * string) * string :=
  let model := PyStr.lower (default EmptyString (kw_model kw)) in
  match kw_pk kw with
  | None => ([], "/" ++ model ++ "/")
  | Some pk =>
      let pk_name := if valid_uuid4 pk then "uuid" else "id" in
      ([(pk_name, pk)], "/" ++ model ++ "/{" ++ pk_name ++ "}/")
  end.

Definition prepare_data (rq : Request) (spec : Spec) (kw : Kwargs) : result (string * string) :=
  let '(path_kwargs, path) := path_template kw in
  match get_op_for_request spec (method rq) path with
  | None => Err (EndpointNotFound ("Endpoint not found: " ++ method rq ++ " " ++ path))
  | Some operation =>
      let method := PyStr.lower (http_method operation) in
      let url := PyStr.rstrip "/" (api_url spec) ++ path_name operation in
      let url := fold_left (fun u kv => PyStr.replace ("{" ++ fst kv ++ "}") (snd kv) u)
      path_kwargs url in
      Ok (method, url)
  end.

(** [get_datamesh_relationships]. *)
Definition get_datamesh_relationships : M (list (Relationship * bool) * string) :=
  let* s := get in
  let service_name := kw_service (url_kwargs s) in
  let* logic_module := _get_logic_module service_name in
  let prefix := "/" ++ endpoint_name logic_module in
  match PyStr.index prefix (path (request s)) 0 with
  | None => raise (OtherError "ValueError" "substring not found")
  | Some padding =>
      let endpoint0 := PyStr.drop (String.length prefix + padding) (path (request s)) in
      match PyStr.index "/" endpoint0 1 with
      | None => raise (OtherError "ValueError" "substring not found")
      | Some i =>
          let endpoint1 := PyStr.take (i + 1) endpoint0 in
          match LogicModuleModel_get reg (endpoint_name logic_module) endpoint1 with
          | None => raise (OtherError "DoesNotExist" "LogicModuleModel")
          | Some logic_module_model =>
              ret (get_relationships reg logic_module_model,
                lookup_field_name logic_module_model)
          end
      end
  end.

(** ** GatewayRequest: the sequential engine *)

(** [_get_swagger_spec]: by service name, through [self._specs]. *)
Definition _get_swagger_spec (endpoint_name : string) : M Spec :=
  let* logic_module := _get_logic_module endpoint_name in
  let schema_url := get_swagger_url_by_logic_module reg logic_module in
  let* s := get in
  match _specs s !! schema_url with
  | Some swagger_spec => ret swagger_spec
  | None =>
      modify (record_fetch schema_url) ;;;
      match fetch_schema W (tick s) schema_url with
      | SchemaURLError =>
          raise (URLError ("Make sure that " ++ schema_url ++ " is accessible."))
      | SchemaNotJson => raise (OtherError "ValueError" schema_url)
      | SchemaRaise cls msg => raise (OtherError cls msg)
      | SchemaOk swagger_spec =>
          modify (fun s' => set_specs (<[schema_url := swagger_spec]> (_specs s')) s') ;;;
          ret swagger_spec
      end
  end.

(** The message of the GatewayError that wraps an exception of class
    [cls] with the text [msg]; it has two lines. *)
Definition gateway_error_msg (cls msg : string) : string :=
  "An error occurred when redirecting the request to or receiving the response from the service."
  ++ newline ++ "Origin: (" ++ cls ++ ": " ++ msg ++ ")".

(** The payload of an answer: its JSON, else its raw content. *)
Definition decode (r : HttpResponse) : value :=
  match r_json r with
  | Some v => v
  | None => VBytes (r_content r)
  end.

(** The call [_data_request] issues for a method and a URL. *)
Definition call_of (rq : Request) (method url : string) (body : OutData) : HttpCall :=
  {| c_method := method; c_url := url; c_headers := get_headers rq;
    c_params := query_params rq; c_data := body; c_files := FILES rq |}.

(** [_data_request]. *)
Definition _data_request (spec : Spec) (kw : Kwargs) : M Cached :=
  let* s := get in
  let* '(method, url) := lift (prepare_data (request s) spec kw) in
  match (if is_valid_for_cache (request s) then _data s !! url else None) with
  | Some cached =>
      modify (record_log (LogDebug ("Taking data from cache: " ++ url))) ;;;
      ret cached
  | None =>
      if negb (str_in method requests_methods)
      then raise (OtherError "AttributeError" method)
      else
      match get_request_data (request s) with
      | Err e => raise (GatewayError (gateway_error_msg (exn_class e) (exn_content e)))
      | Ok body =>
          let call := call_of (request s) method url body in
          modify (record_call call) ;;;
          match http W (tick s) call with
          | HttpRaise cls msg => raise (GatewayError (gateway_error_msg cls msg))
          | HttpAnswer response =>
              let return_data := (decode response, r_status response, r_headers response) in
              (if is_valid_for_cache (request s)
                then modify (fun s' => set_data (<[url := return_data]> (_data s')) s')
                else ret tt) ;;;
              ret return_data
          end
      end
  end.

(** [self.request._request.GET = QueryDict(mutable=True)]. *)
Definition clear_query_params : M unit :=
  modify (fun s => set_request (clear_GET (request s)) s).

Definition update_payload (p : Path) (f : value -> value) : M unit :=
  modify (fun s => set_payload (update_path p f (payload s)) s).

(** The keyword arguments of the sub-request for one join record. *)
Definition join_kwargs (rq : Request) (related_model : LogicModuleModel) (pk : string) : Kwargs :=
  {| kw_service := logic_module_endpoint_name related_model;
    kw_model := Some (PyStr.strip "/" (endpoint related_model));
    kw_pk := Some pk;
    kw_method := Some (PyStr.lower (method rq));
    kw_relationship_key := None |}.

(** The body of the inner loop of [_add_nested_data]: one join record. *)
Definition nest_join_record (data_item : Path) (relationship : Relationship)
  (related_model : LogicModuleModel) (related_record_field : string)
  (spec : Spec) (join_record : JoinRecord) : M unit :=
  let* s := get in
  match jr_getattr join_record related_record_field with
  | None => raise (OtherError "AttributeError" related_record_field)
  | Some field =>
      let request_kwargs := join_kwargs (request s) related_model (py_str field) in
      let* '(content, _, _) := _data_request spec request_kwargs in
      match content with
      | VDict d =>
          update_payload (data_item ++ [Key (key relationship)])%list (list_append (VDict d))
      | _ => modify (record_log (LogNoResponseData request_kwargs))
      end
  end.

(** The body of the outer loop of [_add_nested_data]: one relationship. *)
Definition nest_relationship (data_item : Path) (origin_pk : value)
  (r : Relationship * bool) : M unit :=
  let '(relationship, is_forward_lookup) := r in
  update_payload data_item (item_set (key relationship) (VList [])) ;;;
  let join_records := get_join_records reg origin_pk relationship is_forward_lookup in
  match join_records with
  | [] => ret tt
  | first :: _ =>
      let '(related_model, related_record_field) :=
      prepare_lookup_kwargs reg is_forward_lookup relationship first in
      let* spec := _get_swagger_spec (logic_module_endpoint_name related_model) in
      for_each (nest_join_record data_item relationship related_model
        related_record_field spec) join_records
  end.

Definition lookup_error (origin_lookup_field : string) : exn :=
  DataMeshError ("DataMeshConfigurationError: lookup_field_name " ++ dquote
    ++ origin_lookup_field ++ dquote ++ " not found in response.").

(** [data_item.get(origin_lookup_field)] on the object a reference leads
    to; [None] when that object has no [get] (it is not a dict). *)
Definition item_lookup (data_item : Path) (field : string) (content : value) : option value :=
  match get_path data_item content with
  | Some (VDict d) => Some (default VNull (dict_get field d))
  | _ => None
  end.

(** [_add_nested_data]. *)
Definition _add_nested_data (data_item : Path)
  (relationships : list (Relationship * bool)) (origin_lookup_field : string) : M unit :=
  clear_query_params ;;;
  let* s := get in
  match item_lookup data_item origin_lookup_field (payload s) with
  | None => raise (OtherError "AttributeError" "get")
  | Some origin_pk =>
      if negb (truthy origin_pk) then raise (lookup_error origin_lookup_field)
      else for_each (nest_relationship data_item origin_pk) relationships
  end.

(** The references to the items of the list a reference leads to. *)
Definition item_paths (resp_data : Path) (n : nat) : list Path :=
  List.map (fun i => (resp_data ++ [Idx i])%list) (seq 0 n).

(** [_join_response_data]. *)
Definition _join_response_data : M unit :=
  let* s := get in
  let resp_data := resp_data_path (payload s) in
  let* '(relationships, origin_lookup_field) := get_datamesh_relationships in
  match get_path resp_data (payload s) with
  | Some (VDict _) => _add_nested_data resp_data relationships origin_lookup_field
  | Some (VList l) =>
      for_each (fun data_item => _add_nested_data data_item relationships origin_lookup_field)
      (item_paths resp_data (length l))
  | _ => ret tt
  end.

(** *** The legacy aggregation of [GatewayRequest] *)

Fixpoint map_m {A B} (f : A -> M B) (xs : list A) : M (list B) :=
  match xs with
  | [] => ret []
  | x :: xs' =>
      let* y := f x in
      let* ys := map_m f xs' in
      ret (y :: ys)
  end.

(** [str(v)] of a payload value. *)
Definition value_str (v : value) : string :=
  match v with
  | VNull => "None"
  | VBool true => "True"
  | VBool false => "False"
  | VNum n => pretty n
  | VStr s => s
  | _ => py_repr reg v
  end.

(** [_generate_extension_map]. *)
Definition _generate_extension_map (logic_module : LogicModule) (model_name : string)
  (data : value) : M (list Kwargs) :=
  match lm_relationships logic_module with
  | [] =>
      modify (record_log (LogNoRelationships logic_module)) ;;;
      ret []
  | relationships =>
      match dict_get model_name relationships with
      | None => raise (OtherError "KeyError" model_name)
      | Some fields =>
          map_m (fun kv : string * string =>
            let '(k, v) := kv in
            match split_on "." v with
            | service :: model :: _ =>
                match data with
                | VDict d =>
                    match dict_get k d with
                    | Some x =>
                        ret {| kw_service := service; kw_model := Some model;
                          kw_pk := Some (value_str x); kw_method := None;
                          kw_relationship_key := Some k |}
                    | None => raise (OtherError "KeyError" k)
                    end
                | _ => raise (OtherError "TypeError" k)
                end
            | _ => raise (OtherError "IndexError" v)
            end) fields
      end
  end.

(** One round of the loop of [_expand_data]; [None] is Python's None. *)
Definition expand_one (extend_model : Kwargs) : M (option value) :=
  if String.eqb (kw_service extend_model) "bifrost" then
  match wfm_get reg (default EmptyString (kw_model extend_model))
      (default EmptyString (kw_pk extend_model)) with
  | WfmNoClass => ret None
  | WfmDoesNotExist msg => modify (record_log (LogInfo msg)) ;;; ret None
  | WfmValueError =>
      modify (record_log (LogInfo (" Not found: " ++ default EmptyString (kw_model extend_model)
            ++ " with uuid_name=" ++ default EmptyString (kw_pk extend_model)))) ;;;
      ret None
  | WfmFound (Some msg) _ => raise (OtherError "PermissionDenied" msg)
  | WfmFound None as_dict => ret (Some as_dict)
  end
  else
  let* spec := _get_swagger_spec (kw_service extend_model) in
  clear_query_params ;;;
  let* '(content, _, _) := _data_request spec extend_model in
  ret (match content with VNull => None | v => Some v end).

(** [_expand_data]. *)
Fixpoint _expand_data (extend_models : list Kwargs) (result : list (string * value))
  : M (list (string * value)) :=
  match extend_models with
  | [] => ret result
  | extend_model :: rest =>
      let* content := expand_one extend_model in
      _expand_data rest
      (match content with
        | Some v => dict_set (default EmptyString (kw_relationship_key extend_model)) v result
        | None => result
        end)
  end.

(** The body of the loops of [_aggregate_response_data]: one record. *)
Definition aggregate_item (logic_module : LogicModule) (data : Path) : M unit :=
  let* s := get in
  match kw_model (url_kwargs s) with
  | None => raise (OtherError "KeyError" "model")
  | Some model_name =>
      let* extension_map :=
      _generate_extension_map logic_module model_name
      (default VNull (get_path data (payload s))) in
      let* r := _expand_data extension_map [] in
      let* s' := get in
      match get_path data (payload s') with
      | Some (VDict _) =>
          update_payload data (fun v => match v with
            | VDict d => VDict (dict_update d r)
            | _ => v
            end)
      | _ => raise (OtherError "AttributeError" "update")
      end
  end.

(** [_aggregate_response_data]. *)
Definition _aggregate_response_data : M unit :=
  let* s := get in
  let service_name := kw_service (url_kwargs s) in
  let resp_data := resp_data_path (payload s) in
  let* logic_module := _get_logic_module service_name in
  match get_path resp_data (payload s) with
  | Some (VList l) =>
      for_each (aggregate_item logic_module) (item_paths resp_data (length l))
  | Some (VDict _) => aggregate_item logic_module resp_data
  | _ => ret tt
  end.

(** *** [_get_data] and [perform] *)

Definition log_error (e : exn) : M unit :=
  modify (record_log (LogError (exn_content e))).

(** [json.dumps(content)] when the payload is a dict or a list. *)
Definition assemble (v : value) : Content :=
  if is_container v then Dumped v else Raw v.

(** The two tests of [_get_data]: is the join asked for and possible, and
    is the legacy aggregation asked for. *)
Definition join_requested (rq : Request) (status : Z) (content0 : value) : bool :=
  dict_has "join" (query_params rq) && (status =? 200) && is_container content0.

Definition aggregate_requested (rq : Request) (status : Z) : bool :=
  String.eqb (PyStr.lower (querydict_get "aggregate" "_none" (query_params rq))) "true"
  && (status =? 200).

(** [_get_data]. *)
Definition _get_data (spec : Spec) : M GatewayResponse :=
  let* s0 := get in
  let* '(content0, status, hdrs) := _data_request spec (url_kwargs s0) in
  modify (set_payload content0) ;;;
  let* s1 := get in
  (if join_requested (request s1) status content0
    then catch_sdne _join_response_data log_error
    else ret tt) ;;;
  let* s2 := get in
  (if aggregate_requested (request s2) status
    then catch_sdne _aggregate_response_data log_error
    else ret tt) ;;;
  let* s3 := get in
  ret {| content := assemble (payload s3); status_code := status; headers := hdrs |}.

(** [GatewayRequest.perform]. *)
Definition perform : M GatewayResponse :=
  let* s := get in
  let* spec :=
  catch_sdne (let* sp := _get_swagger_spec (kw_service (url_kwargs s)) in ret (inl sp))
  (fun e => ret (inr {| content := Text (exn_content e);
        status_code := exn_status reg e;
        headers := [("Content-Type", exn_content_type reg e)] |})) in
  match spec with
  | inl sp => _get_data sp
  | inr response => ret response
  end.

End Engine.

(** ** AsyncGatewayRequest: the concurrent engine

    A coroutine of this engine touches the request object before it first
    waits for an upstream answer and after the answer is there, and not in
    between. It is modelled by these two segments: [Co A] runs the first
    and either finishes or leaves the second as a continuation. The answer
    is read from the [World] when the call is issued and handed over when
    the coroutine is resumed. *)

Inductive started (A : Type) : Type :=
| Finished (r : result A)
| Suspended (k : M A).
Arguments Finished {A} r.
Arguments Suspended {A} k.

Definition Co (A : Type) : Type := Gw -> started A * Gw.

(** [await c] when nothing else is scheduled: the coroutine runs through. *)
Definition await {A} (c : Co A) : M A :=
  fun s => match c s with
           | (Finished r, s') => (r, s')
           | (Suspended k, s') => k s'
           end.

(** A coroutine that goes on, without waiting again, after another one. *)
Definition co_then {A B} (c : Co A) (f : A -> M B) : Co B :=
  fun s => match c s with
           | (Finished (Ok a), s') => let '(r, s'') := f a s' in (Finished r, s'')
           | (Finished (Err e), s') => (Finished (Err e), s')
           | (Suspended k, s') => (Suspended (bind k f), s')
           end.

(** A coroutine that starts with code that does not wait. *)
Definition co_after {A B} (m : M A) (f : A -> Co B) : Co B :=
  fun s => match m s with
           | (Ok a, s') => f a s'
           | (Err e, s') => (Finished (Err e), s')
           end.

(** Issue a call, then wait; [k] runs on resumption. *)
Definition suspend {A} (k : M A) : Co A := fun s => (Suspended k, s).

(** *** [asyncio.gather] *)

(** Every task runs its first segment, in the order of the list. *)
Fixpoint start_all (tasks : list (Co unit)) : Gw -> list (started unit) * Gw :=
  fun s =>
    match tasks with
    | [] => ([], s)
    | t :: ts =>
        let '(st, s') := t s in
        let '(sts, s'') := start_all ts s' in
        (st :: sts, s'')
    end.

(** The exception of the first task that failed in its first segment. *)
Fixpoint first_failure (sts : list (started unit)) : option exn :=
  match sts with
  | [] => None
  | Finished (Err e) :: _ => Some e
  | _ :: sts' => first_failure sts'
  end.

(** The continuations of the tasks that wait, in the order of the list. *)
Fixpoint waiting (sts : list (started unit)) : list (M unit) :=
  match sts with
  | [] => []
  | Suspended k :: sts' => k :: waiting sts'
  | Finished _ :: sts' => waiting sts'
  end.

(** The waiting tasks are resumed one at a time as their answers arrive.
    The schedule says which one is next: its head, modulo the number of
    tasks still waiting, indexes the waiting list (the front one once the
    schedule is used up). An exception in a resumed task ends the wait. *)
Fixpoint resume_all (n : nat) (sched : list nat) (pending : list (M unit))
  : M unit :=
  fun s =>
    match n, pending with
    | S n', _ :: _ =>
        let i := (hd 0%nat sched mod length pending)%nat in
        match pending !! i with
        | Some k =>
            match k s with
            | (Ok _, s') => resume_all n' (tl sched) (delete i pending) s'
            | (Err e, s') => (Err e, s')
            end
        | None => (Ok tt, s)
        end
    | _, _ => (Ok tt, s)
    end.

(** [await asyncio.gather] of a list of tasks. *)
Definition gather (sched : list nat) (tasks : list (Co unit)) : M unit :=
  fun s =>
    let '(sts, s') := start_all tasks s in
    match first_failure sts with
    | Some e => (Err e, s')
    | None => resume_all (length (waiting sts)) sched (waiting sts) s'
    end.

Module Async.
Section Engine.

Context (reg : Registry) (W : World).

(** [_get_swagger_spec]: the check of [self._specs] comes before the
    wait for the schema, the write after it. *)
Definition _get_swagger_spec (endpoint_name : string) : Co Spec :=
  co_after (_get_logic_module reg endpoint_name) (fun logic_module =>
    let schema_url := get_swagger_url_by_logic_module reg logic_module in
    fun s =>
    match _specs s !! schema_url with
    | Some swagger_spec => (Finished (Ok swagger_spec), s)
    | None =>
        let answer := fetch_schema W (tick s) schema_url in
        suspend
        (match answer with
          | SchemaURLError => raise (URLError schema_url)
          | SchemaNotJson =>
              raise (GatewayError ("Failed to parse swagger schema from " ++ schema_url
                  ++ ". Should be JSON."))
          | SchemaRaise cls msg => raise (OtherError cls msg)
          | SchemaOk swagger_spec =>
              modify (fun s' => set_specs (<[schema_url := swagger_spec]> (_specs s')) s') ;;;
              ret swagger_spec
          end)
        (record_fetch schema_url s)
    end).

(** The call [_data_request] issues: neither [params] nor [files]. *)
Definition call_of (rq : Request) (method url : string) (body : OutData) : HttpCall :=
  {| c_method := method; c_url := url; c_headers := get_headers rq;
    c_params := []; c_data := body; c_files := [] |}.

(** [await response.json()] as [_data_request] handles it. Only a
    JSONDecodeError is caught; the body has been read by then, so the
    [response.content.read()] that follows yields the empty bytes. *)
Definition decode (r : HttpResponse) : result value :=
  match r_json_raises r with
  | Some (cls, msg) => Err (OtherError cls msg)
  | None =>
      match r_json r with
      | Some v => Ok v
      | None => Ok (VBytes EmptyString)
      end
  end.

(** [_data_request]: the check of [self._data] comes before the wait for
    the answer, the write after it. *)
Definition _data_request (spec : Spec) (kw : Kwargs) : Co Cached :=
  fun s =>
  match prepare_data (request s) spec kw with
  | Err e => (Finished (Err e), s)
  | Ok (method, url) =>
      match (if is_valid_for_cache (request s) then _data s !! url else None) with
      | Some cached =>
          (Finished (Ok cached),
            record_log (LogDebug ("Taking data from cache: " ++ url)) s)
      | None =>
          if negb (str_in method requests_methods)
          then (Finished (Err (OtherError "AttributeError" method)), s)
          else
          match get_request_data (request s) with
          | Err e => (Finished (Err e), s)
          | Ok body =>
              let call := call_of (request s) method url body in
              let answer := http W (tick s) call in
              suspend
              (match answer with
                | HttpRaise cls msg => raise (OtherError cls msg)
                | HttpAnswer response =>
                    let* content := lift (decode response) in
                    let return_data := (content, r_status response, r_headers response) in
                    let* s' := get in
                    (if is_valid_for_cache (request s')
                      then modify (fun s'' => set_data (<[url := return_data]> (_data s'')) s'')
                      else ret tt) ;;;
                    ret return_data
                end)
              (record_call call s)
          end
      end
  end.

(** [data_item[key] = []], keeping track of the list object: the list
    that sat at the same place is detached, the new one gets the next
    number. *)
Definition with_placeholder (data_item : Path) (k : string) (s : Gw) : Gw :=
  let place : Path := (data_item ++ [Key k])%list in
  let detached :=
  List.map (fun o : option Path =>
    match o with
    | Some p => if decide (p = place) then None else Some p
    | None => None
    end) (placeholders s) in
  set_placeholders (detached ++ [Some place])%list
  (set_payload (update_path data_item (item_set k (VList [])) (payload s)) s).

Definition new_placeholder (data_item : Path) (k : string) : M nat :=
  let* s := get in
  modify (with_placeholder data_item k) ;;;
  ret (length (placeholders s)).

(** [placeholder.append(x)]: seen in the payload while the list is still
    attached to it. *)
Definition placeholder_append (placeholder : nat) (x : value) : M unit :=
  let* s := get in
  match placeholders s !! placeholder with
  | Some (Some place) => update_payload place (list_append x)
  | _ => ret tt
  end.

(** [_extend_content]. *)
Definition _extend_content (spec : Spec) (placeholder : nat) (request_kwargs : Kwargs)
  : Co unit :=
  co_then (_data_request spec request_kwargs) (fun '(content, _, _) =>
    match content with
    | VDict d => placeholder_append placeholder (VDict d)
    | _ => modify (record_log (LogNoResponseData request_kwargs))
    end).

(** The pk of the sub-request for a join record. *)
Definition join_record_pk (join_record : JoinRecord) : string :=
  match related_record_id join_record with
  | Some i => i
  | None => py_str (related_record_uuid join_record)
  end.

(** The body of the loop of [_prepare_datamesh_tasks]: one relationship. *)
Definition prepare_relationship (data_item : Path) (origin_pk : value)
  (r : Relationship * bool) : M (list (Co unit)) :=
  let '(relationship, is_forward_lookup) := r in
  let* placeholder := new_placeholder data_item (key relationship) in
  let join_records := get_join_records reg origin_pk relationship is_forward_lookup in
  match join_records with
  | [] => ret []
  | first :: _ =>
      let '(related_model, related_record_field) :=
      prepare_lookup_kwargs reg is_forward_lookup relationship first in
      let* spec := await (_get_swagger_spec (logic_module_endpoint_name related_model)) in
      let* s := get in
      ret (List.map (fun join_record =>
          _extend_content spec placeholder
          (join_kwargs (request s) related_model (join_record_pk join_record)))
        join_records)
  end.

(** [_prepare_datamesh_tasks]. *)
Definition _prepare_datamesh_tasks (data_item : Path)
  (relationships : list (Relationship * bool)) (origin_lookup_field : string)
  : M (list (Co unit)) :=
  clear_query_params ;;;
  let* s := get in
  match item_lookup data_item origin_lookup_field (payload s) with
  | None => raise (OtherError "AttributeError" "get")
  | Some origin_pk =>
      if negb (truthy origin_pk) then raise (lookup_error origin_lookup_field)
      else
      let* tasks := map_m (prepare_relationship data_item origin_pk) relationships in
      ret (concat tasks)
  end.

(** [_join_response_data]; the two schedules are those of the two
    [gather] calls. *)
Definition _join_response_data (warmup fanout : list nat) : M unit :=
  let* s := get in
  let resp_data := resp_data_path (payload s) in
  let* '(relationships, origin_lookup_field) := get_datamesh_relationships reg in
  gather warmup
  (List.map (fun r : Relationship * bool =>
      co_then (_get_swagger_spec
        (logic_module_endpoint_name (related_model (fst r))))
      (fun _ => ret tt))
    relationships) ;;;
  let* tasks :=
  match get_path resp_data (payload s) with
  | Some (VDict _) =>
      _prepare_datamesh_tasks resp_data relationships origin_lookup_field
  | Some (VList l) =>
      let* tss := map_m (fun data_item =>
        _prepare_datamesh_tasks data_item relationships
        origin_lookup_field)
      (item_paths resp_data (length l)) in
      ret (concat tss)
  | _ => ret []
  end in
  gather fanout tasks.

(** [_get_data]. *)
Definition _get_data (warmup fanout : list nat) (spec : Spec) : M GatewayResponse :=
  let* s0 := get in
  let* '(content0, status, hdrs) := await (_data_request spec (url_kwargs s0)) in
  modify (set_payload content0) ;;;
  let* s1 := get in
  (if join_requested (request s1) status content0
    then catch_sdne (_join_response_data warmup fanout) log_error
    else ret tt) ;;;
  let* s3 := get in
  ret {| content := assemble (payload s3); status_code := status; headers := hdrs |}.

(** [async_perform] and [perform]: a response is handed over only by the
    last line of [async_perform]. *)
Definition perform (warmup fanout : list nat) : M GatewayResponse :=
  let* s := get in
  let* spec :=
  catch_sdne (let* sp := await (_get_swagger_spec (kw_service (url_kwargs s))) in
    ret (Some sp))
  (fun _ => ret None) in
  match spec with
  | Some sp => _get_data warmup fanout sp
  | None => raise (GatewayError "Error performing asynchronous gateway request")
  end.

End Engine.
End Async.

(** ** A concrete deployment: an orders service joined to a products service *)

Module Scenario.

Definition lm (name : string) : LogicModule :=
  {| endpoint_name := name; lm_relationships := [] |}.

Definition m_orders : LogicModuleModel :=
  {| logic_module_endpoint_name := "orders"; endpoint := "/orders/";
    lookup_field_name := "id" |}.

Definition m_products : LogicModuleModel :=
  {| logic_module_endpoint_name := "products"; endpoint := "/products/";
    lookup_field_name := "id" |}.

(** A model of a service that is not registered. *)
Definition m_ghost : LogicModuleModel :=
  {| logic_module_endpoint_name := "ghost"; endpoint := "/things/";
    lookup_field_name := "id" |}.

Definition rel (k : string) (related : LogicModuleModel) : Relationship :=
  {| key := k; origin_model := m_orders; related_model := related |}.

Definition jr (related_id : string) : JoinRecord :=
  {| record_id := None; record_uuid := None;
    related_record_id := Some related_id; related_record_uuid := None |}.

(** [datamesh.utils.prepare_lookup_kwargs] as the deployment has it. *)
Definition lookup_kwargs (is_forward : bool) (r : Relationship) (j : JoinRecord)
  : LogicModuleModel * string :=
  if is_forward
  then (related_model r,
    match related_record_id j with
    | Some _ => "related_record_id" | None => "related_record_uuid" end)
  else (origin_model r,
    match record_id j with
    | Some _ => "record_id" | None => "record_uuid" end).

(** The registry, for given relationships of the orders model and given
    join records per origin key and relationship key. *)
Definition registry (rels : list (Relationship * bool))
  (joins : value -> string -> list JoinRecord) : Registry :=
  {| LogicModule_get := fun name =>
    if str_in name ["orders"; "products"] then Some (lm name) else None;
    LogicModuleModel_get := fun service ep =>
    if String.eqb service "orders" && String.eqb ep "/orders/"
    then Some m_orders else None;
    get_relationships := fun _ => rels;
    get_join_records := fun pk r _ => joins pk (key r);
    prepare_lookup_kwargs := lookup_kwargs;
    get_swagger_url_by_logic_module := fun l =>
    "http://" ++ endpoint_name l ++ "/docs/swagger.json";
    wfm_get := fun _ _ => WfmNoClass;
    exn_status := fun _ => 404;
    exn_content_type := fun _ => "application/json";
    py_repr := fun _ => EmptyString |}.

(** The OpenAPI document of a service with one model: list and detail
    views, read only. *)
Definition spec_of (service model : string) : Spec :=
  {| api_url := "http://" ++ service ++ "/";
    get_op_for_request := fun m p =>
    if String.eqb (PyStr.lower m) "get"
    && str_in p ["/" ++ model ++ "/"; "/" ++ model ++ "/{id}/";
      "/" ++ model ++ "/{uuid}/"]
    then Some {| http_method := "GET"; path_name := p |}
    else None |}.

Definition schemas (u : string) : SchemaResult :=
  if String.eqb u "http://orders/docs/swagger.json" then SchemaOk (spec_of "orders" "orders")
  else if String.eqb u "http://products/docs/swagger.json"
  then SchemaOk (spec_of "products" "products")
  else SchemaURLError.

Definition answer (status : Z) (body : value) : HttpResult :=
  HttpAnswer {| r_json := Some body; r_json_raises := None; r_content := EmptyString;
    r_status := status;
    r_headers := [("Content-Type", "application/json")] |}.

Definition order (n : Z) : value := VDict [("id", VNum n); ("name", VStr "order")].
Definition product (n : Z) : value := VDict [("id", VNum n)].

(** The upstream services: orders 7 and 8, products 10 and 11; product
    12 answers 500 with an error object, product 13 is out of reach,
    product 14 answers with a body that is not JSON. *)
Definition serve (c : HttpCall) : HttpResult :=
  let u := c_url c in
  if String.eqb u "http://orders/orders/7/" then answer 200 (order 7)
  else if String.eqb u "http://orders/orders/" then answer 200 (VList [order 7; order 8])
  else if String.eqb u "http://products/products/10/" then answer 200 (product 10)
  else if String.eqb u "http://products/products/11/" then answer 200 (product 11)
  else if String.eqb u "http://products/products/12/"
  then answer 500 (VDict [("detail", VStr "boom")])
  else if String.eqb u "http://products/products/13/"
  then HttpRaise "ConnectionError" "refused"
  else if String.eqb u "http://products/products/14/"
  then HttpAnswer {| r_json := None; r_json_raises := None; r_content := "<html>";
    r_status := 200;
    r_headers := [] |}
  else answer 404 (VDict [("detail", VStr "Not found.")]).

Definition world : World :=
  {| http := fun _ c => serve c; fetch_schema := fun _ u => schemas u |}.

(** The same services, each answer stamped with the time of its call. *)
Definition stamped : World :=
  {| http := fun t c =>
    match serve c with
    | HttpAnswer r =>
        HttpAnswer {| r_json := r_json r; r_json_raises := r_json_raises r;
          r_content := r_content r;
          r_status := r_status r;
          r_headers := ("X-Seq", pretty t) :: r_headers r |}
    | x => x
    end;
    fetch_schema := fun _ u => schemas u |}.

Definition inbound (p : string) (q : QueryDict) : Request :=
  {| method := "GET"; GET := q; content_type := "text/plain"; data := None;
    FILES := []; path := p; authorization := "Token abc" |}.

Definition kwargs (pk : option string) : Kwargs :=
  {| kw_service := "orders"; kw_model := Some "orders"; kw_pk := pk;
    kw_method := None; kw_relationship_key := None |}.

(** [GET /orders/orders/7/?join=true] and [GET /orders/orders/?join=true]. *)
Definition detail_join : Gw :=
  init (inbound "/orders/orders/7/" [("join", ["true"])]) (kwargs (Some "7")).
Definition list_join : Gw :=
  init (inbound "/orders/orders/" [("join", ["true"])]) (kwargs None).

Definition items : list (Relationship * bool) := [(rel "items" m_products, true)].

(** Join records of the relationship ["items"]: order 7 has the given
    products, order 8 has product 10. *)
Definition joins_of (of7 : list string) (pk : value) (k : string) : list JoinRecord :=
  match pk with
  | VNum 7 => List.map jr of7
  | VNum 8 => [jr "10"]
  | _ => []
  end.

End Scenario.

(** ** Vocabulary of the properties *)

(** The records the join visits, in the order of its loop: the object
    itself in a detail view, the items in a list view. *)
Definition records_of (content0 : value) : list Path :=
  match get_path (resp_data_path content0) content0 with
  | Some (VDict _) => [resp_data_path content0]
  | Some (VList l) => item_paths (resp_data_path content0) (length l)
  | _ => []
  end.

(** [triple P m Q]: from a state in [P], [m] ends with a result and a
    state in [Q]. *)
Definition triple {A} (P : Gw -> Prop) (m : M A) (Q : result A -> Gw -> Prop) : Prop :=
  forall s, P s -> Q (m s).1 (m s).2.

(** How a computation may leave a state in which [I] held: [I] again when
    it returns or raises ServiceDoesNotExist, which [_get_data] catches;
    [I'] when another exception ends the request. *)
Definition exits (I I' : Gw -> Prop) {A} (r : result A) (s : Gw) : Prop :=
  match r with
  | Ok _ => I s
  | Err e => if is_ServiceDoesNotExist e then I s else I' s
  end.

(** The response cache of [s] still holds every entry it held in [s0]. *)
Definition cache_kept (s0 s : Gw) : Prop := _data s0 ⊆ _data s.

Module CacheScenario.
Import Scenario.

(** [GET /orders/orders/7/] without parameters, and the sub-requests for
    the products 10 and 11. *)
Definition s0 : Gw := init (inbound "/orders/orders/7/" []) (kwargs (Some "7")).
Definition products : Spec := spec_of "products" "products".
Definition kw (pk : string) : Kwargs :=
  {| kw_service := "products"; kw_model := Some "products"; kw_pk := Some pk;
    kw_method := Some "get"; kw_relationship_key := None |}.
Definition s1 : Gw := (_data_request stamped products (kw "10") s0).2.
Definition s2 : Gw := (_data_request stamped products (kw "11") s1).2.
End CacheScenario.

(** The tasks of the spec warm-up of the concurrent join. *)
Definition warmup_tasks (reg : Registry) (W : World)
    (relationships : list (Relationship * bool)) : list (Co unit) :=
  List.map (fun r : Relationship * bool =>
              co_then (Async._get_swagger_spec reg W
                         (logic_module_endpoint_name (related_model (fst r))))
                      (fun _ => ret tt))
           relationships.

(** The record a reference leads to has no lookup field, or a falsy one. *)
Definition lookup_falsy (data_item : Path) (field : string) (content0 : value) : Prop :=
  exists d, get_path data_item content0 = Some (VDict d)
            /\ truthy (default VNull (dict_get field d)) = false.

Module FalsyScenario.
Import Scenario.

(** The orders service answers the list view with order 7 and an order
    whose id is 0. *)
Definition serve0 (c : HttpCall) : HttpResult :=
  if String.eqb (c_url c) "http://orders/orders/"
  then answer 200 (VList [order 7; order 0])
  else serve c.

Definition world0 : World :=
  {| http := fun _ c => serve0 c; fetch_schema := fun _ u => schemas u |}.

Definition reg0 : Registry := registry items (joins_of ["10"]).

Definition orders : Spec := spec_of "orders" "orders".
End FalsyScenario.

(** What it takes for [I] to be kept by every step of the engine: each
    elementary update keeps it, in the situation in which the engine
    performs the update. [I'] is what is left of [I] when an exception
    other than ServiceDoesNotExist ends the request; [K p k] holds of the
    records [p] the join may write to and of the relationship keys [k] it
    may write there. *)
Record step_invariant (I I' : Gw -> Prop) (K : Path -> string -> Prop) : Prop := {
  si_weaken : forall s, I s -> I' s;
  si_logic_modules : forall s name lm,
    I s -> _logic_modules s !! name = None ->
    I (set_logic_modules (<[name := lm]> (_logic_modules s)) s);
  si_log : forall s l, I s -> I (record_log l s);
  si_fetch_failed : forall s u,
    I s -> _specs s !! u = None -> I' (record_fetch u s);
  si_fetch : forall s u sp,
    I s -> _specs s !! u = None ->
    I (set_specs (<[u := sp]> (_specs s)) (record_fetch u s));
  si_call_failed : forall s method url body,
    I s -> get_request_data (request s) = Ok body ->
    (if is_valid_for_cache (request s) then _data s !! url else None) = None ->
    I' (record_call (call_of (request s) method url body) s);
  si_call : forall s method url body,
    I s -> get_request_data (request s) = Ok body ->
    is_valid_for_cache (request s) = false ->
    I (record_call (call_of (request s) method url body) s);
  si_call_cached : forall s method url body rd,
    I s -> get_request_data (request s) = Ok body ->
    is_valid_for_cache (request s) = true ->
    _data s !! url = None ->
    I (set_data (<[url := rd]> (_data s))
                (record_call (call_of (request s) method url body) s));
  si_clear : forall s, I s -> I (set_request (clear_GET (request s)) s);
  si_item_set : forall s p k,
    K p k -> I s ->
    I (set_payload (update_path p (item_set k (VList [])) (payload s)) s);
  si_append : forall s (p : Path) k x,
    K p k -> I s ->
    I (set_payload (update_path (p ++ [Key k])%list (list_append x) (payload s)) s)
}.

(** A data request that carries nothing of the query parameters of the
    inbound request [rq]: its [params] are empty and its body is the one
    [get_request_data] builds once the parameters are cleared. *)
Definition sent_without_params (rq : Request) (c : HttpCall) : Prop :=
  c_params c = [] /\ get_request_data (clear_GET rq) = Ok (c_data c).

(** The request object is the inbound request [rq] with its query
    parameters cleared, and every data request issued since the calls
    [calls0] went without them. *)
Definition cleared_since (rq : Request) (calls0 : list HttpCall) (s : Gw) : Prop :=
  request s = clear_GET rq
  /\ exists new, http_calls s = (calls0 ++ new)%list
                 /\ Forall (sent_without_params rq) new.

(** No data request was issued, and the request object, the payload and
    the embed lists are as they were. *)
Definition untouched (s0 s : Gw) : Prop :=
  http_calls s = http_calls s0 /\ request s = request s0
  /\ payload s = payload s0 /\ placeholders s = placeholders s0.

(** [m] keeps [I], however it ends. *)
Definition keeps {A} (I : Gw -> Prop) (m : M A) : Prop :=
  forall s, I s -> I (m s).2.

(** A coroutine keeps [I]: its first segment does, and so does the
    segment that runs when it is resumed, in whatever state satisfying [I]
    the other coroutines have left. *)
Definition co_keeps {A} (I : Gw -> Prop) (c : Co A) : Prop :=
  forall s, I s ->
    I (c s).2
    /\ match (c s).1 with
       | Suspended k => keeps I k
       | Finished _ => True
       end.

(** What it takes for [I] to be kept by every step of the concurrent
    engine. A continuation runs in a state that other coroutines may have
    changed, so the writes of [self._specs] and of [self._data] come with
    no knowledge of what these maps hold. *)
Record async_invariant (I : Gw -> Prop) (K : Path -> string -> Prop) : Prop := {
  ai_logic_modules : forall s name lm,
    I s -> _logic_modules s !! name = None ->
    I (set_logic_modules (<[name := lm]> (_logic_modules s)) s);
  ai_log : forall s l, I s -> I (record_log l s);
  ai_fetch : forall s u, I s -> _specs s !! u = None -> I (record_fetch u s);
  ai_spec : forall s u sp, I s -> I (set_specs (<[u := sp]> (_specs s)) s);
  ai_call : forall s method url body,
    I s -> get_request_data (request s) = Ok body ->
    I (record_call (Async.call_of (request s) method url body) s);
  ai_cache : forall s url rd,
    I s -> is_valid_for_cache (request s) = true ->
    I (set_data (<[url := rd]> (_data s)) s);
  ai_clear : forall s, I s -> I (set_request (clear_GET (request s)) s);
  ai_placeholder : forall s p k, K p k -> I s -> I (Async.with_placeholder p k s);
  ai_append : forall s ph place x,
    I s -> placeholders s !! ph = Some (Some place) ->
    I (set_payload (update_path place (list_append x) (payload s)) s)
}.

(** [m] keeps [I] and the coroutines it returns keep [I]. *)
Definition keeps_tasks (I : Gw -> Prop) (m : M (list (Co unit))) : Prop :=
  forall s, I s ->
    I (m s).2
    /\ match (m s).1 with
       | Ok tasks => Forall (co_keeps I) tasks
       | Err _ => True
       end.

(** The keys of a list of relationships. *)
Definition relationship_keys (relationships : list (Relationship * bool)) : list string :=
  List.map (fun r : Relationship * bool => key (fst r)) relationships.

Definition is_relationship_key (relationships : list (Relationship * bool)) (k : string)
  : bool :=
  str_in k (relationship_keys relationships).

(** The relationships the join works with in state [s]: those
    [get_datamesh_relationships] returns, none when it raises. *)
Definition relationships_of (reg : Registry) (s : Gw) : list (Relationship * bool) :=
  match (get_datamesh_relationships reg s).1 with
  | Ok (relationships, _) => relationships
  | Err _ => []
  end.

(** No schema_url was fetched twice. *)
Definition fetched_once (s : Gw) : Prop := NoDup (schema_fetches s).

(** Every fetch so far was answered with a schema, and [self._specs]
    holds one for its schema_url. *)
Definition fetches_settled (s : Gw) : Prop :=
  forall u, u ∈ schema_fetches s -> is_Some (_specs s !! u).

(** [self._logic_modules] holds what the registry holds. *)
Definition modules_of_registry (reg : Registry) (s : Gw) : Prop :=
  forall name lm,
    _logic_modules s !! name = Some lm -> LogicModule_get reg name = Some lm.

(** The state of the spec cache between two lookups that do not overlap. *)
Definition specs_in_order (reg : Registry) (s : Gw) : Prop :=
  fetched_once s /\ fetches_settled s /\ modules_of_registry reg s.

(** The schema_url of a service, when the service is registered. *)
Definition schema_url_of (reg : Registry) (name : string) : option string :=
  option_map (get_swagger_url_by_logic_module reg) (LogicModule_get reg name).

(** The schema_urls the warm-up of the concurrent join looks up: one for
    each relationship whose related service is registered. *)
Definition warmup_urls (reg : Registry) (relationships : list (Relationship * bool))
  : list string :=
  omap (fun r : Relationship * bool =>
          schema_url_of reg (logic_module_endpoint_name (related_model r.1)))
       relationships.

(** How a lookup, alone or with others, may leave the spec cache: in
    order when it returns, and with no schema_url fetched twice when an
    exception ends the join or the request. *)
Definition ends_in_order (reg : Registry) {A} (r : result A) (s : Gw) : Prop :=
  match r with
  | Ok _ => specs_in_order reg s
  | Err _ => fetched_once s
  end.

(** [s'] has the fetches, the specs and the logic modules of [s]. *)
Definition store_same (s s' : Gw) : Prop :=
  schema_fetches s' = schema_fetches s /\ _specs s' = _specs s
  /\ _logic_modules s' = _logic_modules s.

(** A coroutine that neither fetches a schema nor writes a spec. *)
Definition co_frames (c : Co unit) : Prop :=
  forall s,
    store_same s (c s).2
    /\ match (c s).1 with
       | Suspended k => forall s', store_same s' (k s').2
       | Finished _ => True
       end.

(** The second segment of a lookup that fetched [u]: it fetches nothing,
    drops no spec, and when it returns [self._specs] has one for [u]. *)
Definition settles {A} (u : string) (k : M A) : Prop :=
  forall s,
    schema_fetches (k s).2 = schema_fetches s
    /\ _logic_modules (k s).2 = _logic_modules s
    /\ (forall v, is_Some (_specs s !! v) -> is_Some (_specs (k s).2 !! v))
    /\ match (k s).1 with
       | Ok _ => is_Some (_specs (k s).2 !! u)
       | Err _ => True
       end.

Module SharedServiceScenario.
Import Scenario.

(** Two relationships of the orders model, both to the products service. *)
Definition both : list (Relationship * bool) :=
  [(rel "items" m_products, true); (rel "spares" m_products, true)].

Definition reg2 : Registry := registry both (joins_of ["10"]).
End SharedServiceScenario.

(** The exception [_get_logic_module] raises for a service the registry
    does not have. *)
Definition service_not_found (service_name : string) : exn :=
  ServiceDoesNotExist ("Service " ++ dquote ++ service_name ++ dquote ++ " not found.").

(** The service [name] is known neither to the registry nor to the
    request object. *)
Definition unknown_service (reg : Registry) (name : string) (s : Gw) : Prop :=
  _logic_modules s !! name = None /\ LogicModule_get reg name = None.

(** The request object yields the headers [h], and every data request
    issued so far went with them. *)
Definition carries_headers (h : Headers) (s : Gw) : Prop :=
  get_headers (request s) = h /\ Forall (fun c => c_headers c = h) (http_calls s).

(** The exceptions with which [GatewayRequest._data_request] may end. *)
Definition data_request_failure (e : exn) : Prop :=
  (exists m, e = EndpointNotFound m)
  \/ (exists m, e = OtherError "AttributeError" m)
  \/ (exists m, e = GatewayError m).

(** The query parameters [get_request_data] forwards in the body: all
    but the two private ones. *)
Definition forwarded_params (rq : Request) : list (string * value) :=
  dict_pop "join" (dict_pop "aggregate" (querydict_dict (query_params rq))).

(** The entries [get_request_data] makes of the uploaded files. *)
Definition file_entries (rq : Request) : list (string * value) :=
  List.map (fun kv : string * Upload => (fst kv, file_entry (snd kv))) (FILES rq).

(** [d.get(k)] of the dict that is [lower], then updated with [middle],
    then with [upper]. *)
Definition layered_get (k : string) (lower middle upper : list (string * value))
  : option value :=
  match dict_get k upper with
  | Some v => Some v
  | None =>
      match dict_get k middle with
      | Some v => Some v
      | None => dict_get k lower
      end
  end.

Module UploadScenario.
(** [POST ?join=true&page=2] with the form fields [page=3], [join=x] and
    an uploaded file [doc]. *)
Definition upload : Upload :=
  {| up_name := "a.txt"; up_content_type := "text/plain"; up_content := "hello" |}.

Definition post : Request :=
  {| method := "POST"; GET := [("join", ["true"]); ("page", ["2"])];
    content_type := "multipart/form-data";
    data := Some (DataForm [("page", ["3"]); ("join", ["x"])]);
    FILES := [("doc", upload)]; path := "/orders/orders/";
    authorization := "Token abc" |}.
End UploadScenario.
(** The fields of the request object that the legacy aggregation of a
    service without relationships leaves alone. *)
Definition aggregation_frame (s0 s : Gw) : Prop :=
  payload s = payload s0 /\ http_calls s = http_calls s0
  /\ schema_fetches s = schema_fetches s0 /\ request s = request s0
  /\ url_kwargs s = url_kwargs s0.

(** ** The uuid field of a workflow model *)

(** [s.endswith(suffix)]. *)
Fixpoint str_endswith (suffix s : string) : bool :=
  String.eqb s suffix
  || match s with
     | EmptyString => false
     | String _ s' => str_endswith suffix s'
     end.

(** A field of [model._meta.fields], as [_get_bifrost_uuid_name] reads
    it; [f_default_uuid4] says whether [field.default == uuid.uuid4]. *)
Record ModelField := {
  f_name : string;
  f_unique : bool;
  f_default_uuid4 : bool;
}.

(** The test of the loop of [_get_bifrost_uuid_name]. *)
Definition is_uuid_field (field : ModelField) : bool :=
  str_endswith "uuid" (f_name field) && f_unique field && f_default_uuid4 field.

(** [_get_bifrost_uuid_name]; [None] is the None Python returns when the
    loop ends. *)
Fixpoint _get_bifrost_uuid_name (fields : list ModelField) : option string :=
  match fields with
  | [] => None
  | field :: rest =>
      if is_uuid_field field then Some (f_name field) else _get_bifrost_uuid_name rest
  end.

(** No character of [s] is a slash. *)
Fixpoint no_slash (s : string) : bool :=
  match s with
  | EmptyString => true
  | String c s' => negb (Ascii.eqb c "/") && no_slash s'
  end.

(** The reference [p] leads to an object of the payload whose fields
    satisfy [Q]. *)
Definition record_at (p : Path) (Q : list (string * value) -> Prop) (s : Gw) : Prop :=
  exists d, get_path p (payload s) = Some (VDict d) /\ Q d.

(** The data request for [kw] in state [s] is sent upstream as the call
    to [url], and it is answered with [resp]. *)
Definition answered (W : World) (spec : Spec) (kw : Kwargs) (s : Gw)
    (url : string) (resp : HttpResponse) : Prop :=
  exists method body,
    prepare_data (request s) spec kw = Ok (method, url)
    /\ (if is_valid_for_cache (request s) then _data s !! url else None) = None
    /\ str_in method requests_methods = true
    /\ get_request_data (request s) = Ok body
    /\ http W (tick s) (call_of (request s) method url body) = HttpAnswer resp.

Module EmbedScenario.
Import Scenario.

(** Order 7 as the join has it before the sub-requests of ["items"],
    with product 10 embedded already; the request has no parameters. *)
Definition s0 : Gw :=
  set_payload (VDict [("id", VNum 7); ("items", VList [product 10])]) CacheScenario.s0.
End EmbedScenario.

(** The concurrent data request for [kw] in state [s] is sent upstream as
    the call to [url], and it is answered with [resp]. *)
Definition async_answered (W : World) (spec : Spec) (kw : Kwargs) (s : Gw)
    (url : string) (resp : HttpResponse) : Prop :=
  exists method body,
    prepare_data (request s) spec kw = Ok (method, url)
    /\ (if is_valid_for_cache (request s) then _data s !! url else None) = None
    /\ str_in method requests_methods = true
    /\ get_request_data (request s) = Ok body
    /\ http W (tick s) (Async.call_of (request s) method url body) = HttpAnswer resp.

(** What is left of the state when only the traffic, the request object
    and the payload are looked at. *)
Definition expansion_frame (s0 s : Gw) : Prop :=
  http_calls s = http_calls s0 /\ schema_fetches s = schema_fetches s0
  /\ request s = request s0 /\ payload s = payload s0.

(** ** What the resolver is measured against *)

(** The letters that have a lower-case form, each with that form: [A] to
    [Z], and the letters from U+00C0 to U+00DE but for U+00D7. *)
Definition case_table : list (ascii * ascii) :=
  (combine (list_ascii_of_string "ABCDEFGHIJKLMNOPQRSTUVWXYZ")
           (list_ascii_of_string "abcdefghijklmnopqrstuvwxyz")
   ++ List.map (fun n => (ascii_of_nat n, ascii_of_nat (n + 32)))
               (seq 192 23 ++ seq 216 7))%list.

(** The lower-case form of a character, the character itself when the
    table has none. *)
Definition lower_form (c : ascii) : ascii :=
  match List.find (fun p : ascii * ascii => Ascii.eqb (fst p) c) case_table with
  | Some p => snd p
  | None => c
  end.

(** A string, every letter in its lower-case form. *)
Definition lowered (s : string) : string :=
  string_of_list_ascii (List.map lower_form (list_ascii_of_string s)).

(** [n] slashes. *)
Definition slashes (n : nat) : string := string_of_list_ascii (repeat "/"%char n).

(** [s] ends in a slash. *)
Definition ends_in_slash (s : string) : Prop := exists t, s = t ++ "/".

(** [old] occurs in [s] after the prefix [a]. *)
Definition occurs_after (old a s : string) : Prop := exists b, s = a ++ old ++ b.

(** [substituted old new s t]: [t] is [s] with [new] in place of [old],
    for every occurrence of [old] met from left to right, each search
    going on after the occurrence replaced last. *)
Inductive substituted (old new : string) : string -> string -> Prop :=
| substituted_none (s : string) :
    (forall a, ~ occurs_after old a s) -> substituted old new s s
| substituted_first (a b t : string) :
    (forall a', occurs_after old a' (a ++ old ++ b) ->
                (String.length a <= String.length a')%nat) ->
    substituted old new b t ->
    substituted old new (a ++ old ++ b) (a ++ new ++ t).

(** The hexadecimal digits. *)
Definition hex_digits : list ascii := list_ascii_of_string "0123456789abcdefABCDEF".

(** [s] is made of [n] hexadecimal digits. *)
Definition hex_run (n : nat) (s : string) : Prop :=
  String.length s = n /\ Forall (fun c => In c hex_digits) (list_ascii_of_string s).

(** The canonical form of a UUID: groups of 8, 4, 4, 4 and 12 hexadecimal
    digits with a hyphen between them. *)
Definition canonical_uuid (s : string) : Prop :=
  exists a b c d e,
    s = a ++ "-" ++ b ++ "-" ++ c ++ "-" ++ d ++ "-" ++ e
    /\ hex_run 8 a /\ hex_run 4 b /\ hex_run 4 c /\ hex_run 4 d /\ hex_run 12 e.

(** The name of the pk placeholder of the inbound template. *)
Definition pk_placeholder (pk name : string) : Prop :=
  (canonical_uuid pk /\ name = "uuid") \/ (~ canonical_uuid pk /\ name = "id").

(** What the join may do to a field: nothing to its key, and nothing to
    its value unless a relationship names the field. *)
Definition field_kept (relationships : list (Relationship * bool))
    (kv kv' : string * value) : Prop :=
  fst kv' = fst kv
  /\ (is_relationship_key relationships (fst kv) = false -> snd kv' = snd kv).

(** [d'] is the object [d] after the join: the fields of [d], each in its
    place and kept, and after them fields named by a relationship. *)
Definition record_joined (relationships : list (Relationship * bool))
    (d d' : list (string * value)) : Prop :=
  exists kept added,
    d' = (kept ++ added)%list
    /\ Forall2 (field_kept relationships) d kept
    /\ Forall (fun kv : string * value =>
                 is_relationship_key relationships (fst kv) = true) added.

(** A value the join takes for a record: an object is joined, anything
    else is as it was. *)
Definition item_joined (relationships : list (Relationship * bool)) (v v' : value) : Prop :=
  match v with
  | VDict d => exists d', v' = VDict d' /\ record_joined relationships d d'
  | _ => v' = v
  end.

(** The records of [resp_data]: the object of a detail view, the items of
    a list view. *)
Definition records_joined (relationships : list (Relationship * bool)) (v v' : value)
  : Prop :=
  match v with
  | VList l => exists l', v' = VList l' /\ Forall2 (item_joined relationships) l l'
  | _ => item_joined relationships v v'
  end.

(** [v'] is the primary payload [v] after the join. In a paginated answer
    the records are under ["results"], and the envelope keeps every field
    in its place, the others with their values. *)
Definition payload_joined (relationships : list (Relationship * bool)) (v v' : value)
  : Prop :=
  match v with
  | VDict d =>
      match dict_get "results" d with
      | Some r =>
          exists r', records_joined relationships r r'
                     /\ v' = VDict (dict_alter (fun _ => r') "results" d)
      | None => records_joined relationships v v'
      end
  | _ => records_joined relationships v v'
  end.

(** A write of the join to a record: it turns a joined object into a
    joined object and leaves alone what is not an object. *)
Definition record_write (relationships : list (Relationship * bool))
    (f : value -> value) : Prop :=
  (forall d0 d, record_joined relationships d0 d ->
                exists d', f (VDict d) = VDict d' /\ record_joined relationships d0 d')
  /\ (forall v, (forall d, v <> VDict d) -> f v = v).

(** The payload is [v] after some writes of the join, and every embed
    list that is still attached sits in a record of [v], under a
    relationship key. *)
Definition joining (relationships : list (Relationship * bool)) (v : value) (s : Gw)
  : Prop :=
  payload_joined relationships v (payload s)
  /\ Forall (fun o : option Path =>
               match o with
               | Some place =>
                   exists (p : Path) k,
                     place = (p ++ [Key k])%list /\ In p (records_of v)
                     /\ is_relationship_key relationships k = true
               | None => True
               end) (placeholders s).






Module RepeatScenario.
Import Scenario.

(** The orders 7 and 8 both have product 10 among their items. *)
Definition reg : Registry := registry items (joins_of ["10"]).
End RepeatScenario.

(** ** What the join embeds *)

(** A JSON object. *)
Definition is_object (v : value) : Prop := exists d, v = VDict d.

(** The field [k] of an object holds the list [l]. *)
Definition holds (k : string) (l : list value) (d : list (string * value)) : Prop :=
  dict_get k d = Some (VList l).

(** The field [k] of an object holds a list of objects. *)
Definition holds_objects (k : string) (d : list (string * value)) : Prop :=
  exists l, holds k l d /\ Forall is_object l.

(** The bodies among [answers] that are objects, in their order: what
    [_add_nested_data] keeps of the answers to its sub-requests. *)
Definition objects (answers : list Cached) : list value :=
  flat_map (fun a : Cached => match a.1.1 with VDict d => [VDict d] | _ => [] end) answers.

(** Two states of the request object that differ at most in the payload
    and in the log: the traffic of the engine depends on nothing else. *)
Definition same_traffic (s t : Gw) : Prop :=
  request s = request t /\ url_kwargs s = url_kwargs t
  /\ _logic_modules s = _logic_modules t /\ _specs s = _specs t /\ _data s = _data t
  /\ placeholders s = placeholders t
  /\ http_calls s = http_calls t /\ schema_fetches s = schema_fetches t.

(** The sub-request [_add_nested_data] issues for one join record, on its
    own: the body of the inner loop up to the answer, without what it
    then writes to the payload or to the log. *)
Definition sub_request (W : World) (related_model : LogicModuleModel)
  (related_record_field : string) (spec : Spec) (join_record : JoinRecord) : M Cached :=
  let* s := get in
  match jr_getattr join_record related_record_field with
  | None => raise (OtherError "AttributeError" related_record_field)
  | Some field =>
      _data_request W spec (join_kwargs (request s) related_model (py_str field))
  end.

(** The sub-requests of one round of the outer loop of [_add_nested_data],
    on their own and in the order of the loop: the answers to the join
    records of one relationship. *)
Definition round_answers (reg : Registry) (W : World) (origin_pk : value)
  (r : Relationship * bool) : M (list Cached) :=
  let '(relationship, is_forward_lookup) := r in
  let join_records := get_join_records reg origin_pk relationship is_forward_lookup in
  match join_records with
  | [] => ret []
  | first :: _ =>
      let '(related_model, related_record_field) :=
      prepare_lookup_kwargs reg is_forward_lookup relationship first in
      let* spec := _get_swagger_spec reg W (logic_module_endpoint_name related_model) in
      map_m (sub_request W related_model related_record_field spec) join_records
  end.

(** * Properties *)

(** ** Reasoning about the engine's monad *)

Lemma triple_ret {A} (P : Gw -> Prop) (a : A) (Q : result A -> Gw -> Prop) :
  (forall s, P s -> Q (Ok a) s) -> triple P (ret a) Q.
Proof. intros H s Hs. now apply H. Qed.

Lemma triple_raise {A} (P : Gw -> Prop) (e : exn) (Q : result A -> Gw -> Prop) :
  (forall s, P s -> Q (Err e) s) -> triple P (raise e) Q.
Proof. intros H s Hs. now apply H. Qed.

Lemma triple_bind {A B} (P : Gw -> Prop) (m : M A) (k : A -> M B)
    (Mid : result A -> Gw -> Prop) (Q : result B -> Gw -> Prop) :
  triple P m Mid ->
  (forall e s, Mid (Err e) s -> Q (Err e) s) ->
  (forall a, triple (Mid (Ok a)) (k a) Q) ->
  triple P (bind m k) Q.
Proof.
  intros Hm He Hk s Hs. unfold bind.
  specialize (Hm s Hs). destruct (m s) as [[a|e] s']; simpl in *.
  - now apply Hk.
  - now apply He.
Qed.

Lemma triple_get (P : Gw -> Prop) (Q : result Gw -> Gw -> Prop) :
  (forall s, P s -> Q (Ok s) s) -> triple P get Q.
Proof. intros H s Hs. now apply H. Qed.

Lemma triple_modify (P : Gw -> Prop) (f : Gw -> Gw) (Q : result unit -> Gw -> Prop) :
  (forall s, P s -> Q (Ok tt) (f s)) -> triple P (modify f) Q.
Proof. intros H s Hs. now apply H. Qed.

Lemma triple_lift {A} (P : Gw -> Prop) (r : result A) (Q : result A -> Gw -> Prop) :
  (forall s, P s -> Q r s) -> triple P (lift r) Q.
Proof. intros H s Hs. now apply H. Qed.

Lemma triple_conseq {A} (P P' : Gw -> Prop) (m : M A) (Q Q' : result A -> Gw -> Prop) :
  triple P' m Q' ->
  (forall s, P s -> P' s) ->
  (forall r s, Q' r s -> Q r s) ->
  triple P m Q.
Proof. intros H HP HQ s Hs. apply HQ, H, HP, Hs. Qed.

(** A loop keeps an invariant that its body keeps, whether the body ends
    or raises. *)
Lemma triple_for_each {A} (I : Gw -> Prop) (body : A -> M unit) (xs : list A) :
  (forall x, In x xs -> triple I (body x) (fun _ s => I s)) ->
  triple I (for_each body xs) (fun _ s => I s).
Proof.
  induction xs as [|x xs IH]; intros Hb.
  - now apply triple_ret.
  - simpl. eapply triple_bind.
    + apply Hb. now left.
    + auto.
    + intros u. apply IH. intros y Hy. apply Hb. now right.
Qed.

Lemma triple_catch_sdne {A} (P : Gw -> Prop) (m : M A) (h : exn -> M A)
    (Mid Q : result A -> Gw -> Prop) :
  triple P m Mid ->
  (forall a s, Mid (Ok a) s -> Q (Ok a) s) ->
  (forall e s, is_ServiceDoesNotExist e = false -> Mid (Err e) s -> Q (Err e) s) ->
  (forall e, is_ServiceDoesNotExist e = true -> triple (Mid (Err e)) (h e) Q) ->
  triple P (catch_sdne m h) Q.
Proof.
  intros Hm Hok Herr Hh s Hs. unfold catch_sdne.
  specialize (Hm s Hs). destruct (m s) as [[a|e] s']; simpl in *.
  - now apply Hok.
  - destruct (is_ServiceDoesNotExist e) eqn:E.
    + now apply Hh.
    + now apply Herr.
Qed.

(** ** Strings *)

Lemma str_app_nil (b : string) : EmptyString ++ b = b.
Proof. reflexivity. Qed.

Lemma str_app_cons (c : ascii) (a b : string) : String c a ++ b = String c (a ++ b).
Proof. reflexivity. Qed.

Lemma str_app_assoc (a b c : string) : (a ++ b) ++ c = a ++ b ++ c.
Proof.
  induction a as [|x a IH]; [reflexivity|].
  rewrite !str_app_cons. now f_equal.
Qed.

Lemma rstrip_app_slashes (s : string) :
  exists n, s = PyStr.rstrip "/" s ++ string_of_list_ascii (repeat "/"%char n).
Proof.
  induction s as [|a s [n IH]]; simpl.
  - now exists 0%nat.
  - destruct (PyStr.rstrip "/" s) eqn:E.
    + destruct (Ascii.eqb a "/") eqn:Ea.
      * apply Ascii.eqb_eq in Ea. subst a. exists (S n).
        rewrite str_app_nil in *. simpl. now f_equal.
      * exists n. rewrite str_app_nil in IH. rewrite str_app_cons, str_app_nil. now f_equal.
    + exists n. rewrite str_app_cons. now f_equal.
Qed.

(** What [rstrip] leaves does not end in a slash. *)
Lemma rstrip_no_trailing (s t : string) :
  PyStr.rstrip "/" s <> t ++ "/".
Proof.
  revert t. induction s as [|a s IH]; intros t; simpl.
  - destruct t; discriminate.
  - destruct (PyStr.rstrip "/" s) eqn:E.
    + destruct (Ascii.eqb a "/") eqn:Ea.
      * destruct t; discriminate.
      * destruct t as [|b [|c t]]; try discriminate.
        rewrite str_app_nil. intros H. injection H as ->. now rewrite Ascii.eqb_refl in Ea.
    + destruct t as [|b t]; [discriminate|].
      rewrite str_app_cons. intros H. injection H as -> H. now apply IH in H.
Qed.

Lemma startswith_app (p s : string) : PyStr.startswith p (p ++ s) = true.
Proof.
  induction p as [|c p IH]; [reflexivity|].
  rewrite str_app_cons. simpl. now rewrite Ascii.eqb_refl.
Qed.

(** After a match the rest of the occurrence is skipped. *)
Lemma replace_from_skip (old new p s : string) :
  PyStr.replace_from old new (p ++ s) (String.length p) = PyStr.replace_from old new s 0.
Proof.
  induction p as [|c p IH]; [reflexivity|].
  rewrite str_app_cons. exact IH.
Qed.

(** The placeholder [{k}] at the first brace of a URL is replaced by the
    literal value. *)
Lemma replace_placeholder (k new a b : string) :
  (forall c, In c (list_ascii_of_string a) -> c <> "{"%char) ->
  PyStr.replace ("{" ++ k ++ "}") new (a ++ ("{" ++ k ++ "}") ++ b)
  = a ++ new ++ PyStr.replace ("{" ++ k ++ "}") new b.
Proof.
  unfold PyStr.replace. induction a as [|c a IH]; intros Ha.
  - rewrite !str_app_nil.
    set (old := "{" ++ k ++ "}").
    assert (old = String "{" (k ++ "}")) as Hold by reflexivity.
    rewrite Hold at 2. rewrite str_app_cons. cbn [PyStr.replace_from].
    rewrite <- str_app_cons, <- Hold, startswith_app. f_equal.
    replace (String.length old - 1)%nat
      with (String.length (k ++ "}")) by (rewrite Hold; simpl; lia).
    apply replace_from_skip.
  - set (old := "{" ++ k ++ "}") in *.
    assert (c <> "{"%char) as Hc by (apply Ha; now left).
    rewrite (str_app_cons c a (old ++ b)), (str_app_cons c a (new ++ _)).
    cbn [PyStr.replace_from].
    assert (PyStr.startswith old (String c (a ++ old ++ b)) = false) as ->.
    { change old with (String "{" (k ++ "}")). cbn [PyStr.startswith].
      destruct (Ascii.eqb "{" c) eqn:E; [|reflexivity].
      apply Ascii.eqb_eq in E. congruence. }
    f_equal. apply IH. intros d Hd. apply Ha. now right.
Qed.

(** ** The operation resolver *)

Lemma lower_char_form (c : ascii) : PyStr.lower_char c = lower_form c.
Proof. destruct c as [[] [] [] [] [] [] [] []]; vm_compute; reflexivity. Qed.

Lemma lower_lowered (s : string) : PyStr.lower s = lowered s.
Proof.
  induction s as [|c s IH]; [reflexivity|].
  change (String (PyStr.lower_char c) (PyStr.lower s) = String (lower_form c) (lowered s)).
  now rewrite IH, lower_char_form.
Qed.

(** *** [rstrip] *)

Lemma slashes_S (n : nat) : slashes (S n) = String "/" (slashes n).
Proof. reflexivity. Qed.

(** What [rstrip] takes away is a run of slashes, and what it leaves does
    not end in one. *)
Lemma rstrip_slashes (s : string) :
  exists n, s = PyStr.rstrip "/" s ++ slashes n /\ ~ ends_in_slash (PyStr.rstrip "/" s).
Proof.
  destruct (rstrip_app_slashes s) as [n Hn]. exists n. split; [exact Hn|].
  intros [t Ht]. exact (rstrip_no_trailing s t Ht).
Qed.

(** *** [replace] *)

Lemma startswith_occurs (old s : string) :
  PyStr.startswith old s = true <-> occurs_after old EmptyString s.
Proof.
  unfold occurs_after. split.
  - revert s. induction old as [|c old IH]; intros s H.
    + exists s. reflexivity.
    + destruct s as [|d s]; [discriminate|]. simpl in H.
      destruct (Ascii.eqb c d) eqn:E; [|discriminate].
      apply Ascii.eqb_eq in E as <-. destruct (IH s H) as [b Hb].
      exists b. rewrite str_app_nil in *. rewrite str_app_cons. now f_equal.
  - intros [b ->]. rewrite str_app_nil. apply startswith_app.
Qed.

Lemma str_length_app (a b : string) :
  String.length (a ++ b) = (String.length a + String.length b)%nat.
Proof.
  induction a as [|c a IH]; [reflexivity|].
  rewrite str_app_cons. simpl. now rewrite IH.
Qed.

(** [replace] at an occurrence, and at a character where there is none. *)
Lemma replace_at_start (old new b : string) :
  old <> EmptyString ->
  PyStr.replace old new (old ++ b) = new ++ PyStr.replace old new b.
Proof.
  intros Hold. destruct old as [|d old]; [congruence|].
  pose proof (startswith_app (String d old) b) as Hs.
  unfold PyStr.replace. rewrite str_app_cons in *. cbn [PyStr.replace_from].
  rewrite Hs. f_equal.
  replace (String.length (String d old) - 1)%nat with (String.length old)
    by (simpl; lia).
  apply replace_from_skip.
Qed.

Lemma replace_skip_char (old new : string) (c : ascii) (s : string) :
  PyStr.startswith old (String c s) = false ->
  PyStr.replace old new (String c s) = String c (PyStr.replace old new s).
Proof. intros H. unfold PyStr.replace. cbn [PyStr.replace_from]. now rewrite H. Qed.

Lemma occurs_after_cons (old a : string) (c : ascii) (s : string) :
  occurs_after old (String c a) (String c s) <-> occurs_after old a s.
Proof.
  unfold occurs_after. split; intros [b Hb]; exists b.
  - rewrite str_app_cons in Hb. now injection Hb.
  - rewrite str_app_cons. now f_equal.
Qed.

(** [replace] does what [substituted] says. *)
Lemma replace_substituted (old new s : string) :
  old <> EmptyString -> substituted old new s (PyStr.replace old new s).
Proof.
  intros Hold.
  assert (forall n s, (String.length s <= n)%nat ->
                      substituted old new s (PyStr.replace old new s)) as H;
    [|now apply (H (String.length s))].
  clear s. induction n as [|n IH]; intros s Hn.
  - destruct s; [|simpl in Hn; lia]. apply substituted_none.
    intros a [b Hb]. destruct a; [|discriminate].
    rewrite str_app_nil in Hb. destruct old; [congruence|discriminate].
  - destruct s as [|c s].
    { apply substituted_none. intros a [b Hb]. destruct a; [|discriminate].
      rewrite str_app_nil in Hb. destruct old; [congruence|discriminate]. }
    destruct (PyStr.startswith old (String c s)) eqn:E.
    + apply startswith_occurs in E as [b Hb]. rewrite str_app_nil in Hb. rewrite Hb.
      rewrite replace_at_start by exact Hold.
      apply (substituted_first old new EmptyString b).
      * intros a' _. simpl. lia.
      * apply IH. assert (String.length (String c s) = String.length (old ++ b)) as Hl
          by now rewrite Hb.
        rewrite str_length_app in Hl. simpl in Hl, Hn.
        destruct old; [congruence|]. simpl in Hl. lia.
    + rewrite replace_skip_char by exact E.
      assert (substituted old new s (PyStr.replace old new s)) as Hs
        by (apply IH; simpl in Hn; lia).
      assert (~ occurs_after old EmptyString (String c s)) as Hno.
      { intros Ho. apply startswith_occurs in Ho. congruence. }
      clear Hn. remember (PyStr.replace old new s) as t eqn:Et. clear Et E.
      destruct Hs as [s Hnone | a b t Hfirst Hrest].
      * apply substituted_none. intros [|d a] Ha; [now apply Hno|].
        assert (d = c) as -> by (destruct Ha as [b Hb]; rewrite str_app_cons in Hb; congruence).
        apply occurs_after_cons in Ha. exact (Hnone a Ha).
      * change (String c (a ++ old ++ b)) with (String c a ++ old ++ b).
        change (String c (a ++ new ++ t)) with (String c a ++ new ++ t).
        apply substituted_first; [|exact Hrest].
        intros [|d a'] Ha.
        -- exfalso. apply Hno. exact Ha.
        -- assert (d = c) as ->
             by (destruct Ha as [b' Hb]; rewrite !str_app_cons in Hb; congruence).
           change (String c a ++ old ++ b) with (String c (a ++ old ++ b)) in Ha.
           apply occurs_after_cons in Ha. apply Hfirst in Ha. simpl. lia.
Qed.

(** *** The test of a canonical UUID *)

Lemma is_hex_digit (c : ascii) : PyStr.is_hex c = true <-> In c hex_digits.
Proof.
  assert (PyStr.is_hex c = existsb (Ascii.eqb c) hex_digits) as ->
      by (destruct c as [[] [] [] [] [] [] [] []]; vm_compute; reflexivity).
  rewrite existsb_exists. split.
  - intros (x & Hx & E). apply Ascii.eqb_eq in E. now subst.
  - intros H. exists c. split; [exact H|apply Ascii.eqb_refl].
Qed.

Lemma str_app_nil_r (a : string) : a ++ EmptyString = a.
Proof. induction a as [|c a IH]; [reflexivity|]. rewrite str_app_cons. now f_equal. Qed.

(** A group of [n] digits: the digits, then what the rest of the shape
    asks for. *)
Lemma uuid_shape_group (n : nat) (rest : list nat) (s : string) :
  uuid_shape (n :: rest) s = true
  <-> exists a s', s = a ++ s' /\ hex_run n a /\ uuid_shape (0%nat :: rest) s' = true.
Proof.
  revert s. induction n as [|n IH]; intros s.
  - split.
    + intros H. exists EmptyString, s. repeat split; auto; constructor.
    + intros (a & s' & -> & [Hl _] & H). destruct a; [exact H|discriminate].
  - split.
    + intros H. destruct s as [|c s]; [discriminate|]. cbn [uuid_shape] in H.
      destruct (PyStr.is_hex c) eqn:Ec; [|discriminate].
      apply IH in H as (a & s' & -> & [Hl Hd] & H).
      exists (String c a), s'. rewrite str_app_cons. repeat split; auto.
      * simpl. now rewrite Hl.
      * simpl. constructor; [now apply is_hex_digit|exact Hd].
    + intros (a & s' & -> & [Hl Hd] & H). destruct a as [|c a]; [discriminate|].
      rewrite str_app_cons. cbn [uuid_shape]. simpl in Hd.
      apply Forall_cons in Hd as [Hc Hd]. apply is_hex_digit in Hc. rewrite Hc.
      apply IH. exists a, s'. repeat split; auto; simpl in Hl; lia.
Qed.

(** Between two groups: a hyphen. *)
Lemma uuid_shape_hyphen (n : nat) (rest : list nat) (s : string) :
  uuid_shape (0%nat :: n :: rest) s = true
  <-> exists s', s = "-" ++ s' /\ uuid_shape (n :: rest) s' = true.
Proof.
  split.
  - intros H. destruct s as [|c s]; [discriminate|]. cbn [uuid_shape] in H.
    destruct (Ascii.eqb c "-") eqn:Ec; [|discriminate].
    apply Ascii.eqb_eq in Ec as ->. now exists s.
  - intros (s' & -> & H). exact H.
Qed.

Lemma uuid_shape_end (s : string) : uuid_shape [0%nat] s = true <-> s = EmptyString.
Proof. destruct s; simpl; split; auto; discriminate. Qed.

(** The test accepts the canonical form and nothing else. *)
Lemma valid_uuid4_canonical (s : string) : valid_uuid4 s = true <-> canonical_uuid s.
Proof.
  unfold valid_uuid4, canonical_uuid. split.
  - intros H.
    apply uuid_shape_group in H as (a & s1 & -> & Ha & H).
    apply uuid_shape_hyphen in H as (s2 & -> & H).
    apply uuid_shape_group in H as (b & s3 & -> & Hb & H).
    apply uuid_shape_hyphen in H as (s4 & -> & H).
    apply uuid_shape_group in H as (c & s5 & -> & Hc & H).
    apply uuid_shape_hyphen in H as (s6 & -> & H).
    apply uuid_shape_group in H as (d & s7 & -> & Hd & H).
    apply uuid_shape_hyphen in H as (s8 & -> & H).
    apply uuid_shape_group in H as (e & s9 & -> & He & H).
    apply uuid_shape_end in H as ->. rewrite str_app_nil_r.
    now exists a, b, c, d, e.
  - intros (a & b & c & d & e & -> & Ha & Hb & Hc & Hd & He).
    apply uuid_shape_group. exists a, ("-" ++ b ++ "-" ++ c ++ "-" ++ d ++ "-" ++ e).
    split; [reflexivity|]. split; [exact Ha|].
    apply uuid_shape_hyphen. eexists. split; [reflexivity|].
    apply uuid_shape_group. exists b, ("-" ++ c ++ "-" ++ d ++ "-" ++ e).
    split; [reflexivity|]. split; [exact Hb|].
    apply uuid_shape_hyphen. eexists. split; [reflexivity|].
    apply uuid_shape_group. exists c, ("-" ++ d ++ "-" ++ e).
    split; [reflexivity|]. split; [exact Hc|].
    apply uuid_shape_hyphen. eexists. split; [reflexivity|].
    apply uuid_shape_group. exists d, ("-" ++ e).
    split; [reflexivity|]. split; [exact Hd|].
    apply uuid_shape_hyphen. eexists. split; [reflexivity|].
    apply uuid_shape_group. exists e, EmptyString.
    split; [now rewrite str_app_nil_r|]. split; [exact He|reflexivity].
Qed.

Lemma pk_placeholder_valid (pk : string) :
  pk_placeholder pk (if valid_uuid4 pk then "uuid" else "id").
Proof.
  destruct (valid_uuid4 pk) eqn:E.
  - left. split; [now apply valid_uuid4_canonical|reflexivity].
  - right. split; [|reflexivity]. intros H. apply valid_uuid4_canonical in H. congruence.
Qed.

(** C8. [prepare_data] looks up the operation of the spec for the inbound
    method and a template that is [/{model}/] without a pk,
    [/{model}/{uuid}/] when the pk has the canonical form of a UUID and
    [/{model}/{id}/] otherwise, the model in lower case; so the pk [42]
    goes through [{id}]. Without such an operation it raises
    EndpointNotFound. With one it returns the method of the operation in
    lower case and a URL: [api_url] without its trailing slashes, then the
    [path_name] of the operation, with the pk in the place of every
    occurrence of the placeholder. *)
Theorem prepare_data_resolves (rq : Request) (spec : Spec) (kw : Kwargs) :
  let model := lowered (default EmptyString (kw_model kw)) in
  pk_placeholder "42" "id"
  /\ pk_placeholder "123e4567-e89b-42d3-a456-426614174000" "uuid"
  /\ exists template name : string,
      match kw_pk kw with
      | None => template = "/" ++ model ++ "/"
      | Some pk =>
          pk_placeholder pk name /\ template = "/" ++ model ++ "/{" ++ name ++ "}/"
      end
      /\ match get_op_for_request spec (method rq) template with
         | None =>
             prepare_data rq spec kw
             = Err (EndpointNotFound
                      ("Endpoint not found: " ++ method rq ++ " " ++ template))
         | Some operation =>
             exists (base : string) (n : nat) (url : string),
               api_url spec = base ++ slashes n
               /\ ~ ends_in_slash base
               /\ match kw_pk kw with
                  | None => url = base ++ path_name operation
                  | Some pk =>
                      substituted ("{" ++ name ++ "}") pk
                                  (base ++ path_name operation) url
                  end
               /\ prepare_data rq spec kw = Ok (lowered (http_method operation), url)
         end.
Proof.
  intros model.
  split; [apply (pk_placeholder_valid "42")|].
  split; [apply (pk_placeholder_valid "123e4567-e89b-42d3-a456-426614174000")|].
  unfold prepare_data, path_template. rewrite lower_lowered. fold model.
  destruct (rstrip_slashes (api_url spec)) as (n & Hn & Hbase).
  destruct (kw_pk kw) as [pk|].
  - exists ("/" ++ model ++ "/{" ++ (if valid_uuid4 pk then "uuid" else "id") ++ "}/"),
      (if valid_uuid4 pk then "uuid" else "id").
    split; [split; [apply pk_placeholder_valid|reflexivity]|].
    destruct (get_op_for_request spec (method rq) _) as [operation|]; [|reflexivity].
    exists (PyStr.rstrip "/" (api_url spec)), n. eexists.
    split; [exact Hn|]. split; [exact Hbase|].
    split; [|rewrite lower_lowered; reflexivity].
    cbn [fold_left fst snd]. apply replace_substituted. discriminate.
  - exists ("/" ++ model ++ "/"), EmptyString. split; [reflexivity|].
    destruct (get_op_for_request spec (method rq) _) as [operation|]; [|reflexivity].
    exists (PyStr.rstrip "/" (api_url spec)), n. eexists.
    split; [exact Hn|]. split; [exact Hbase|].
    split; [reflexivity|]. rewrite lower_lowered. reflexivity.
Qed.

(** The products service of the scenario: pk 42 resolves through the
    [{id}] operation to the product's URL, and a model given in upper case
    through the same operation. *)
Example prepare_data_product_42 :
  prepare_data (Scenario.inbound "/orders/orders/7/" [])
               (Scenario.spec_of "products" "products")
               {| kw_service := "products"; kw_model := Some "Products";
                  kw_pk := Some "42"; kw_method := None; kw_relationship_key := None |}
  = Ok ("get", "http://products/products/42/").
Proof. reflexivity. Qed.

(** ** The elementary operations, as equations on states *)

#[global] Arguments str_in : simpl never.
#[global] Arguments is_valid_for_cache : simpl never.
#[global] Arguments get_request_data : simpl never.
#[global] Arguments get_headers : simpl never.
#[global] Arguments prepare_data : simpl never.
#[global] Arguments PyStr.lower : simpl never.
#[global] Arguments PyStr.strip : simpl never.
#[global] Arguments gateway_error_msg : simpl never.

Section Equations.

Context (reg : Registry) (W : World).

Lemma _get_logic_module_eq (name : string) (s : Gw) :
  _get_logic_module reg name s =
  match _logic_modules s !! name with
  | Some lm => (Ok lm, s)
  | None =>
      match LogicModule_get reg name with
      | Some lm => (Ok lm, set_logic_modules (<[name := lm]> (_logic_modules s)) s)
      | None =>
          (Err (ServiceDoesNotExist ("Service " ++ dquote ++ name ++ dquote ++ " not found.")), s)
      end
  end.
Proof.
  unfold _get_logic_module, bind, get, modify, ret, raise.
  destruct (_logic_modules s !! name); [reflexivity|].
  destruct (LogicModule_get reg name); reflexivity.
Qed.

Lemma _get_swagger_spec_eq (name : string) (s : Gw) :
  _get_swagger_spec reg W name s =
  match _get_logic_module reg name s with
  | (Err e, s1) => (Err e, s1)
  | (Ok logic_module, s1) =>
      let schema_url := get_swagger_url_by_logic_module reg logic_module in
      match _specs s1 !! schema_url with
      | Some swagger_spec => (Ok swagger_spec, s1)
      | None =>
          match fetch_schema W (tick s1) schema_url with
          | SchemaURLError =>
              (Err (URLError ("Make sure that " ++ schema_url ++ " is accessible.")),
                record_fetch schema_url s1)
          | SchemaNotJson =>
              (Err (OtherError "ValueError" schema_url), record_fetch schema_url s1)
          | SchemaRaise cls msg => (Err (OtherError cls msg), record_fetch schema_url s1)
          | SchemaOk swagger_spec =>
              (Ok swagger_spec,
                set_specs (<[schema_url := swagger_spec]> (_specs s1))
                (record_fetch schema_url s1))
          end
      end
  end.
Proof.
  unfold _get_swagger_spec, bind at 1.
  destruct (_get_logic_module reg name s) as [[lm|e] s1]; [|reflexivity].
  unfold bind, get, modify, ret, raise. cbn beta iota.
  destruct (_specs s1 !! _); [reflexivity|].
  destruct (fetch_schema W (tick s1) _); reflexivity.
Qed.

Lemma _data_request_eq (spec : Spec) (kw : Kwargs) (s : Gw) :
  _data_request W spec kw s =
  match prepare_data (request s) spec kw with
  | Err e => (Err e, s)
  | Ok (method, url) =>
      match (if is_valid_for_cache (request s) then _data s !! url else None) with
      | Some cached =>
          (Ok cached, record_log (LogDebug ("Taking data from cache: " ++ url)) s)
      | None =>
          if str_in method requests_methods then
          match get_request_data (request s) with
          | Err e =>
              (Err (GatewayError (gateway_error_msg (exn_class e) (exn_content e))), s)
          | Ok body =>
              let call := call_of (request s) method url body in
              match http W (tick s) call with
              | HttpRaise cls msg =>
                  (Err (GatewayError (gateway_error_msg cls msg)), record_call call s)
              | HttpAnswer response =>
                  let return_data :=
                  (decode response, r_status response, r_headers response) in
                  (Ok return_data,
                    if is_valid_for_cache (request s)
                    then set_data (<[url := return_data]> (_data s)) (record_call call s)
                    else record_call call s)
              end
          end
          else (Err (OtherError "AttributeError" method), s)
      end
  end.
Proof.
  unfold _data_request, bind, get, modify, ret, raise, lift, call_of. cbn beta iota.
  destruct (prepare_data (request s) spec kw) as [[method url]|e]; [|reflexivity].
  cbn beta iota.
  destruct (if is_valid_for_cache (request s) then _data s !! url else None);
    [reflexivity|].
  destruct (str_in method requests_methods); [|reflexivity]. cbn [negb].
  destruct (get_request_data (request s)); [|reflexivity].
  cbn beta iota zeta.
  destruct (http W (tick s) _); [reflexivity|].
  destruct (is_valid_for_cache (request s)); reflexivity.
Qed.

End Equations.

(** ** Invariants of the sequential engine

    One argument serves every property below that is kept by each step of
    the engine. [I] is the invariant; [I'] is what is left of it when an
    exception other than ServiceDoesNotExist ends the request; [K] holds of
    the relationship keys the join may write. The hypotheses say that the
    elementary updates keep the invariant, each in the situation in which
    the engine performs it. *)

Ltac use_invariant HI :=
  let H := fresh "H" in
  pose proof HI as H;
  destruct H as [I_weaken I_logic_modules I_log I_fetch_failed I_fetch I_call_failed I_call I_call_cached I_clear I_item_set I_append].

Section Invariant.


Context (reg : Registry) (W : World).
Variables (I I' : Gw -> Prop) (K : Path -> string -> Prop).

Hypothesis HI : step_invariant I I' K.

Local Abbreviation post := (exits I I').

Lemma exits_raise {A} (e : exn) (s : Gw) : I s -> post (@Err A e) s.
Proof.
  use_invariant HI.
  intros H. simpl. destruct (is_ServiceDoesNotExist e); auto. Qed.

Lemma inv_bind {A B} (m : M A) (k : A -> M B) :
  triple I m post -> (forall a, triple I (k a) post) -> triple I (bind m k) post.
Proof.
  use_invariant HI.
  intros Hm Hk. eapply triple_bind; [exact Hm | | ].
  - intros e s H. exact H.
  - intros a. apply Hk.
Qed.

Lemma inv_ret {A} (a : A) : triple I (ret a) post.
Proof.
  use_invariant HI.
  apply triple_ret. auto. Qed.

Lemma inv_raise {A} (e : exn) : triple I (@raise A e) post.
Proof.
  use_invariant HI.
  apply triple_raise. intros s. apply exits_raise. Qed.

Lemma inv_get : triple I get post.
Proof.
  use_invariant HI.
  apply triple_get. auto. Qed.

Lemma inv_for_each {A} (body : A -> M unit) (xs : list A) :
  (forall x, In x xs -> triple I (body x) post) ->
  triple I (for_each body xs) post.
Proof.
  use_invariant HI.
  induction xs as [|x xs IH]; intros Hb; simpl.
  - apply inv_ret.
  - apply inv_bind; [apply Hb; now left|].
    intros u. apply IH. intros y Hy. apply Hb. now right.
Qed.

Lemma inv_map_m {A B} (f : A -> M B) (xs : list A) :
  (forall x, In x xs -> triple I (f x) post) ->
  triple I (map_m f xs) post.
Proof.
  use_invariant HI.
  induction xs as [|x xs IH]; intros Hb; simpl.
  - apply inv_ret.
  - apply inv_bind; [apply Hb; now left|]. intros y.
    apply inv_bind; [apply IH; intros z Hz; apply Hb; now right|].
    intros ys. apply inv_ret.
Qed.

Lemma inv_catch_sdne (m : M unit) :
  triple I m post -> triple I (catch_sdne m log_error) post.
Proof.
  use_invariant HI.
  intros Hm s Hs. specialize (Hm s Hs). unfold catch_sdne.
  destruct (m s) as [[a|e] s']; simpl in *; [exact Hm|].
  destruct (is_ServiceDoesNotExist e) eqn:E; simpl.
  - now apply I_log.
  - now rewrite E.
Qed.

Lemma inv__get_logic_module (name : string) :
  triple I (_get_logic_module reg name) post.
Proof.
  use_invariant HI.
  intros s Hs. rewrite _get_logic_module_eq.
  destruct (_logic_modules s !! name) eqn:E; simpl; [exact Hs|].
  destruct (LogicModule_get reg name); simpl; [|exact Hs].
  now apply I_logic_modules.
Qed.

Lemma inv__get_swagger_spec (name : string) :
  triple I (_get_swagger_spec reg W name) post.
Proof.
  use_invariant HI.
  intros s Hs. rewrite _get_swagger_spec_eq.
  pose proof (inv__get_logic_module name s Hs) as H1.
  destruct (_get_logic_module reg name s) as [[lm|e] s1]; simpl in *; [|exact H1].
  destruct (_specs s1 !! _) eqn:E; simpl; [exact H1|].
  destruct (fetch_schema W (tick s1) _); simpl; try now apply I_fetch_failed.
  now apply I_fetch.
Qed.

Lemma inv__data_request (spec : Spec) (kw : Kwargs) :
  triple I (_data_request W spec kw) post.
Proof.
  use_invariant HI.
  intros s Hs. rewrite _data_request_eq.
  destruct (prepare_data (request s) spec kw) as [[method url]|e]; simpl;
    [|now apply (@exits_raise unit)].
  destruct (is_valid_for_cache (request s)) eqn:Ev.
  - destruct (_data s !! url) eqn:Ed; simpl; [now apply I_log|].
    destruct (str_in method requests_methods); simpl; [|exact (I_weaken _ Hs)].
    destruct (get_request_data (request s)) eqn:Eg; simpl; [|exact (I_weaken _ Hs)].
    destruct (http W (tick s) _); simpl.
    + apply I_call_failed; auto. now rewrite Ev.
    + now apply I_call_cached.
  - destruct (str_in method requests_methods); simpl; [|exact (I_weaken _ Hs)].
    destruct (get_request_data (request s)) eqn:Eg; simpl; [|exact (I_weaken _ Hs)].
    destruct (http W (tick s) _); simpl.
    + apply I_call_failed; auto. now rewrite Ev.
    + now apply I_call.
Qed.

Lemma inv_modify (f : Gw -> Gw) :
  (forall s, I s -> I (f s)) -> triple I (modify f) post.
Proof.
  use_invariant HI.
  intros H. apply triple_modify. exact H. Qed.

Lemma inv_nest_join_record data_item relationship related_model field spec join_record :
  K data_item (key relationship) ->
  triple I (nest_join_record W data_item relationship related_model field spec join_record)
  post.
Proof.
  use_invariant HI.
  intros HK. unfold nest_join_record. apply inv_bind; [apply inv_get|]. intros s0.
  destruct (jr_getattr join_record field); [|apply inv_raise].
  apply inv_bind; [apply inv__data_request|]. intros [[c z] h]. cbn beta iota.
  destruct c; try (apply inv_modify; intros; now apply I_log).
  apply inv_modify. intros s Hs. now apply I_append.
Qed.

Lemma inv_nest_relationship data_item origin_pk (r : Relationship * bool) :
  K data_item (key r.1) ->
  triple I (nest_relationship reg W data_item origin_pk r) post.
Proof.
  use_invariant HI.
  destruct r as [relationship is_forward]. intros HK. unfold nest_relationship.
  apply inv_bind.
  { apply inv_modify. intros s Hs. now apply I_item_set. }
  intros u. destruct (get_join_records reg origin_pk relationship is_forward) as [|first rest] eqn:E;
    [apply inv_ret|].
  destruct (prepare_lookup_kwargs reg is_forward relationship first) as [related_model field].
  apply inv_bind; [apply inv__get_swagger_spec|]. intros spec.
  apply inv_for_each. intros j Hj. now apply inv_nest_join_record.
Qed.

Lemma inv__add_nested_data data_item relationships field :
  Forall (fun r : Relationship * bool => K data_item (key r.1)) relationships ->
  triple I (_add_nested_data reg W data_item relationships field) post.
Proof.
  use_invariant HI.
  intros HK. unfold _add_nested_data.
  apply inv_bind; [apply inv_modify; intros; now apply I_clear|]. intros u.
  apply inv_bind; [apply inv_get|]. intros s0.
  destruct (item_lookup data_item field (payload s0)) as [origin_pk|]; [|apply inv_raise].
  destruct (negb (truthy origin_pk)); [apply inv_raise|].
  apply inv_for_each. intros r Hr. apply inv_nest_relationship.
  rewrite Forall_forall in HK. apply HK. now apply list_elem_of_In.
Qed.

(** The relationships that [get_datamesh_relationships] returns are those
    the registry has for some model. *)
Lemma inv_get_datamesh_relationships :
  triple I (get_datamesh_relationships reg)
  (fun r s => post r s /\
    match r with
    | Ok (rels, _) => exists m, rels = get_relationships reg m
    | Err _ => True
    end).
Proof.
  use_invariant HI.
  intros s Hs. unfold get_datamesh_relationships, bind at 1, get. cbn beta iota.
  unfold bind.
  pose proof (inv__get_logic_module (kw_service (url_kwargs s)) s Hs) as H1.
  destruct (_get_logic_module reg _ s) as [[lm|e] s1]; simpl in *; [|now split].
  destruct (PyStr.index _ _ 0); [|split; [now apply I_weaken|exact Logic.I]].
  destruct (PyStr.index _ _ 1); [|split; [now apply I_weaken|exact Logic.I]].
  destruct (LogicModuleModel_get reg _ _) as [m|];
    [|split; [now apply I_weaken|exact Logic.I]].
  split; [exact H1|]. now exists m.
Qed.

Hypothesis K_registry : forall p m r, In r (get_relationships reg m) -> K p (key r.1).

Lemma inv__join_response_data :
  triple I (_join_response_data reg W) post.
Proof.
  use_invariant HI.
  unfold _join_response_data. apply inv_bind; [apply inv_get|]. intros s0.
  eapply triple_bind; [apply inv_get_datamesh_relationships| |].
  - intros e s [H _]. exact H.
  - intros [rels field]. intros s [Hs [m ->]].
    assert (forall p, Forall (fun r : Relationship * bool => K p (key r.1))
      (get_relationships reg m)) as HK.
    { intros p. apply Forall_forall. intros r Hr. apply (K_registry p m).
      now apply list_elem_of_In. }
    revert s Hs. change (triple I (match get_path (resp_data_path (payload s0)) (payload s0) with
      | Some (VDict _) => _add_nested_data reg W (resp_data_path (payload s0)) (get_relationships reg m) field
      | Some (VList l) => for_each (fun data_item => _add_nested_data reg W data_item (get_relationships reg m) field) (item_paths (resp_data_path (payload s0)) (length l))
      | _ => ret tt end) post).
    destruct (get_path _ _) as [[]|]; try apply inv_ret.
    + apply inv_for_each. intros p Hp. now apply inv__add_nested_data.
    + now apply inv__add_nested_data.
Qed.

(** *** The whole request *)

Hypothesis I_payload : forall s v, I s -> I (set_payload v s).

Lemma inv__generate_extension_map logic_module model_name data :
  triple I (_generate_extension_map reg logic_module model_name data) post.
Proof.
  use_invariant HI.
  unfold _generate_extension_map.
  destruct (lm_relationships logic_module) as [|x rs].
  { apply inv_bind; [apply inv_modify; intros; now apply I_log|]. intros u. apply inv_ret. }
  destruct (dict_get model_name (x :: rs)); [|apply inv_raise].
  apply inv_map_m. intros [k v] _.
  destruct (split_on "." v) as [|service [|model rest]]; try apply inv_raise.
  destruct data; try apply inv_raise.
  destruct (dict_get k d); [apply inv_ret|apply inv_raise].
Qed.

Lemma inv_expand_one extend_model :
  triple I (expand_one reg W extend_model) post.
Proof.
  use_invariant HI.
  unfold expand_one. destruct (String.eqb _ _).
  - destruct (wfm_get reg _ _) as [|msg| |[msg|] d]; try apply inv_ret; try apply inv_raise;
      (apply inv_bind; [apply inv_modify; intros; now apply I_log|]; intros u; apply inv_ret).
  - apply inv_bind; [apply inv__get_swagger_spec|]. intros spec.
    apply inv_bind; [apply inv_modify; intros; now apply I_clear|]. intros u.
    apply inv_bind; [apply inv__data_request|]. intros [[c z] h]. apply inv_ret.
Qed.

Lemma inv__expand_data extend_models result :
  triple I (_expand_data reg W extend_models result) post.
Proof.
  use_invariant HI.
  revert result. induction extend_models as [|x xs IH]; intros result; simpl.
  - apply inv_ret.
  - apply inv_bind; [apply inv_expand_one|]. intros c. apply IH.
Qed.

Lemma inv_aggregate_item logic_module data :
  triple I (aggregate_item reg W logic_module data) post.
Proof.
  use_invariant HI.
  unfold aggregate_item. apply inv_bind; [apply inv_get|]. intros s0.
  destruct (kw_model (url_kwargs s0)); [|apply inv_raise].
  apply inv_bind; [apply inv__generate_extension_map|]. intros em.
  apply inv_bind; [apply inv__expand_data|]. intros r.
  apply inv_bind; [apply inv_get|]. intros s1.
  destruct (get_path data (payload s1)) as [[]|]; try apply inv_raise.
  apply inv_modify. intros st Hst. now apply I_payload.
Qed.

Lemma inv__aggregate_response_data :
  triple I (_aggregate_response_data reg W) post.
Proof.
  use_invariant HI.
  unfold _aggregate_response_data. apply inv_bind; [apply inv_get|]. intros s0.
  apply inv_bind; [apply inv__get_logic_module|]. intros lm.
  destruct (get_path _ _) as [[]|]; try apply inv_ret.
  - apply inv_for_each. intros p Hp. apply inv_aggregate_item.
  - apply inv_aggregate_item.
Qed.

Lemma inv__get_data (spec : Spec) :
  triple I (_get_data reg W spec) post.
Proof.
  use_invariant HI.
  unfold _get_data. apply inv_bind; [apply inv_get|]. intros s0.
  apply inv_bind; [apply inv__data_request|]. intros [[c z] h]. cbn beta iota.
  apply inv_bind; [apply inv_modify; intros; now apply I_payload|]. intros u.
  apply inv_bind; [apply inv_get|]. intros s1.
  apply inv_bind.
  { destruct (join_requested _ _ _); [|apply inv_ret].
    apply inv_catch_sdne, inv__join_response_data. }
  intros u1. apply inv_bind; [apply inv_get|]. intros s2.
  apply inv_bind.
  { destruct (aggregate_requested _ _); [|apply inv_ret].
    apply inv_catch_sdne, inv__aggregate_response_data. }
  intros u2. apply inv_bind; [apply inv_get|]. intros s3. apply inv_ret.
Qed.

Lemma inv_perform : triple I (perform reg W) post.
Proof.
  use_invariant HI.
  unfold perform. apply inv_bind; [apply inv_get|]. intros s0.
  apply inv_bind.
  - intros s Hs. unfold catch_sdne, bind, ret.
    pose proof (inv__get_swagger_spec (kw_service (url_kwargs s0)) s Hs) as H.
    destruct (_get_swagger_spec reg W _ s) as [[sp|e] s1]; simpl in *; [exact H|].
    destruct (is_ServiceDoesNotExist e) eqn:E; simpl; [exact H|]. now rewrite E.
  - intros [sp|resp]; [apply inv__get_data|apply inv_ret].
Qed.

End Invariant.

(** ** The response cache *)





Lemma exits_same {A} (I : Gw -> Prop) (r : result A) (s : Gw) :
  exits I I r s -> I s.
Proof. destruct r as [a|e]; simpl; [auto|]. now destruct (is_ServiceDoesNotExist e). Qed.





(** ** The loops and the top of the sequential engine, as equations *)

Lemma for_each_one {A} (body : A -> M unit) (x : A) (s : Gw) :
  for_each body [x] s = body x s.
Proof.
  simpl. unfold bind, ret. destruct (body x s) as [[[]|e] s']; reflexivity.
Qed.

Lemma for_each_app {A} (body : A -> M unit) (xs ys : list A) (s s1 : Gw) :
  for_each body xs s = (Ok tt, s1) ->
  for_each body (xs ++ ys)%list s = for_each body ys s1.
Proof.
  revert s. induction xs as [|x xs IH]; intros s; simpl.
  - unfold ret. now intros [= ->].
  - unfold bind. destruct (body x s) as [[u|e] s']; [|discriminate]. apply IH.
Qed.

(** A loop stops at the first round that raises. *)
Lemma for_each_stops {A} (body : A -> M unit) (pre post : list A) (x : A)
    (s s1 s2 : Gw) (e : exn) :
  for_each body pre s = (Ok tt, s1) ->
  body x s1 = (Err e, s2) ->
  for_each body (pre ++ x :: post)%list s = (Err e, s2).
Proof.
  intros Hpre Hx. rewrite (for_each_app _ _ _ _ _ Hpre). simpl. unfold bind.
  now rewrite Hx.
Qed.

Section Equations2.

Context (reg : Registry) (W : World).

Lemma _add_nested_data_eq data_item relationships field (s : Gw) :
  _add_nested_data reg W data_item relationships field s =
  let s1 := set_request (clear_GET (request s)) s in
  match item_lookup data_item field (payload s) with
  | None => (Err (OtherError "AttributeError" "get"), s1)
  | Some origin_pk =>
      if truthy origin_pk
      then for_each (nest_relationship reg W data_item origin_pk) relationships s1
      else (Err (lookup_error field), s1)
  end.
Proof.
  unfold _add_nested_data, clear_query_params, bind, get, modify, raise. cbn beta iota zeta.
  change (payload (set_request (clear_GET (request s)) s)) with (payload s).
  destruct (item_lookup data_item field (payload s)) as [pk|]; [|reflexivity].
  now destruct (truthy pk).
Qed.

Lemma _join_response_data_eq (s : Gw) :
  _join_response_data reg W s =
  match get_datamesh_relationships reg s with
  | (Err e, s1) => (Err e, s1)
  | (Ok (relationships, field), s1) =>
      for_each (fun data_item => _add_nested_data reg W data_item relationships field)
      (records_of (payload s)) s1
  end.
Proof.
  unfold _join_response_data, bind at 1, get. cbn beta iota. unfold bind at 1.
  destruct (get_datamesh_relationships reg s) as [[[rels field]|e] s1]; [|reflexivity].
  cbn beta iota. unfold records_of.
  destruct (get_path (resp_data_path (payload s)) (payload s)) as [[]|]; try reflexivity.
  now rewrite for_each_one.
Qed.

Lemma _get_data_eq (spec : Spec) (s : Gw) :
  _get_data reg W spec s =
  match _data_request W spec (url_kwargs s) s with
  | (Err e, s1) => (Err e, s1)
  | (Ok (content0, status, hdrs), s1) =>
      let s1' := set_payload content0 s1 in
      match (if join_requested (request s1') status content0
            then catch_sdne (_join_response_data reg W) log_error s1'
            else (Ok tt, s1')) with
      | (Err e, s2) => (Err e, s2)
      | (Ok _, s2) =>
          match (if aggregate_requested (request s2) status
                then catch_sdne (_aggregate_response_data reg W) log_error s2
                else (Ok tt, s2)) with
          | (Err e, s3) => (Err e, s3)
          | (Ok _, s3) =>
              (Ok {| content := assemble (payload s3); status_code := status;
                  headers := hdrs |}, s3)
          end
      end
  end.
Proof.
  unfold _get_data, bind at 1, get. cbn beta iota. unfold bind at 1.
  destruct (_data_request W spec (url_kwargs s) s) as [[[[c st] h]|e] s1]; [|reflexivity].
  cbn beta iota zeta. unfold bind at 1, modify. cbn beta iota.
  unfold bind at 1, get. cbn beta iota. unfold bind at 1.
  destruct (join_requested _ _ _).
  - destruct (catch_sdne _ _ _) as [[u|e] s2]; [|reflexivity].
    unfold bind at 1. cbn beta iota. unfold bind at 1.
    destruct (aggregate_requested _ _).
    + destruct (catch_sdne _ _ _) as [[u'|e] s3]; reflexivity.
    + reflexivity.
  - unfold ret at 1. cbn beta iota. unfold bind at 1. cbn beta iota. unfold bind at 1.
    destruct (aggregate_requested _ _).
    + destruct (catch_sdne _ _ _) as [[u'|e] s3]; reflexivity.
    + reflexivity.
Qed.

Lemma perform_eq (s : Gw) :
  perform reg W s =
  match _get_swagger_spec reg W (kw_service (url_kwargs s)) s with
  | (Ok spec, s1) => _get_data reg W spec s1
  | (Err e, s1) =>
      if is_ServiceDoesNotExist e
      then (Ok {| content := Text (exn_content e); status_code := exn_status reg e;
          headers := [("Content-Type", exn_content_type reg e)] |}, s1)
      else (Err e, s1)
  end.
Proof.
  unfold perform, bind at 1, get. cbn beta iota. unfold bind at 1, catch_sdne, bind, ret.
  destruct (_get_swagger_spec reg W _ s) as [[sp|e] s1]; [reflexivity|].
  now destruct (is_ServiceDoesNotExist e).
Qed.

(** An exception of the join that is not ServiceDoesNotExist ends
    [_get_data]. *)
Lemma _get_data_join_raises (spec : Spec) (s s1 s2 : Gw) content0 status hdrs (e : exn) :
  _data_request W spec (url_kwargs s) s = (Ok (content0, status, hdrs), s1) ->
  join_requested (request s1) status content0 = true ->
  _join_response_data reg W (set_payload content0 s1) = (Err e, s2) ->
  is_ServiceDoesNotExist e = false ->
  _get_data reg W spec s = (Err e, s2).
Proof.
  intros H1 Hj H2 He. rewrite _get_data_eq, H1. cbn zeta.
  change (request (set_payload content0 s1)) with (request s1). rewrite Hj.
  unfold catch_sdne. now rewrite H2, He.
Qed.

End Equations2.

(** ** The loops and the top of the concurrent engine, as equations *)

Lemma map_m_app {A B} (f : A -> M B) (xs ys : list A) (s s1 : Gw) (bs : list B) :
  map_m f xs s = (Ok bs, s1) ->
  map_m f (xs ++ ys)%list s =
  match map_m f ys s1 with
  | (Ok cs, s2) => (Ok (bs ++ cs)%list, s2)
  | (Err e, s2) => (Err e, s2)
  end.
Proof.
  revert s bs. induction xs as [|x xs IH]; intros s bs; simpl.
  - unfold ret. intros [= <- ->]. destruct (map_m f ys s1) as [[cs|e] s2]; reflexivity.
  - unfold bind, ret. destruct (f x s) as [[y|e] s']; [|discriminate].
    destruct (map_m f xs s') as [[zs|e] s''] eqn:E; [|discriminate].
    intros [= <- <-]. rewrite (IH _ _ E).
    destruct (map_m f ys s'') as [[cs|e] s2]; reflexivity.
Qed.

Lemma map_m_stops {A B} (f : A -> M B) (pre post : list A) (x : A)
    (s s1 s2 : Gw) (bs : list B) (e : exn) :
  map_m f pre s = (Ok bs, s1) ->
  f x s1 = (Err e, s2) ->
  map_m f (pre ++ x :: post)%list s = (Err e, s2).
Proof.
  intros Hpre Hx. rewrite (map_m_app _ _ _ _ _ _ Hpre). simpl. unfold bind.
  now rewrite Hx.
Qed.

Lemma map_m_one {A B} (f : A -> M B) (x : A) (s : Gw) :
  map_m f [x] s =
  match f x s with
  | (Ok y, s1) => (Ok [y], s1)
  | (Err e, s1) => (Err e, s1)
  end.
Proof. simpl. unfold bind, ret. destruct (f x s) as [[y|e] s1]; reflexivity. Qed.

Section Equations3.

Context (reg : Registry) (W : World).

Lemma _prepare_datamesh_tasks_eq data_item relationships field (s : Gw) :
  Async._prepare_datamesh_tasks reg W data_item relationships field s =
  let s1 := set_request (clear_GET (request s)) s in
  match item_lookup data_item field (payload s) with
  | None => (Err (OtherError "AttributeError" "get"), s1)
  | Some origin_pk =>
      if truthy origin_pk
      then match map_m (Async.prepare_relationship reg W data_item origin_pk)
          relationships s1 with
      | (Ok tasks, s2) => (Ok (concat tasks), s2)
      | (Err e, s2) => (Err e, s2)
      end
      else (Err (lookup_error field), s1)
  end.
Proof.
  unfold Async._prepare_datamesh_tasks, clear_query_params, bind at 1, modify.
  cbn beta iota. unfold bind at 1, get. cbn beta iota zeta.
  change (payload (set_request (clear_GET (request s)) s)) with (payload s).
  destruct (item_lookup data_item field (payload s)) as [pk|]; [|reflexivity].
  destruct (truthy pk); [|reflexivity]. cbn [negb]. unfold bind, ret.
  destruct (map_m _ _ _) as [[ts|e] s2]; reflexivity.
Qed.

Lemma async_join_response_data_eq (warmup fanout : list nat) (s : Gw) :
  Async._join_response_data reg W warmup fanout s =
  match get_datamesh_relationships reg s with
  | (Err e, s1) => (Err e, s1)
  | (Ok (relationships, field), s1) =>
      match gather warmup (warmup_tasks reg W relationships) s1 with
      | (Err e, s2) => (Err e, s2)
      | (Ok _, s2) =>
          match map_m (fun data_item =>
                Async._prepare_datamesh_tasks reg W data_item relationships field)
              (records_of (payload s)) s2 with
          | (Err e, s3) => (Err e, s3)
          | (Ok tss, s3) => gather fanout (concat tss) s3
          end
      end
  end.
Proof.
  unfold Async._join_response_data, bind at 1, get. cbn beta iota. unfold bind at 1.
  destruct (get_datamesh_relationships reg s) as [[[rels field]|e] s1]; [|reflexivity].
  cbn beta iota. unfold bind at 1. fold (warmup_tasks reg W rels).
  destruct (gather warmup (warmup_tasks reg W rels) s1) as [[u|e] s2]; [|reflexivity].
  unfold records_of.
  destruct (get_path (resp_data_path (payload s)) (payload s)) as [[]|];
    try (unfold bind, ret; reflexivity).
  - unfold bind at 1. unfold bind at 1.
    destruct (map_m _ _ s2) as [[tss|e] s3]; reflexivity.
  - unfold bind at 1. rewrite map_m_one.
    destruct (Async._prepare_datamesh_tasks reg W _ rels field s2) as [[ts|e] s3];
      [|reflexivity].
    simpl. now rewrite app_nil_r.
Qed.

Lemma async_get_data_eq (warmup fanout : list nat) (spec : Spec) (s : Gw) :
  Async._get_data reg W warmup fanout spec s =
  match await (Async._data_request W spec (url_kwargs s)) s with
  | (Err e, s1) => (Err e, s1)
  | (Ok (content0, status, hdrs), s1) =>
      let s1' := set_payload content0 s1 in
      match (if join_requested (request s1') status content0
            then catch_sdne (Async._join_response_data reg W warmup fanout) log_error s1'
            else (Ok tt, s1')) with
      | (Err e, s2) => (Err e, s2)
      | (Ok _, s2) =>
          (Ok {| content := assemble (payload s2); status_code := status;
              headers := hdrs |}, s2)
      end
  end.
Proof.
  unfold Async._get_data, bind at 1, get. cbn beta iota. unfold bind at 1.
  destruct (await _ s) as [[[[c st] h]|e] s1]; [|reflexivity].
  cbn beta iota zeta. unfold bind at 1, modify. cbn beta iota.
  unfold bind at 1, get. cbn beta iota. unfold bind at 1.
  destruct (join_requested _ _ _).
  - destruct (catch_sdne _ _ _) as [[u|e] s2]; reflexivity.
  - reflexivity.
Qed.

Lemma async_perform_eq (warmup fanout : list nat) (s : Gw) :
  Async.perform reg W warmup fanout s =
  match await (Async._get_swagger_spec reg W (kw_service (url_kwargs s))) s with
  | (Ok spec, s1) => Async._get_data reg W warmup fanout spec s1
  | (Err e, s1) =>
      if is_ServiceDoesNotExist e
      then (Err (GatewayError "Error performing asynchronous gateway request"), s1)
      else (Err e, s1)
  end.
Proof.
  unfold Async.perform, bind at 1, get. cbn beta iota.
  unfold bind at 1, catch_sdne, bind, ret.
  destruct (await _ s) as [[sp|e] s1]; [reflexivity|].
  now destruct (is_ServiceDoesNotExist e).
Qed.

Lemma async_get_data_join_raises (warmup fanout : list nat) (spec : Spec) (s s1 s2 : Gw)
  content0 status hdrs (e : exn) :
  await (Async._data_request W spec (url_kwargs s)) s = (Ok (content0, status, hdrs), s1) ->
  join_requested (request s1) status content0 = true ->
  Async._join_response_data reg W warmup fanout (set_payload content0 s1) = (Err e, s2) ->
  is_ServiceDoesNotExist e = false ->
  Async._get_data reg W warmup fanout spec s = (Err e, s2).
Proof.
  intros H1 Hj H2 He. rewrite async_get_data_eq, H1. cbn zeta.
  change (request (set_payload content0 s1)) with (request s1). rewrite Hj.
  unfold catch_sdne. now rewrite H2, He.
Qed.

End Equations3.

(** ** A record without a usable lookup field *)

Section Falsy.

Context (reg : Registry) (W : World).

Lemma _add_nested_data_falsy data_item relationships field (s : Gw) :
  lookup_falsy data_item field (payload s) ->
  _add_nested_data reg W data_item relationships field s
  = (Err (lookup_error field), set_request (clear_GET (request s)) s).
Proof.
  intros (d & Hd & Hf). rewrite _add_nested_data_eq. unfold item_lookup.
  rewrite Hd. cbn zeta. now rewrite Hf.
Qed.

Lemma _prepare_datamesh_tasks_falsy data_item relationships field (s : Gw) :
  lookup_falsy data_item field (payload s) ->
  Async._prepare_datamesh_tasks reg W data_item relationships field s
  = (Err (lookup_error field), set_request (clear_GET (request s)) s).
Proof.
  intros (d & Hd & Hf). rewrite _prepare_datamesh_tasks_eq. unfold item_lookup.
  rewrite Hd. cbn zeta. now rewrite Hf.
Qed.

End Falsy.

(** C9. In both engines: when the primary answer is joined and the loop
    over its records reaches one whose lookup field is missing or falsy,
    after the records before it went through, [_get_data] ends with the
    DataMeshError of that record, and so does [perform]. The record may be
    the object of a detail view or any item of a list view. *)
Theorem falsy_lookup_fails_request (reg : Registry) (W : World)
    (spec : Spec) (s0 s s1 s2 s3 : Gw) (content0 : value) (status : Z) (hdrs : Headers)
    (relationships : list (Relationship * bool)) (field : string)
    (pre post : list Path) (data_item : Path) :
  join_requested (request s1) status content0 = true ->
  get_datamesh_relationships reg (set_payload content0 s1) = (Ok (relationships, field), s2) ->
  records_of content0 = (pre ++ data_item :: post)%list ->
  lookup_falsy data_item field (payload s3) ->
  (_get_swagger_spec reg W (kw_service (url_kwargs s0)) s0 = (Ok spec, s) ->
   _data_request W spec (url_kwargs s) s = (Ok (content0, status, hdrs), s1) ->
   for_each (fun p => _add_nested_data reg W p relationships field) pre s2 = (Ok tt, s3) ->
   (_get_data reg W spec s).1 = Err (lookup_error field)
   /\ (perform reg W s0).1 = Err (lookup_error field))
  /\ (forall warmup fanout s2' tss,
        await (Async._get_swagger_spec reg W (kw_service (url_kwargs s0))) s0 = (Ok spec, s) ->
        await (Async._data_request W spec (url_kwargs s)) s
        = (Ok (content0, status, hdrs), s1) ->
        gather warmup (warmup_tasks reg W relationships) s2 = (Ok tt, s2') ->
        map_m (fun p => Async._prepare_datamesh_tasks reg W p relationships field) pre s2'
        = (Ok tss, s3) ->
        (Async._get_data reg W warmup fanout spec s).1 = Err (lookup_error field)
        /\ (Async.perform reg W warmup fanout s0).1 = Err (lookup_error field)).
Proof.
  intros Hj Hr Hrec Hf. split.
  - intros Hspec H1 Hpre.
    assert (_get_data reg W spec s
            = (Err (lookup_error field), set_request (clear_GET (request s3)) s3)) as E.
    { eapply _get_data_join_raises; [exact H1 | exact Hj | | reflexivity].
      rewrite _join_response_data_eq, Hr. simpl payload. rewrite Hrec.
      eapply for_each_stops; [exact Hpre|]. now apply _add_nested_data_falsy. }
    split; [now rewrite E|]. rewrite perform_eq, Hspec. now rewrite E.
  - intros warmup fanout s2' tss Hspec H1 Hw Hpre.
    assert (Async._get_data reg W warmup fanout spec s
            = (Err (lookup_error field), set_request (clear_GET (request s3)) s3)) as E.
    { eapply async_get_data_join_raises; [exact H1 | exact Hj | | reflexivity].
      rewrite async_join_response_data_eq, Hr, Hw. simpl payload. rewrite Hrec.
      erewrite map_m_stops; [reflexivity | exact Hpre |].
      now apply _prepare_datamesh_tasks_falsy. }
    split; [now rewrite E|]. rewrite async_perform_eq, Hspec. now rewrite E.
Qed.

(** The list view of the scenario with an order whose id is 0: the first
    order is joined, the second ends the request, in both engines. *)
Lemma falsy_lookup_fails_request_witness :
  (perform FalsyScenario.reg0 FalsyScenario.world0 Scenario.list_join).1
  = Err (lookup_error "id")
  /\ (Async.perform FalsyScenario.reg0 FalsyScenario.world0 [] [] Scenario.list_join).1
     = Err (lookup_error "id").
Proof.
  set (R := FalsyScenario.reg0). set (W := FalsyScenario.world0).
  set (sp := FalsyScenario.orders). set (s0 := Scenario.list_join).
  set (c := VList [Scenario.order 7; Scenario.order 0]).
  set (h := [("Content-Type", "application/json")]).
  split.
  - set (s := (_get_swagger_spec R W "orders" s0).2).
    set (s1 := (_data_request W sp (url_kwargs s) s).2).
    set (s2 := (get_datamesh_relationships R (set_payload c s1)).2).
    set (s3 := (_add_nested_data R W [Idx 0] Scenario.items "id" s2).2).
    refine (proj2 (proj1 (falsy_lookup_fails_request R W sp s0 s s1 s2 s3 c 200 h
                           Scenario.items "id" [[Idx 0]] [] [Idx 1] _ _ _ _) _ _ _)).
    + vm_compute. reflexivity.
    + vm_compute. reflexivity.
    + vm_compute. reflexivity.
    + exists [("id", VNum 0); ("name", VStr "order")]. split; vm_compute; reflexivity.
    + vm_compute. reflexivity.
    + vm_compute. reflexivity.
    + vm_compute. reflexivity.
  - set (s := (await (Async._get_swagger_spec R W "orders") s0).2).
    set (s1 := (await (Async._data_request W sp (url_kwargs s)) s).2).
    set (s2 := (get_datamesh_relationships R (set_payload c s1)).2).
    set (s2' := (gather [] (warmup_tasks R W Scenario.items) s2).2).
    set (r3 := Async._prepare_datamesh_tasks R W [Idx 0] Scenario.items "id" s2').
    refine (proj2 (proj2 (falsy_lookup_fails_request R W sp s0 s s1 s2 r3.2 c 200 h
                           Scenario.items "id" [[Idx 0]] [] [Idx 1] _ _ _ _)
                         [] [] s2'
                         [match r3.1 with Ok ts => ts | Err _ => [] end] _ _ _ _)).
    + vm_compute. reflexivity.
    + vm_compute. reflexivity.
    + vm_compute. reflexivity.
    + exists [("id", VNum 0); ("name", VStr "order")]. split; vm_compute; reflexivity.
    + vm_compute. reflexivity.
    + vm_compute. reflexivity.
    + vm_compute. reflexivity.
    + rewrite map_m_one. fold r3. vm_compute. reflexivity.
Defined.

(** ** What is forwarded upstream *)

Lemma dict_get_pop_same {A} (k : string) (d : list (string * A)) :
  NoDup (List.map fst d) -> dict_get k (dict_pop k d) = None.
Proof.
  induction d as [|[k' v] d IH]; simpl; [reflexivity|].
  intros Hnd. apply NoDup_cons in Hnd as [Hk Hnd].
  destruct (String.eqb k k') eqn:E.
  - apply String.eqb_eq in E. subst k'.
    clear IH. induction d as [|[k2 v2] d IH]; simpl; [reflexivity|].
    destruct (String.eqb k k2) eqn:E2.
    + apply String.eqb_eq in E2. subst k2. exfalso. apply Hk. simpl. left.
    + apply IH.
      * intros H. apply Hk. simpl. now right.
      * simpl in Hnd. now apply NoDup_cons in Hnd as [_ Hnd].
  - simpl. rewrite E. now apply IH.
Qed.

Lemma dict_get_pop_other {A} (k k' : string) (d : list (string * A)) :
  k <> k' -> dict_get k (dict_pop k' d) = dict_get k d.
Proof.
  intros Hne. induction d as [|[k2 v] d IH]; simpl; [reflexivity|].
  destruct (String.eqb k' k2) eqn:E.
  - apply String.eqb_eq in E. subst k2.
    destruct (String.eqb k k') eqn:E2; [|reflexivity].
    apply String.eqb_eq in E2. congruence.
  - simpl. now rewrite IH.
Qed.

Lemma dict_pop_keys_NoDup {A} (k : string) (d : list (string * A)) :
  NoDup (List.map fst d) -> NoDup (List.map fst (dict_pop k d)).
Proof.
  induction d as [|[k' v] d IH]; simpl; [auto|].
  intros Hnd. apply NoDup_cons in Hnd as [Hk Hnd].
  destruct (String.eqb k k'); [exact Hnd|].
  simpl. apply NoDup_cons. split; [|now apply IH].
  intros Hin. apply Hk. clear -Hin.
  induction d as [|[k2 v2] d IH]; simpl in *; [inversion Hin|].
  destruct (String.eqb k k2).
  - now right.
  - simpl in Hin. apply list_elem_of_In in Hin. destruct Hin as [->|Hin].
    + left.
    + right. apply IH. now apply list_elem_of_In.
Qed.

(** The body [get_request_data] builds for a request without a body of
    its own holds neither of the gateway's private parameters. *)
Lemma get_request_data_strips (rq : Request) (d : list (string * value)) :
  NoDup (List.map fst (query_params rq)) ->
  str_in (PyStr.lower (method rq)) ["post"; "put"; "patch"] = false ->
  get_request_data rq = Ok (OutDict d) ->
  dict_get "join" d = None /\ dict_get "aggregate" d = None.
Proof.
  intros Hnd Hm. unfold get_request_data.
  destruct (String.eqb (content_type rq) "application/json").
  { destruct (data rq); discriminate. }
  rewrite Hm. intros [= <-].
  assert (NoDup (List.map fst (querydict_dict (query_params rq)))) as Hnd'.
  { unfold querydict_dict. rewrite List.map_map. simpl. exact Hnd. }
  split.
  - apply dict_get_pop_same. now apply dict_pop_keys_NoDup.
  - rewrite dict_get_pop_other by discriminate. now apply dict_get_pop_same.
Qed.

(** C3 (the code at the failing input). The sequential engine on
    [GET /orders/orders/7/?join=true]: the primary call goes upstream with
    [join] among its query parameters, though [get_request_data] has
    stripped it from the body; the two sub-requests of the join carry no
    parameters. *)
Theorem primary_call_forwards_join :
  List.map (fun c => (c_url c, c_params c, c_data c))
           (http_calls (perform (Scenario.registry Scenario.items (Scenario.joins_of ["10"; "11"]))
                                Scenario.world Scenario.detail_join).2)
  = [("http://orders/orders/7/", [("join", ["true"])], OutDict []);
     ("http://products/products/10/", [], OutDict []);
     ("http://products/products/11/", [], OutDict [])].
Proof. vm_compute. reflexivity. Qed.

(** ** The join clears the query parameters *)

Lemma cleared_since_invariant (rq : Request) (calls0 : list HttpCall) :
  step_invariant (cleared_since rq calls0) (cleared_since rq calls0) (fun _ _ => True).
Proof.
  assert (forall s method url body,
             cleared_since rq calls0 s ->
             get_request_data (request s) = Ok body ->
             cleared_since rq calls0 (record_call (call_of (request s) method url body) s))
    as Hcall.
  { intros s method url body [Hg (new & Hc & Hall)] Hb. split; [exact Hg|].
    exists (new ++ [call_of (request s) method url body])%list. split.
    - simpl. rewrite Hc. now rewrite app_assoc.
    - apply Forall_app. split; [exact Hall|]. constructor; [|constructor].
      split; simpl.
      + unfold query_params. now rewrite Hg.
      + now rewrite <- Hg. }
  split; auto.
  - intros s method url body rd Hs Hb _ _.
    apply (Hcall s method url body) in Hs; [exact Hs | exact Hb].
  - intros s [Hg Hc]. split; [|exact Hc]. simpl. now rewrite Hg.
Qed.

(** An invariant that survives every exit holds in the end. *)
Lemma triple_same_snd {A} (I : Gw -> Prop) (m : M A) (s : Gw) :
  triple I m (exits I I) -> I s -> I (m s).2.
Proof. intros H Hs. eapply exits_same. exact (H s Hs). Qed.

(** [get_datamesh_relationships] issues no data request and leaves the
    request object alone. *)
Lemma get_datamesh_relationships_untouched (reg : Registry) (s : Gw) :
  untouched s (get_datamesh_relationships reg s).2.
Proof.
  unfold get_datamesh_relationships, bind at 1, get. cbn beta iota. unfold bind.
  rewrite _get_logic_module_eq.
  destruct (_logic_modules s !! _).
  - destruct (PyStr.index _ _ 0); [|now split].
    destruct (PyStr.index _ _ 1); [|now split].
    destruct (LogicModuleModel_get reg _ _); now split.
  - destruct (LogicModule_get reg _); [|now split].
    destruct (PyStr.index _ _ 0); [|now split].
    destruct (PyStr.index _ _ 1); [|now split].
    destruct (LogicModuleModel_get reg _ _); now split.
Qed.

Lemma cleared_valid_for_cache (rq : Request) :
  GET rq = [] -> is_valid_for_cache rq = String.eqb (PyStr.lower (method rq)) "get".
Proof.
  intros H. unfold is_valid_for_cache, query_params. rewrite H. apply andb_true_r.
Qed.

Section Cleared.

Context (reg : Registry) (W : World).

(** From its first statement on, [_add_nested_data] works on a request
    without query parameters. *)
Lemma _add_nested_data_clears data_item relationships field (s : Gw) :
  cleared_since (request s) (http_calls s)
  (_add_nested_data reg W data_item relationships field s).2.
Proof.
  assert (cleared_since (request s) (http_calls s)
    (set_request (clear_GET (request s)) s)) as H0.
  { split; [reflexivity|]. exists []. split; [simpl; now rewrite app_nil_r | constructor]. }
  rewrite _add_nested_data_eq. cbn zeta.
  destruct (item_lookup data_item field (payload s)) as [pk|]; [|exact H0].
  destruct (truthy pk); [|exact H0].
  apply triple_same_snd; [|exact H0].
  apply (inv_for_each _ _ _ (cleared_since_invariant (request s) (http_calls s))).
  intros r _.
  now apply (inv_nest_relationship reg W _ _ _ (cleared_since_invariant (request s) (http_calls s))).
Qed.

(** Once cleared, the parameters stay cleared whatever the join does. *)
Lemma join_loop_stays_cleared rq calls0 relationships field (records : list Path) (s : Gw) :
  cleared_since rq calls0 s ->
  cleared_since rq calls0
  (for_each (fun p => _add_nested_data reg W p relationships field) records s).2.
Proof.
  intros Hs. apply triple_same_snd; [|exact Hs].
  apply (inv_for_each _ _ _ (cleared_since_invariant rq calls0)).
  intros p _.
  apply (inv__add_nested_data reg W _ _ _ (cleared_since_invariant rq calls0)).
  apply Forall_forall. auto.
Qed.

End Cleared.

Section ClearedRequest.

Context (reg : Registry) (W : World).

Lemma catch_stays_cleared rq calls0 (m : M unit) (s : Gw) :
  cleared_since rq calls0 (m s).2 ->
  cleared_since rq calls0 (catch_sdne m log_error s).2.
Proof.
  unfold catch_sdne. destruct (m s) as [[u|e] s']; simpl; [auto|].
  destruct (is_ServiceDoesNotExist e); simpl; [|auto].
  intros [Hg Hc]. now split.
Qed.

Lemma aggregate_stays_cleared rq calls0 (s : Gw) :
  cleared_since rq calls0 s ->
  cleared_since rq calls0 (catch_sdne (_aggregate_response_data reg W) log_error s).2.
Proof.
  intros Hs. apply catch_stays_cleared. apply triple_same_snd; [|exact Hs].
  apply (inv__aggregate_response_data reg W _ _ _ (cleared_since_invariant rq calls0)).
  intros s' v [Hg Hc]. now split.
Qed.

(** When the join reaches a first record, [_get_data] ends on a request
    without query parameters, and every data request after the primary one
    went without query parameters. *)
Lemma _get_data_clears (spec : Spec) (s s1 s2 : Gw) content0 status hdrs
  relationships field (data_item : Path) (rest : list Path) :
  _data_request W spec (url_kwargs s) s = (Ok (content0, status, hdrs), s1) ->
  join_requested (request s1) status content0 = true ->
  get_datamesh_relationships reg (set_payload content0 s1) = (Ok (relationships, field), s2) ->
  records_of content0 = data_item :: rest ->
  cleared_since (request s1) (http_calls s1) (_get_data reg W spec s).2.
Proof.
  intros H1 Hj Hr Hrec.
  assert (http_calls s2 = http_calls s1 /\ request s2 = request s1) as [Hc Hq].
  { pose proof (get_datamesh_relationships_untouched reg (set_payload content0 s1))
      as (H & H' & _).
    rewrite Hr in H, H'. now split. }
  assert (cleared_since (request s1) (http_calls s1)
    (_join_response_data reg W (set_payload content0 s1)).2) as Hjoin.
  { rewrite _join_response_data_eq, Hr. simpl payload. rewrite Hrec. simpl for_each.
    unfold bind. rewrite <- Hc, <- Hq.
    pose proof (_add_nested_data_clears reg W data_item relationships field s2) as Hfirst.
    destruct (_add_nested_data reg W data_item relationships field s2) as [[u|e] sA];
      [|exact Hfirst].
    now apply join_loop_stays_cleared. }
  apply (catch_stays_cleared (request s1) (http_calls s1)) in Hjoin.
  rewrite _get_data_eq, H1. cbn zeta.
  change (request (set_payload content0 s1)) with (request s1). rewrite Hj.
  destruct (catch_sdne (_join_response_data reg W) log_error (set_payload content0 s1))
    as [[u|e] sB]; [|exact Hjoin].
  simpl in Hjoin.
  destruct (aggregate_requested (request sB) status).
  - pose proof (aggregate_stays_cleared (request s1) (http_calls s1) sB Hjoin) as Ha.
    destruct (catch_sdne (_aggregate_response_data reg W) log_error sB) as [[u'|e] sC];
      exact Ha.
  - exact Hjoin.
Qed.

End ClearedRequest.

(** ** Invariants of the concurrent engine *)

Lemma keeps_ret {A} (I : Gw -> Prop) (a : A) : keeps I (ret a).
Proof. intros s Hs. exact Hs. Qed.

Lemma keeps_raise {A} (I : Gw -> Prop) (e : exn) : keeps I (@raise A e).
Proof. intros s Hs. exact Hs. Qed.

Lemma keeps_get (I : Gw -> Prop) : keeps I get.
Proof. intros s Hs. exact Hs. Qed.

Lemma keeps_modify (I : Gw -> Prop) (f : Gw -> Gw) :
  (forall s, I s -> I (f s)) -> keeps I (modify f).
Proof. intros H s Hs. now apply H. Qed.

Lemma keeps_bind {A B} (I : Gw -> Prop) (m : M A) (k : A -> M B) :
  keeps I m -> (forall a, keeps I (k a)) -> keeps I (bind m k).
Proof.
  intros Hm Hk s Hs. unfold bind. specialize (Hm s Hs).
  destruct (m s) as [[a|e] s']; simpl in *; [now apply Hk | exact Hm].
Qed.

Lemma keeps_map_m {A B} (I : Gw -> Prop) (f : A -> M B) (xs : list A) :
  (forall x, keeps I (f x)) -> keeps I (map_m f xs).
Proof.
  intros Hf. induction xs as [|x xs IH]; simpl; [apply keeps_ret|].
  apply keeps_bind; [apply Hf|]. intros y.
  apply keeps_bind; [exact IH|]. intros ys. apply keeps_ret.
Qed.

Lemma keeps_catch_sdne (I : Gw -> Prop) (m : M unit) :
  (forall s l, I s -> I (record_log l s)) ->
  keeps I m -> keeps I (catch_sdne m log_error).
Proof.
  intros Hlog Hm s Hs. specialize (Hm s Hs). unfold catch_sdne.
  destruct (m s) as [[u|e] s']; simpl in *; [exact Hm|].
  destruct (is_ServiceDoesNotExist e); simpl; [now apply Hlog | exact Hm].
Qed.

Lemma co_keeps_await {A} (I : Gw -> Prop) (c : Co A) :
  co_keeps I c -> keeps I (await c).
Proof.
  intros Hc s Hs. unfold await. destruct (Hc s Hs) as [H1 H2].
  destruct (c s) as [[r|k] s']; simpl in *; [exact H1 | now apply H2].
Qed.

Lemma co_keeps_then {A B} (I : Gw -> Prop) (c : Co A) (f : A -> M B) :
  co_keeps I c -> (forall a, keeps I (f a)) -> co_keeps I (co_then c f).
Proof.
  intros Hc Hf s Hs. unfold co_then. destruct (Hc s Hs) as [H1 H2].
  destruct (c s) as [[[a|e]|k] s']; simpl in *.
  - specialize (Hf a s' H1). destruct (f a s') as [r s'']. simpl in *. now split.
  - now split.
  - split; [exact H1|]. now apply keeps_bind.
Qed.

Lemma co_keeps_after {A B} (I : Gw -> Prop) (m : M A) (f : A -> Co B) :
  keeps I m -> (forall a, co_keeps I (f a)) -> co_keeps I (co_after m f).
Proof.
  intros Hm Hf s Hs. unfold co_after. specialize (Hm s Hs).
  destruct (m s) as [[a|e] s']; simpl in *; [now apply Hf | now split].
Qed.

(** *** [gather] *)

Lemma start_all_keeps (I : Gw -> Prop) (tasks : list (Co unit)) (s : Gw) :
  Forall (co_keeps I) tasks -> I s ->
  I (start_all tasks s).2 /\ Forall (keeps I) (waiting (start_all tasks s).1).
Proof.
  revert s. induction tasks as [|t ts IH]; intros s Hall Hs; simpl.
  - now split.
  - apply Forall_cons in Hall as [Ht Hts]. destruct (Ht s Hs) as [H1 H2].
    destruct (t s) as [st s']. simpl in *.
    destruct (IH s' Hts H1) as [H3 H4].
    destruct (start_all ts s') as [sts s'']. simpl in *.
    split; [exact H3|]. destruct st as [r|k]; [exact H4|]. now constructor.
Qed.

Lemma resume_all_keeps (I : Gw -> Prop) (n : nat) (sched : list nat)
    (pending : list (M unit)) :
  Forall (keeps I) pending -> keeps I (resume_all n sched pending).
Proof.
  revert sched pending. induction n as [|n IH]; intros sched pending Hall s Hs.
  - simpl. now destruct pending.
  - simpl. destruct pending as [|k0 rest] eqn:Ep; [exact Hs|]. rewrite <- Ep in *.
    destruct (pending !! _) as [k|] eqn:Ek; [|exact Hs].
    assert (keeps I k) as Hk.
    { rewrite Forall_forall in Hall. apply Hall. eapply list_elem_of_lookup_2. exact Ek. }
    specialize (Hk s Hs). destruct (k s) as [[u|e] s']; simpl in *; [|exact Hk].
    apply IH; [|exact Hk]. now apply Forall_delete.
Qed.

Lemma gather_keeps (I : Gw -> Prop) (sched : list nat) (tasks : list (Co unit)) :
  Forall (co_keeps I) tasks -> keeps I (gather sched tasks).
Proof.
  intros Hall s Hs. unfold gather.
  destruct (start_all_keeps I tasks s Hall Hs) as [H1 H2].
  destruct (start_all tasks s) as [sts s']. simpl in *.
  destruct (first_failure sts); [exact H1|].
  now apply resume_all_keeps.
Qed.

Ltac use_async_invariant HI :=
  let H := fresh "H" in
  pose proof HI as H;
  destruct H as [I_logic_modules I_log I_fetch I_spec I_call I_cache I_clear
                 I_placeholder I_append].

Section AsyncInvariant.

Context (reg : Registry) (W : World).
Variables (I : Gw -> Prop) (K : Path -> string -> Prop).
Hypothesis HI : async_invariant I K.

Lemma ak__get_logic_module (name : string) : keeps I (_get_logic_module reg name).
Proof.
  use_async_invariant HI.
  intros s Hs. rewrite _get_logic_module_eq.
  destruct (_logic_modules s !! name) eqn:E; simpl; [exact Hs|].
  destruct (LogicModule_get reg name); simpl; [|exact Hs].
  now apply I_logic_modules.
Qed.

Lemma ak__get_swagger_spec (name : string) :
  co_keeps I (Async._get_swagger_spec reg W name).
Proof.
  use_async_invariant HI.
  unfold Async._get_swagger_spec. apply co_keeps_after; [apply ak__get_logic_module|].
  intros lm s Hs. destruct (_specs s !! _) eqn:E; simpl; [now split|].
  split; [now apply I_fetch|].
  destruct (fetch_schema W (tick s) _); try apply keeps_raise.
  apply keeps_bind; [|intros u; apply keeps_ret].
  apply keeps_modify. intros s' Hs'. now apply I_spec.
Qed.

Lemma ak__data_request (spec : Spec) (kw : Kwargs) :
  co_keeps I (Async._data_request W spec kw).
Proof.
  use_async_invariant HI.
  intros s Hs. unfold Async._data_request.
  destruct (prepare_data (request s) spec kw) as [[method url]|e]; simpl; [|now split].
  destruct (if is_valid_for_cache (request s) then _data s !! url else None); simpl.
  { split; [now apply I_log | exact Logic.I]. }
  destruct (str_in method requests_methods); simpl; [|now split].
  destruct (get_request_data (request s)) eqn:Eg; simpl; [|now split].
  split; [now apply I_call|].
  destruct (http W (tick s) _) as [cls msg|r]; [apply keeps_raise|].
  intros s1 Hs1. unfold bind, get, modify, ret, lift. simpl.
  destruct (Async.decode r); simpl; [|exact Hs1].
  destruct (is_valid_for_cache (request s1)) eqn:Ev; simpl; [|exact Hs1].
  now apply I_cache.
Qed.

Lemma ak_placeholder_append (placeholder : nat) (x : value) :
  keeps I (Async.placeholder_append placeholder x).
Proof.
  use_async_invariant HI.
  intros s Hs. unfold Async.placeholder_append, bind, get. simpl.
  destruct (placeholders s !! placeholder) as [[place|]|] eqn:E; simpl; try exact Hs.
  now apply (I_append s placeholder).
Qed.

Lemma ak__extend_content (spec : Spec) (placeholder : nat) (kw : Kwargs) :
  co_keeps I (Async._extend_content W spec placeholder kw).
Proof.
  use_async_invariant HI.
  unfold Async._extend_content. apply co_keeps_then; [apply ak__data_request|].
  intros [[c z] h]. destruct c; try (apply keeps_modify; intros; now apply I_log).
  apply ak_placeholder_append.
Qed.

Lemma ak_new_placeholder (data_item : Path) (k : string) :
  K data_item k -> keeps I (Async.new_placeholder data_item k).
Proof.
  use_async_invariant HI.
  intros HK s Hs. unfold Async.new_placeholder, bind, get, modify, ret. simpl.
  now apply I_placeholder.
Qed.

Lemma keeps_tasks_bind {A} (m : M A) (k : A -> M (list (Co unit))) :
  keeps I m -> (forall a, keeps_tasks I (k a)) -> keeps_tasks I (bind m k).
Proof.
  intros Hm Hk s Hs. unfold bind. specialize (Hm s Hs).
  destruct (m s) as [[a|e] s']; simpl in *; [now apply Hk | now split].
Qed.

Lemma keeps_tasks_ret (tasks : list (Co unit)) :
  Forall (co_keeps I) tasks -> keeps_tasks I (ret tasks).
Proof. intros H s Hs. now split. Qed.

Lemma keeps_tasks_raise (e : exn) : keeps_tasks I (raise e).
Proof. intros s Hs. now split. Qed.

Lemma ak_prepare_relationship (data_item : Path) (origin_pk : value)
  (r : Relationship * bool) :
  K data_item (key r.1) ->
  keeps_tasks I (Async.prepare_relationship reg W data_item origin_pk r).
Proof.
  destruct r as [relationship is_forward]. intros HK.
  unfold Async.prepare_relationship.
  apply keeps_tasks_bind; [now apply ak_new_placeholder|]. intros ph.
  destruct (get_join_records reg origin_pk relationship is_forward) as [|first rest];
    [now apply keeps_tasks_ret|].
  destruct (prepare_lookup_kwargs reg is_forward relationship first) as [rm field].
  apply keeps_tasks_bind; [apply co_keeps_await, ak__get_swagger_spec|]. intros spec.
  apply keeps_tasks_bind; [apply keeps_get|]. intros s0.
  apply keeps_tasks_ret. apply Forall_forall. intros t Ht.
  apply list_elem_of_In, in_map_iff in Ht as (j & <- & _). apply ak__extend_content.
Qed.

Lemma keeps_tasks_map_m {A} (f : A -> M (list (Co unit))) (xs : list A) :
  (forall x, In x xs -> keeps_tasks I (f x)) ->
  keeps_tasks I (let* tss := map_m f xs in ret (concat tss)).
Proof.
  intros Hf s Hs. unfold bind, ret.
  assert (I (map_m f xs s).2
    /\ match (map_m f xs s).1 with
    | Ok tss => Forall (Forall (co_keeps I)) tss
    | Err _ => True
    end) as H.
  { revert s Hs. induction xs as [|x xs IH]; intros s Hs; simpl.
    - now split.
    - unfold bind, ret. destruct (Hf x (or_introl eq_refl) s Hs) as [H1 H2].
      destruct (f x s) as [[ts|e] s1]; simpl in *; [|now split].
      destruct (IH (fun y Hy => Hf y (or_intror Hy)) s1 H1) as [H3 H4].
      destruct (map_m f xs s1) as [[tss|e] s2]; simpl in *; [|now split].
      split; [exact H3|]. now constructor. }
  destruct (map_m f xs s) as [[tss|e] s1]; simpl in *; [|exact H].
  destruct H as [H1 H2]. split; [exact H1|].
  induction H2 as [|ts tss Hts _ IH]; simpl; [constructor|].
  apply Forall_app. now split.
Qed.

Lemma ak__prepare_datamesh_tasks (data_item : Path)
  (relationships : list (Relationship * bool)) (field : string) :
  Forall (fun r : Relationship * bool => K data_item (key r.1)) relationships ->
  keeps_tasks I (Async._prepare_datamesh_tasks reg W data_item relationships field).
Proof.
  use_async_invariant HI.
  intros HK. unfold Async._prepare_datamesh_tasks, clear_query_params.
  apply keeps_tasks_bind; [apply keeps_modify; intros; now apply I_clear|]. intros u.
  apply keeps_tasks_bind; [apply keeps_get|]. intros s0.
  destruct (item_lookup _ _ _) as [pk|]; [|apply keeps_tasks_raise].
  destruct (negb (truthy pk)); [apply keeps_tasks_raise|].
  apply keeps_tasks_map_m.
  intros r Hr. apply ak_prepare_relationship.
  rewrite Forall_forall in HK. apply HK. now apply list_elem_of_In.
Qed.

Lemma ak_get_datamesh_relationships (s : Gw) :
  I s ->
  I (get_datamesh_relationships reg s).2
  /\ match (get_datamesh_relationships reg s).1 with
  | Ok (rels, _) => exists m, rels = get_relationships reg m
  | Err _ => True
  end.
Proof.
  intros Hs. unfold get_datamesh_relationships, bind, get. cbn beta iota.
  pose proof (ak__get_logic_module (kw_service (url_kwargs s)) s Hs) as H1.
  destruct (_get_logic_module reg _ s) as [[lm|e] s1]; simpl in *; [|now split].
  destruct (PyStr.index _ _ 0); [|now split].
  destruct (PyStr.index _ _ 1); [|now split].
  destruct (LogicModuleModel_get reg _ _) as [m|]; [|now split].
  split; [exact H1|]. now exists m.
Qed.

Lemma ak_warmup_tasks (relationships : list (Relationship * bool)) :
  Forall (co_keeps I) (warmup_tasks reg W relationships).
Proof.
  apply Forall_forall. intros t Ht.
  apply list_elem_of_In, in_map_iff in Ht as (r & <- & _).
  apply co_keeps_then; [apply ak__get_swagger_spec|]. intros sp. apply keeps_ret.
Qed.

Hypothesis K_registry : forall p m r, In r (get_relationships reg m) -> K p (key r.1).

Lemma ak__join_response_data (warmup fanout : list nat) :
  keeps I (Async._join_response_data reg W warmup fanout).
Proof.
  intros s Hs. rewrite async_join_response_data_eq.
  destruct (ak_get_datamesh_relationships s Hs) as [H1 H2].
  destruct (get_datamesh_relationships reg s) as [[[rels field]|e] s1]; simpl in *;
    [|exact H1].
  destruct H2 as [m ->].
  pose proof (gather_keeps I warmup _ (ak_warmup_tasks (get_relationships reg m)) s1 H1)
    as H3.
  destruct (gather warmup _ s1) as [[u|e] s2]; simpl in *; [|exact H3].
  assert (forall p, Forall (fun r : Relationship * bool => K p (key r.1)) (get_relationships reg m))
    as HK.
  { intros p. apply Forall_forall. intros r Hr. apply (K_registry p m).
    now apply list_elem_of_In. }
  pose proof (keeps_tasks_map_m
    (fun p => Async._prepare_datamesh_tasks reg W p (get_relationships reg m) field)
    (records_of (payload s))
    (fun p _ => ak__prepare_datamesh_tasks p _ field (HK p)) s2 H3) as H4.
  unfold bind, ret in H4.
  destruct (map_m _ (records_of (payload s)) s2) as [[tss|e] s3]; simpl in *;
    [|exact (proj1 H4)].
  destruct H4 as [H4 H5]. now apply gather_keeps.
Qed.

Hypothesis I_payload : forall s v, I s -> I (set_payload v s).

Lemma ak__get_data (warmup fanout : list nat) (spec : Spec) :
  keeps I (Async._get_data reg W warmup fanout spec).
Proof.
  use_async_invariant HI.
  unfold Async._get_data. apply keeps_bind; [apply keeps_get|]. intros s0.
  apply keeps_bind; [apply co_keeps_await, ak__data_request|]. intros [[c z] h].
  apply keeps_bind; [apply keeps_modify; intros; now apply I_payload|]. intros u.
  apply keeps_bind; [apply keeps_get|]. intros s1.
  apply keeps_bind; [|intros u1; apply keeps_bind; [apply keeps_get|intros; apply keeps_ret]].
  destruct (join_requested _ _ _); [|apply keeps_ret].
  apply keeps_catch_sdne; [exact I_log|]. apply ak__join_response_data.
Qed.

Lemma ak_perform (warmup fanout : list nat) :
  keeps I (Async.perform reg W warmup fanout).
Proof.
  use_async_invariant HI.
  intros s Hs. rewrite async_perform_eq.
  pose proof (co_keeps_await I _ (ak__get_swagger_spec (kw_service (url_kwargs s))) s Hs)
    as H1.
  destruct (await _ s) as [[sp|e] s1]; simpl in *.
  - now apply ak__get_data.
  - now destruct (is_ServiceDoesNotExist e).
Qed.

End AsyncInvariant.

(** ** The concurrent join clears the query parameters *)

Lemma cleared_since_async_invariant (rq : Request) (calls0 : list HttpCall) :
  async_invariant (cleared_since rq calls0) (fun _ _ => True).
Proof.
  split; auto.
  - intros s method url body [Hg (new & Hc & Hall)] Hb. split; [exact Hg|].
    exists (new ++ [Async.call_of (request s) method url body])%list. split.
    + simpl. rewrite Hc. now rewrite app_assoc.
    + apply Forall_app. split; [exact Hall|]. constructor; [|constructor].
      split; simpl; [reflexivity|]. now rewrite <- Hg.
  - intros s [Hg Hc]. split; [|exact Hc]. simpl. now rewrite Hg.
Qed.

Section AsyncCleared.

Context (reg : Registry) (W : World).

(** The spec warm-up issues no data request and leaves the request object
    alone. *)
Lemma warmup_untouched (sched : list nat) relationships (s : Gw) :
  untouched s (gather sched (warmup_tasks reg W relationships) s).2.
Proof.
  apply (gather_keeps (untouched s)); [|now repeat split].
  apply Forall_forall. intros t Ht.
  apply list_elem_of_In, in_map_iff in Ht as (r & <- & _).
  apply co_keeps_then; [|intros sp; apply keeps_ret].
  unfold Async._get_swagger_spec. apply co_keeps_after.
  - intros s1 Hs1. rewrite _get_logic_module_eq.
    destruct (_logic_modules s1 !! _); [exact Hs1|].
    destruct (LogicModule_get reg _); exact Hs1.
  - intros lm s1 Hs1. destruct (_specs s1 !! _); simpl; [now split|].
    split; [exact Hs1|].
    destruct (fetch_schema W (tick s1) _); try apply keeps_raise.
    apply keeps_bind; [|intros u; apply keeps_ret].
    apply keeps_modify. intros s2 Hs2. exact Hs2.
Qed.

(** From its first statement on, [_prepare_datamesh_tasks] works on a
    request without query parameters, and so will the tasks it returns. *)
Lemma _prepare_datamesh_tasks_clears data_item relationships field (s : Gw) :
  let r := Async._prepare_datamesh_tasks reg W data_item relationships field s in
  cleared_since (request s) (http_calls s) r.2
  /\ match r.1 with
  | Ok tasks => Forall (co_keeps (cleared_since (request s) (http_calls s))) tasks
  | Err _ => True
  end.
Proof.
  set (I := cleared_since (request s) (http_calls s)).
  assert (I (set_request (clear_GET (request s)) s)) as H0.
  { split; [reflexivity|]. exists []. split; [simpl; now rewrite app_nil_r | constructor]. }
  cbn zeta. rewrite _prepare_datamesh_tasks_eq. cbn zeta.
  destruct (item_lookup data_item field (payload s)) as [pk|]; [|now split].
  destruct (truthy pk); [|now split].
  pose proof (keeps_tasks_map_m I (Async.prepare_relationship reg W data_item pk)
    relationships
    (fun r _ => ak_prepare_relationship reg W I (fun _ _ => True)
    (cleared_since_async_invariant _ _) data_item pk r Logic.I)
    _ H0) as H.
  unfold bind, ret in H.
  destruct (map_m _ relationships _) as [[tss|e] s1]; exact H.
Qed.

(** When the concurrent join reaches a first record, [_get_data] ends on
    a request without query parameters, and every data request after the
    primary one went without query parameters. *)
Lemma async_get_data_clears (warmup fanout : list nat) (spec : Spec) (s s1 s2 s2' : Gw)
  content0 status hdrs relationships field (data_item : Path) (rest : list Path) :
  await (Async._data_request W spec (url_kwargs s)) s = (Ok (content0, status, hdrs), s1) ->
  join_requested (request s1) status content0 = true ->
  get_datamesh_relationships reg (set_payload content0 s1) = (Ok (relationships, field), s2) ->
  gather warmup (warmup_tasks reg W relationships) s2 = (Ok tt, s2') ->
  records_of content0 = data_item :: rest ->
  cleared_since (request s1) (http_calls s1)
  (Async._get_data reg W warmup fanout spec s).2.
Proof.
  intros H1 Hj Hr Hw Hrec.
  set (I := cleared_since (request s1) (http_calls s1)).
  assert (http_calls s2' = http_calls s1 /\ request s2' = request s1) as [Hc Hq].
  { pose proof (get_datamesh_relationships_untouched reg (set_payload content0 s1)) as Ha.
    rewrite Hr in Ha. destruct Ha as (Ha1 & Ha2 & _). simpl in Ha1, Ha2.
    pose proof (warmup_untouched warmup relationships s2) as Hb.
    rewrite Hw in Hb. destruct Hb as (Hb1 & Hb2 & _). simpl in Hb1, Hb2.
    split; congruence. }
  assert (I (Async._join_response_data reg W warmup fanout (set_payload content0 s1)).2)
    as Hjoin.
  { rewrite async_join_response_data_eq, Hr, Hw. simpl payload. rewrite Hrec.
    simpl map_m. unfold bind at 1.
    pose proof (_prepare_datamesh_tasks_clears data_item relationships field s2') as Hfirst.
    cbn zeta in Hfirst. rewrite Hc, Hq in Hfirst. fold I in Hfirst.
    destruct (Async._prepare_datamesh_tasks reg W data_item relationships field s2')
      as [[ts|e] sA]; simpl in Hfirst; [|exact (proj1 Hfirst)].
    destruct Hfirst as [HA Hts].
    pose proof (keeps_tasks_map_m I
      (fun p => Async._prepare_datamesh_tasks reg W p relationships field) rest
      (fun p _ => ak__prepare_datamesh_tasks reg W I (fun _ _ => True)
      (cleared_since_async_invariant _ _) p relationships field
      (proj2 (Forall_forall _ _) (fun _ _ => Logic.I)))
      sA HA) as Hrest.
    unfold bind, ret in Hrest. unfold bind, ret.
    destruct (map_m _ rest sA) as [[tss|e] sB]; simpl in *; [|exact (proj1 Hrest)].
    destruct Hrest as [HB Htss].
    apply gather_keeps; [|exact HB]. apply Forall_app. now split. }
  rewrite async_get_data_eq, H1. cbn zeta.
  change (request (set_payload content0 s1)) with (request s1). rewrite Hj.
  pose proof (keeps_catch_sdne I (fun s => (Async._join_response_data reg W warmup fanout s))
    (ai_log _ _ (cleared_since_async_invariant _ _))) as Hcatch.
  unfold catch_sdne in *.
  destruct (Async._join_response_data reg W warmup fanout (set_payload content0 s1))
    as [[u|e] sB]; simpl in *; [exact Hjoin|].
  destruct (is_ServiceDoesNotExist e); simpl; [|exact Hjoin].
  destruct Hjoin as [Hg Hcalls]. now split.
Qed.

End AsyncCleared.

(** C10. The first statement of the join on a record replaces the query
    parameters of the shared request object by an empty collection. So,
    in both engines, when the join reaches a first record, [_get_data]
    ends on the inbound request with its parameters cleared, and every
    data request issued after the primary one carried none of them: empty
    [params], and the body a request without parameters has. A request
    without parameters is cache-eligible exactly when its method is GET. *)
Theorem join_clears_query_params (reg : Registry) (W : World)
    (spec : Spec) (s s1 s2 : Gw) (content0 : value) (status : Z) (hdrs : Headers)
    (relationships : list (Relationship * bool)) (field : string)
    (data_item : Path) (rest : list Path) :
  join_requested (request s1) status content0 = true ->
  get_datamesh_relationships reg (set_payload content0 s1) = (Ok (relationships, field), s2) ->
  records_of content0 = data_item :: rest ->
  (forall rq, GET rq = [] ->
              is_valid_for_cache rq = String.eqb (PyStr.lower (method rq)) "get")
  /\ (forall p rels f st,
         cleared_since (request st) (http_calls st) (_add_nested_data reg W p rels f st).2
         /\ cleared_since (request st) (http_calls st)
                          (Async._prepare_datamesh_tasks reg W p rels f st).2)
  /\ (_data_request W spec (url_kwargs s) s = (Ok (content0, status, hdrs), s1) ->
      cleared_since (request s1) (http_calls s1) (_get_data reg W spec s).2)
  /\ (forall warmup fanout s2',
         await (Async._data_request W spec (url_kwargs s)) s
         = (Ok (content0, status, hdrs), s1) ->
         gather warmup (warmup_tasks reg W relationships) s2 = (Ok tt, s2') ->
         cleared_since (request s1) (http_calls s1)
                       (Async._get_data reg W warmup fanout spec s).2).
Proof.
  intros Hj Hr Hrec. split; [exact cleared_valid_for_cache|]. split; [|split].
  - intros p rels f st. split.
    + apply _add_nested_data_clears.
    + apply (_prepare_datamesh_tasks_clears reg W p rels f st).
  - intros H1. eapply _get_data_clears; eauto.
  - intros warmup fanout s2' H1 Hw. eapply async_get_data_clears; eauto.
Qed.

(** [GET /orders/orders/7/?join=true] in the scenario: after the primary
    call both engines work on the request without parameters. *)
Lemma join_clears_query_params_witness :
  let R := Scenario.registry Scenario.items (Scenario.joins_of ["10"; "11"]) in
  let W := Scenario.world in
  let sp := Scenario.spec_of "orders" "orders" in
  let s := (_get_swagger_spec R W "orders" Scenario.detail_join).2 in
  let s1 := (_data_request W sp (url_kwargs s) s).2 in
  let a1 := (await (Async._data_request W sp (url_kwargs s)) s).2 in
  cleared_since (request s1) (http_calls s1) (_get_data R W sp s).2
  /\ cleared_since (request a1) (http_calls a1) (Async._get_data R W [] [1%nat] sp s).2.
Proof.
  intros R W sp s s1 a1.
  set (c := Scenario.order 7). set (h := [("Content-Type", "application/json")]).
  split.
  - set (s2 := (get_datamesh_relationships R (set_payload c s1)).2).
    refine (proj1 (proj2 (proj2 (join_clears_query_params R W sp s s1 s2 c 200 h
                                   Scenario.items "id" [] [] _ _ _))) _);
      vm_compute; reflexivity.
  - set (s2 := (get_datamesh_relationships R (set_payload c a1)).2).
    set (s2' := (gather [] (warmup_tasks R W Scenario.items) s2).2).
    refine (proj2 (proj2 (proj2 (join_clears_query_params R W sp s a1 s2 c 200 h
                                   Scenario.items "id" [] [] _ _ _))) [] [1%nat] s2' _ _);
      vm_compute; reflexivity.
Defined.

(** ** The spec cache *)

Lemma fetch_new (s : Gw) (u : string) :
  fetched_once s -> fetches_settled s -> _specs s !! u = None ->
  NoDup (schema_fetches s ++ [u])%list.
Proof.
  intros Hn Hs Hu. apply NoDup_app. split; [exact Hn|]. split; [|apply NoDup_singleton].
  intros x Hx Hx'. apply list_elem_of_singleton in Hx' as ->.
  destruct (Hs u Hx) as [sp Hsp]. congruence.
Qed.

(** The sequential engine keeps the spec cache in order. *)
Lemma specs_in_order_invariant :
  step_invariant (fun s => fetched_once s /\ fetches_settled s) fetched_once
                 (fun _ _ => True).
Proof.
  split; unfold fetched_once, fetches_settled; simpl; try tauto.
  - intros s u [Hn Hs] Hu. now apply fetch_new.
  - intros s u sp [Hn Hs] Hu. split; [now apply fetch_new|].
    intros v Hv. apply elem_of_app in Hv as [Hv|Hv].
    + destruct (decide (u = v)) as [->|Hne].
      * rewrite lookup_insert_eq. eauto.
      * rewrite lookup_insert_ne by exact Hne. now apply Hs.
    + apply list_elem_of_singleton in Hv as ->. rewrite lookup_insert_eq. eauto.
Qed.

Lemma perform_fetches_once (reg : Registry) (W : World) (s : Gw) :
  fetched_once s -> fetches_settled s -> fetched_once (perform reg W s).2.
Proof.
  intros Hn Hs.
  pose proof (inv_perform reg W _ _ _ specs_in_order_invariant) as H.
  specialize (H (fun _ _ _ _ => Logic.I)).
  assert (forall (s : Gw) (v : value),
             fetched_once s /\ fetches_settled s ->
             fetched_once (set_payload v s) /\ fetches_settled (set_payload v s)) as Hp
      by (intros ? ? ?; assumption).
  specialize (H Hp s (conj Hn Hs)).
  destruct (perform reg W s) as [[a|e] s']; simpl in *; [tauto|].
  destruct (is_ServiceDoesNotExist e); tauto.
Qed.

(** *** The concurrent engine *)

Lemma store_same_refl (s : Gw) : store_same s s.
Proof. now repeat split. Qed.

Lemma store_same_trans (s1 s2 s3 : Gw) :
  store_same s1 s2 -> store_same s2 s3 -> store_same s1 s3.
Proof.
  unfold store_same. intros (H1 & H2 & H3) (H4 & H5 & H6).
  repeat split; congruence.
Qed.

Lemma specs_in_order_same (reg : Registry) (s s' : Gw) :
  store_same s s' -> specs_in_order reg s -> specs_in_order reg s'.
Proof.
  unfold store_same, specs_in_order, fetched_once, fetches_settled, modules_of_registry.
  intros (H1 & H2 & H3). rewrite H1, H2, H3. auto.
Qed.

Lemma fetched_once_same (s s' : Gw) :
  store_same s s' -> fetched_once s -> fetched_once s'.
Proof. unfold store_same, fetched_once. intros (H1 & _). now rewrite H1. Qed.

Section SpecCache.

Context (reg : Registry) (W : World).

Lemma _get_logic_module_store (name : string) (s : Gw) :
  modules_of_registry reg s ->
  schema_fetches (_get_logic_module reg name s).2 = schema_fetches s
  /\ _specs (_get_logic_module reg name s).2 = _specs s
  /\ modules_of_registry reg (_get_logic_module reg name s).2
  /\ match (_get_logic_module reg name s).1 with
  | Ok lm => LogicModule_get reg name = Some lm
  | Err _ => LogicModule_get reg name = None
  end.
Proof.
  intros Hm. rewrite _get_logic_module_eq.
  destruct (_logic_modules s !! name) eqn:E; simpl.
  { repeat split; auto. }
  destruct (LogicModule_get reg name) eqn:El; simpl; repeat split; auto.
  intros n l'. unfold modules_of_registry in Hm. simpl.
  destruct (decide (name = n)) as [<-|Hne].
  - rewrite lookup_insert_eq. intros [= <-]. exact El.
  - rewrite lookup_insert_ne by exact Hne. apply Hm.
Qed.

(** The second segment of a lookup that fetched [u]. *)
Lemma lookup_settles (u : string) (answer : SchemaResult) :
  settles u
  (match answer with
    | SchemaURLError => raise (URLError u)
    | SchemaNotJson =>
        raise (GatewayError ("Failed to parse swagger schema from " ++ u
            ++ ". Should be JSON."))
    | SchemaRaise cls msg => raise (OtherError cls msg)
    | SchemaOk swagger_spec =>
        modify (fun s' => set_specs (<[u := swagger_spec]> (_specs s')) s') ;;;
        ret swagger_spec
    end).
Proof.
  intros s. destruct answer; simpl; repeat split; auto.
  - intros v Hv. destruct (decide (u = v)) as [->|Hne].
    + rewrite lookup_insert_eq. eauto.
    + now rewrite lookup_insert_ne by exact Hne.
  - rewrite lookup_insert_eq. eauto.
Qed.

(** The first segment of a lookup: either it ends, having fetched
    nothing, or it fetches the schema_url of the service, for which
    [self._specs] has nothing, and waits. *)
Lemma lookup_starts (name : string) (s : Gw) :
  modules_of_registry reg s ->
  modules_of_registry reg (Async._get_swagger_spec reg W name s).2
  /\ _specs (Async._get_swagger_spec reg W name s).2 = _specs s
  /\ match (Async._get_swagger_spec reg W name s).1 with
  | Finished r =>
      schema_fetches (Async._get_swagger_spec reg W name s).2 = schema_fetches s
  | Suspended k =>
      exists u, schema_url_of reg name = Some u
      /\ _specs s !! u = None
      /\ schema_fetches (Async._get_swagger_spec reg W name s).2
      = (schema_fetches s ++ [u])%list
      /\ settles u k
  end.
Proof.
  intros Hm. unfold Async._get_swagger_spec, co_after.
  destruct (_get_logic_module_store name s Hm) as (H1 & H2 & H3 & H4).
  destruct (_get_logic_module reg name s) as [[lm|e] s1]; simpl in *; [|now repeat split].
  destruct (_specs s1 !! _) eqn:E; simpl; [now repeat split|].
  unfold suspend. simpl. split; [exact H3|]. split; [exact H2|].
  exists (get_swagger_url_by_logic_module reg lm).
  unfold schema_url_of. rewrite H4, <- H2, H1.
  split; [reflexivity|]. split; [exact E|]. split; [reflexivity|].
  apply lookup_settles.
Qed.

(** A lookup that runs alone keeps the spec cache in order. *)
Lemma lookup_alone (name : string) :
  triple (specs_in_order reg) (await (Async._get_swagger_spec reg W name))
  (ends_in_order reg).
Proof.
  intros s (Hn & Hs & Hm). unfold await.
  destruct (lookup_starts name s Hm) as (H1 & H2 & H3).
  destruct (Async._get_swagger_spec reg W name s) as [[r|k] s1]; simpl in *.
  - assert (specs_in_order reg s1) as Ho.
    { unfold specs_in_order, fetched_once, fetches_settled. rewrite H3, H2.
      now repeat split. }
    destruct r; simpl; [exact Ho|apply Ho].
  - destruct H3 as (u & Hu & Hnone & Hf & Hk).
    destruct (Hk s1) as (K1 & K2 & K3 & K4).
    assert (fetched_once (k s1).2) as Hn'.
    { unfold fetched_once. rewrite K1, Hf. now apply fetch_new. }
    destruct (k s1) as [[sp|e] s2]; simpl in *; [|exact Hn'].
    repeat split; [exact Hn'| |].
    + intros v Hv. rewrite K1, Hf in Hv. apply elem_of_app in Hv as [Hv|Hv].
      * apply K3. rewrite H2. now apply Hs.
      * apply list_elem_of_singleton in Hv as ->. exact K4.
    + unfold modules_of_registry. rewrite K2. exact H1.
Qed.

Lemma settles_then {A} (u : string) (k : M A) :
  settles u k -> settles u (bind k (fun _ => ret tt)).
Proof.
  intros Hk s. specialize (Hk s). unfold bind, ret.
  destruct (k s) as [[a|e] s']; simpl in *; exact Hk.
Qed.

(** The first segment of a task of the warm-up. *)
Lemma warmup_task_starts (name : string) (s : Gw) :
  modules_of_registry reg s ->
  let c := co_then (Async._get_swagger_spec reg W name) (fun _ => ret tt) in
  modules_of_registry reg (c s).2
  /\ _specs (c s).2 = _specs s
  /\ match (c s).1 with
  | Finished r => schema_fetches (c s).2 = schema_fetches s
  | Suspended k =>
      exists u, schema_url_of reg name = Some u
      /\ _specs s !! u = None
      /\ schema_fetches (c s).2 = (schema_fetches s ++ [u])%list
      /\ settles u k
  end.
Proof.
  intros Hm. cbv zeta. unfold co_then.
  destruct (lookup_starts name s Hm) as (H1 & H2 & H3).
  destruct (Async._get_swagger_spec reg W name s) as [[[sp|e]|k] s1]; simpl in *;
    try (now repeat split).
  split; [exact H1|]. split; [exact H2|].
  destruct H3 as (u & Hu & Hnone & Hf & Hk). exists u.
  split; [exact Hu|]. split; [exact Hnone|]. split; [exact Hf|].
  now apply settles_then.
Qed.

(** The first segments of the warm-up: the lookups that miss fetch, one
    after the other, before any schema is there. *)
Lemma warmup_starts (relationships : list (Relationship * bool)) (s : Gw) :
  modules_of_registry reg s ->
  exists fetched,
  schema_fetches (start_all (warmup_tasks reg W relationships) s).2
  = (schema_fetches s ++ fetched)%list
  /\ sublist fetched (warmup_urls reg relationships)
  /\ Forall (fun u => _specs s !! u = None) fetched
  /\ _specs (start_all (warmup_tasks reg W relationships) s).2 = _specs s
  /\ modules_of_registry reg (start_all (warmup_tasks reg W relationships) s).2
  /\ Forall2 settles fetched
  (waiting (start_all (warmup_tasks reg W relationships) s).1).
Proof.
  revert s. induction relationships as [|r rels IH]; intros s Hm.
  { exists []. simpl. rewrite app_nil_r. repeat split; auto; constructor. }
  pose proof (warmup_task_starts (logic_module_endpoint_name (related_model r.1)) s Hm)
    as H. cbv zeta in H. simpl.
  destruct (co_then _ _ s) as [st s1]. simpl in H. destruct H as (H1 & H2 & H3).
  destruct (IH s1 H1) as (F & I1 & I2 & I3 & I4 & I5 & I6).
  destruct (start_all (warmup_tasks reg W rels) s1) as [sts s2]. simpl in *.
  rewrite H2 in I3. unfold warmup_urls. simpl. fold (warmup_urls reg rels).
  destruct st as [res|k].
  - exists F. rewrite I1, H3, I4, H2. repeat split; auto.
    destruct (schema_url_of reg _); [now apply sublist_cons|exact I2].
  - destruct H3 as (u & Hu & Hnone & Hf & Hk).
    exists (u :: F). rewrite I1, Hf, I4, H2, <- app_assoc, Hu. simpl.
    repeat split; auto. now apply sublist_skip.
Qed.

(** The second segments of the warm-up, in whatever order: nothing is
    fetched, and when all have returned every schema that was fetched
    is in [self._specs]. *)
Lemma warmup_resumes (n : nat) (sched : list nat) (fetched : list string)
  (pending : list (M unit)) (s : Gw) :
  Forall2 settles fetched pending -> (length pending <= n)%nat ->
  schema_fetches (resume_all n sched pending s).2 = schema_fetches s
  /\ _logic_modules (resume_all n sched pending s).2 = _logic_modules s
  /\ (forall v, is_Some (_specs s !! v) ->
    is_Some (_specs (resume_all n sched pending s).2 !! v))
  /\ match (resume_all n sched pending s).1 with
  | Ok _ => Forall (fun u => is_Some (_specs (resume_all n sched pending s).2 !! u))
      fetched
  | Err _ => True
  end.
Proof.
  revert sched fetched pending s.
  induction n as [|n IH]; intros sched fetched pending s Hall Hlen.
  { destruct pending; [|simpl in Hlen; lia]. apply Forall2_nil_inv_r in Hall as ->.
    simpl. repeat split; auto. }
  simpl. destruct pending as [|k0 rest] eqn:Ep.
  { apply Forall2_nil_inv_r in Hall as ->. simpl. repeat split; auto. }
  rewrite <- Ep in *.
  set (i := (hd 0%nat sched mod length pending)%nat).
  destruct (pending !! i) as [k|] eqn:Ek.
  2: { apply lookup_ge_None in Ek. subst i.
    pose proof (Nat.mod_upper_bound (hd 0%nat sched) (length pending)) as Hb.
    rewrite Ep in Hb, Ek. cbn [length] in Hb, Ek. exfalso.
    specialize (Hb (Nat.neq_succ_0 _)).
    exact (Nat.lt_irrefl _ (Nat.lt_le_trans _ _ _ Hb Ek)). }
  destruct (Forall2_lookup_r _ _ _ _ _ Hall Ek) as (u & Eu & Hk).
  destruct (Hk s) as (K1 & K2 & K3 & K4).
  destruct (k s) as [[x|e] s1] eqn:Eks; simpl in *; [|repeat split; auto].
  assert (length (delete i pending) <= n)%nat as Hlen'.
  { rewrite length_delete by eauto. lia. }
  destruct (IH (tl sched) (delete i fetched) (delete i pending) s1
    (Forall2_delete _ _ _ _ Hall) Hlen') as (J1 & J2 & J3 & J4).
  split; [congruence|]. split; [congruence|]. split; [auto|].
  destruct (resume_all n (tl sched) (delete i pending) s1) as [[y|e] s2]; simpl in *;
    [|exact Logic.I].
  apply Forall_forall. intros v Hv.
  destruct (decide (v = u)) as [->|Hne]; [now apply J3|].
  rewrite Forall_forall in J4. apply J4.
  apply list_elem_of_lookup in Hv as [j Hj].
  destruct (decide (j = i)) as [->|Hji]; [congruence|].
  apply list_elem_of_lookup.
  destruct (decide (j < i)%nat).
  - exists j. now rewrite list_lookup_delete_lt.
  - exists (pred j). rewrite list_lookup_delete_ge by lia.
    replace (S (pred j)) with j by lia. exact Hj.
Qed.

(** The warm-up keeps the spec cache in order when the relationships
    lead to schema_urls that differ. *)
Lemma warmup_in_order (sched : list nat) (relationships : list (Relationship * bool)) :
  NoDup (warmup_urls reg relationships) ->
  triple (specs_in_order reg) (gather sched (warmup_tasks reg W relationships))
  (ends_in_order reg).
Proof.
  intros Hd s (Hn & Hs & Hm). unfold gather.
  destruct (warmup_starts relationships s Hm) as (F & I1 & I2 & I3 & I4 & I5 & I6).
  destruct (start_all (warmup_tasks reg W relationships) s) as [sts s1]. simpl in *.
  assert (fetched_once s1) as Hn1.
  { unfold fetched_once. rewrite I1. apply NoDup_app. split; [exact Hn|].
    split; [|eapply sublist_NoDup; [exact Hd|exact I2]].
    intros u Hu Hu'. rewrite Forall_forall in I3. specialize (I3 u Hu').
    destruct (Hs u Hu) as [sp Hsp]. congruence. }
  destruct (first_failure sts); [exact Hn1|].
  destruct (warmup_resumes (length (waiting sts)) sched F (waiting sts) s1 I6 (le_n _))
    as (J1 & J2 & J3 & J4).
  assert (fetched_once (resume_all (length (waiting sts)) sched (waiting sts) s1).2) as Hn2.
  { unfold fetched_once. now rewrite J1. }
  destruct (resume_all (length (waiting sts)) sched (waiting sts) s1) as [[y|e] s2];
    simpl in *; [|exact Hn2].
  repeat split; [exact Hn2| |].
  - intros v Hv. rewrite J1, I1 in Hv. apply elem_of_app in Hv as [Hv|Hv].
    + apply J3. rewrite I4. now apply Hs.
    + rewrite Forall_forall in J4. now apply J4.
  - unfold modules_of_registry. rewrite J2. exact I5.
Qed.

(** A task of the warm-up that finds no spec for the schema_url of its
    service fetches it. *)
Lemma warmup_task_misses (name u : string) (s : Gw) :
  modules_of_registry reg s -> schema_url_of reg name = Some u -> _specs s !! u = None ->
  let c := co_then (Async._get_swagger_spec reg W name) (fun _ => ret tt) in
  modules_of_registry reg (c s).2
  /\ _specs (c s).2 = _specs s
  /\ schema_fetches (c s).2 = (schema_fetches s ++ [u])%list
  /\ exists k, (c s).1 = Suspended k /\ settles u k.
Proof.
  intros Hm Hu Hnone. cbv zeta. unfold co_then, Async._get_swagger_spec, co_after.
  destruct (_get_logic_module_store name s Hm) as (H1 & H2 & H3 & H4).
  unfold schema_url_of in Hu.
  destruct (_get_logic_module reg name s) as [[lm|e] s1]; simpl in *;
    rewrite H4 in Hu; [|discriminate].
  injection Hu as Hu. rewrite Hu, H2, Hnone. unfold suspend. simpl.
  split; [exact H3|]. split; [exact H2|]. split; [now rewrite H1|].
  eexists. split; [reflexivity|]. apply settles_then, lookup_settles.
Qed.

(** The lookups of a warm-up do not coalesce: each one that is started
    before the schema is there fetches it. *)
Lemma warmup_starts_all (relationships : list (Relationship * bool)) (u : string) (s : Gw) :
  modules_of_registry reg s -> _specs s !! u = None ->
  Forall (fun r : Relationship * bool =>
    schema_url_of reg (logic_module_endpoint_name (related_model r.1)) = Some u)
  relationships ->
  schema_fetches (start_all (warmup_tasks reg W relationships) s).2
  = (schema_fetches s ++ replicate (length relationships) u)%list
  /\ first_failure (start_all (warmup_tasks reg W relationships) s).1 = None.
Proof.
  revert s. induction relationships as [|r rels IH]; intros s Hm Hnone Hall.
  { simpl. now rewrite app_nil_r. }
  apply Forall_cons in Hall as [Hr Hrels].
  pose proof (warmup_task_misses _ u s Hm Hr Hnone) as H. cbv zeta in H. simpl.
  destruct (co_then _ _ s) as [st s1]. simpl in H.
  destruct H as (H1 & H2 & H3 & k & -> & Hk).
  rewrite <- H2 in Hnone. destruct (IH s1 H1 Hnone Hrels) as [I1 I2].
  destruct (start_all (warmup_tasks reg W rels) s1) as [sts s2]. simpl in *.
  split; [|exact I2]. now rewrite I1, H3, <- app_assoc.
Qed.

(** *** Data requests leave the spec cache alone *)

Lemma async_data_request_frames (spec : Spec) (kw : Kwargs) (s : Gw) :
  store_same s (Async._data_request W spec kw s).2
  /\ match (Async._data_request W spec kw s).1 with
  | Suspended k => forall s', store_same s' (k s').2
  | Finished _ => True
  end.
Proof.
  unfold Async._data_request.
  destruct (prepare_data (request s) spec kw) as [[method url]|e]; simpl;
    [|split; [apply store_same_refl|exact Logic.I]].
  destruct (if is_valid_for_cache (request s) then _data s !! url else None); simpl;
    [split; [now repeat split|exact Logic.I]|].
  destruct (negb (str_in method requests_methods)); simpl;
    [split; [apply store_same_refl|exact Logic.I]|].
  destruct (get_request_data (request s)); simpl;
    [|split; [apply store_same_refl|exact Logic.I]].
  split; [now repeat split|]. intros s'.
  destruct (http W (tick s) _) as [cls msg|r]; simpl; [apply store_same_refl|].
  unfold bind, get, modify, ret, lift.
  destruct (Async.decode r); simpl; [|apply store_same_refl].
  destruct (is_valid_for_cache (request s')); simpl; now repeat split.
Qed.

Lemma co_then_frames {A} (c : Co A) (f : A -> M unit) :
  (forall s, store_same s (c s).2
    /\ match (c s).1 with
    | Suspended k => forall s', store_same s' (k s').2
    | Finished _ => True
    end) ->
  (forall a s, store_same s (f a s).2) ->
  co_frames (co_then c f).
Proof.
  intros Hc Hf s. unfold co_then. destruct (Hc s) as [H1 H2].
  destruct (c s) as [[[a|e]|k] s1]; simpl in *.
  - specialize (Hf a s1). destruct (f a s1) as [r s2]. simpl in *.
    split; [|exact Logic.I]. eapply store_same_trans; eauto.
  - now split.
  - split; [exact H1|]. intros s'. unfold bind. specialize (H2 s').
    destruct (k s') as [[a|e] s2]; simpl in *; [|exact H2].
    eapply store_same_trans; [exact H2|apply Hf].
Qed.

Lemma _extend_content_frames (spec : Spec) (placeholder : nat) (kw : Kwargs) :
  co_frames (Async._extend_content W spec placeholder kw).
Proof.
  unfold Async._extend_content. apply co_then_frames.
  - apply async_data_request_frames.
  - intros [[content st] h] s.
    unfold Async.placeholder_append, bind, get, update_payload, modify, ret.
    destruct content; simpl; try now repeat split.
    destruct (placeholders s !! placeholder) as [[place|]|]; simpl; now repeat split.
Qed.

Lemma co_frames_keeps (s0 : Gw) (c : Co unit) :
  co_frames c -> co_keeps (store_same s0) c.
Proof.
  intros Hc s Hs. destruct (Hc s) as [H1 H2]. split.
  - eapply store_same_trans; eauto.
  - destruct (c s).1 as [r|k]; [exact Logic.I|].
    intros s' Hs'. eapply store_same_trans; eauto.
Qed.

(** The fan-out leaves the spec cache alone. *)
Lemma fanout_frames (sched : list nat) (tasks : list (Co unit)) (s : Gw) :
  Forall co_frames tasks -> store_same s (gather sched tasks s).2.
Proof.
  intros Hall. apply (gather_keeps (store_same s)); [|apply store_same_refl].
  eapply Forall_impl; [exact Hall|]. intros c. apply co_frames_keeps.
Qed.

(** *** The planning of the fan-out *)

(** The planner ends with the spec cache in order and with tasks that
    leave it alone. *)
Local Abbreviation plans :=
  (fun (r : result (list (Co unit))) (s : Gw) =>
    match r with
    | Ok tasks => specs_in_order reg s /\ Forall co_frames tasks
    | Err _ => fetched_once s
    end).

Lemma prepare_relationship_in_order (data_item : Path) (origin_pk : value)
  (r : Relationship * bool) :
  triple (specs_in_order reg) (Async.prepare_relationship reg W data_item origin_pk r) plans.
Proof.
  destruct r as [relationship fwd]. unfold Async.prepare_relationship.
  eapply triple_bind with (Mid := ends_in_order reg).
  - intros s Hs. unfold Async.new_placeholder, bind, get, modify, ret. simpl.
    eapply specs_in_order_same; [|exact Hs]. now repeat split.
  - intros e s H. exact H.
  - intros placeholder. simpl.
    destruct (get_join_records reg origin_pk relationship fwd) as [|first rest].
    { apply triple_ret. intros s Hs. split; [exact Hs|constructor]. }
    destruct (prepare_lookup_kwargs reg fwd relationship first) as [related field].
    eapply triple_bind with (Mid := ends_in_order reg).
    + apply lookup_alone.
    + intros e s H. exact H.
    + intros spec s Hs. unfold bind, get, ret. cbn beta iota. cbn [fst snd].
      split; [exact Hs|]. apply List.Forall_map. apply Forall_forall. intros j _.
      apply _extend_content_frames.
Qed.

Lemma map_m_plans {A} (f : A -> M (list (Co unit))) (xs : list A) :
  (forall x, triple (specs_in_order reg) (f x) plans) ->
  triple (specs_in_order reg) (map_m f xs)
  (fun r s => match r with
    | Ok tss => specs_in_order reg s /\ Forall co_frames (concat tss)
    | Err _ => fetched_once s
    end).
Proof.
  intros Hf. induction xs as [|x xs IH]; simpl.
  - apply triple_ret. intros s Hs. split; [exact Hs|constructor].
  - eapply triple_bind; [apply Hf| |].
    + intros e s H. exact H.
    + intros ts s [Hs Hts]. unfold bind, ret. specialize (IH s Hs).
      destruct (map_m f xs s) as [[tss|e] s2]; cbn [fst snd] in *; [|exact IH].
      destruct IH as [Hs2 Htss]. split; [exact Hs2|].
      cbn [concat]. apply Forall_app. now split.
Qed.

Lemma _prepare_datamesh_tasks_in_order (data_item : Path)
  (relationships : list (Relationship * bool)) (field : string) :
  triple (specs_in_order reg)
  (Async._prepare_datamesh_tasks reg W data_item relationships field) plans.
Proof.
  intros s Hs. rewrite _prepare_datamesh_tasks_eq. cbv zeta.
  assert (specs_in_order reg (set_request (clear_GET (request s)) s)) as Hs1.
  { eapply specs_in_order_same; [|exact Hs]. now repeat split. }
  destruct (item_lookup data_item field (payload s)) as [pk|]; simpl; [|apply Hs1].
  destruct (truthy pk); simpl; [|apply Hs1].
  pose proof (map_m_plans (Async.prepare_relationship reg W data_item pk) relationships
    (prepare_relationship_in_order data_item pk) _ Hs1) as Hmap.
  destruct (map_m _ relationships _) as [[tss|e] s2]; simpl in *; exact Hmap.
Qed.

Lemma get_datamesh_relationships_in_order :
  triple (specs_in_order reg) (get_datamesh_relationships reg) (ends_in_order reg).
Proof.
  intros s (Hn & Hs & Hm). unfold get_datamesh_relationships, bind at 1, get.
  cbn beta iota. unfold bind.
  destruct (_get_logic_module_store (kw_service (url_kwargs s)) s Hm) as (H1 & H2 & H3 & _).
  assert (specs_in_order reg (_get_logic_module reg (kw_service (url_kwargs s)) s).2) as Ho.
  { unfold specs_in_order, fetched_once, fetches_settled. rewrite H1, H2. now repeat split. }
  destruct (_get_logic_module reg _ s) as [[lm|e] s1]; simpl in *; [|apply Ho].
  destruct (PyStr.index _ _ 0); simpl; [|apply Ho].
  destruct (PyStr.index _ _ 1); simpl; [|apply Ho].
  destruct (LogicModuleModel_get reg _ _) as [m|]; simpl; [exact Ho|apply Ho].
Qed.

Lemma get_datamesh_relationships_registry (s : Gw) :
  match (get_datamesh_relationships reg s).1 with
  | Ok (relationships, _) => exists m, relationships = get_relationships reg m
  | Err _ => True
  end.
Proof.
  unfold get_datamesh_relationships, bind at 1, get. cbn beta iota. unfold bind.
  destruct (_get_logic_module reg _ s) as [[lm|e] s1]; simpl; [|exact Logic.I].
  destruct (PyStr.index _ _ 0); simpl; [|exact Logic.I].
  destruct (PyStr.index _ _ 1); simpl; [|exact Logic.I].
  destruct (LogicModuleModel_get reg _ _) as [m|]; simpl; [|exact Logic.I]. now exists m.
Qed.

(** *** The join and the request *)

Hypothesis distinct_urls :
  forall m, NoDup (warmup_urls reg (get_relationships reg m)).

Lemma async_join_fetches_once (warmup fanout : list nat) (s : Gw) :
  specs_in_order reg s ->
  fetched_once (Async._join_response_data reg W warmup fanout s).2.
Proof.
  intros Hs. rewrite async_join_response_data_eq.
  pose proof (get_datamesh_relationships_in_order s Hs) as H1.
  pose proof (get_datamesh_relationships_registry s) as Hr.
  destruct (get_datamesh_relationships reg s) as [[[rels field]|e] s1]; simpl in *;
    [|exact H1].
  destruct Hr as [m ->].
  pose proof (warmup_in_order warmup _ (distinct_urls m) s1 H1) as H2.
  destruct (gather warmup _ s1) as [[u|e] s2]; simpl in *; [|exact H2].
  pose proof (map_m_plans
    (fun data_item =>
    Async._prepare_datamesh_tasks reg W data_item (get_relationships reg m) field)
    (records_of (payload s))
    (fun p => _prepare_datamesh_tasks_in_order p _ field) s2 H2) as H3.
  destruct (map_m _ (records_of (payload s)) s2) as [[tss|e] s3]; simpl in *; [|exact H3].
  destruct H3 as [H3 Hts].
  eapply fetched_once_same; [apply fanout_frames; exact Hts|apply H3].
Qed.

Lemma async_get_data_fetches_once (warmup fanout : list nat) (spec : Spec) (s : Gw) :
  specs_in_order reg s ->
  fetched_once (Async._get_data reg W warmup fanout spec s).2.
Proof.
  intros Hs. rewrite async_get_data_eq.
  assert (store_same s (await (Async._data_request W spec (url_kwargs s)) s).2) as H1.
  { unfold await. destruct (async_data_request_frames spec (url_kwargs s) s) as [F1 F2].
    destruct (Async._data_request W spec (url_kwargs s) s) as [[r|k] s1]; simpl in *;
      [exact F1|]. eapply store_same_trans; [exact F1|apply F2]. }
  destruct (await _ s) as [[[[content0 status] hdrs]|e] s1]; simpl in *;
    [|eapply fetched_once_same; [exact H1|apply Hs]].
  assert (specs_in_order reg (set_payload content0 s1)) as Hs1.
  { eapply specs_in_order_same; [|exact Hs].
    eapply store_same_trans; [exact H1|now repeat split]. }
  destruct (join_requested (request s1) status content0).
  - unfold catch_sdne.
    pose proof (async_join_fetches_once warmup fanout _ Hs1) as H2.
    destruct (Async._join_response_data reg W warmup fanout _) as [[u|e] s2]; simpl in *;
      [exact H2|].
    destruct (is_ServiceDoesNotExist e); simpl; exact H2.
  - simpl. apply Hs1.
Qed.

Lemma async_perform_fetches_once (warmup fanout : list nat) (s : Gw) :
  specs_in_order reg s ->
  fetched_once (Async.perform reg W warmup fanout s).2.
Proof.
  intros Hs. rewrite async_perform_eq.
  pose proof (lookup_alone (kw_service (url_kwargs s)) s Hs) as H1.
  destruct (await _ s) as [[spec|e] s1]; simpl in *.
  - now apply async_get_data_fetches_once.
  - destruct (is_ServiceDoesNotExist e); exact H1.
Qed.

End SpecCache.

Lemma init_in_order (reg : Registry) (rq : Request) (kw : Kwargs) :
  specs_in_order reg (init rq kw).
Proof.
  repeat split.
  - constructor.
  - intros u Hu. simpl in Hu. now apply elem_of_nil in Hu.
  - intros name lm. simpl. now rewrite lookup_empty.
Qed.

(** ** The spec cache: what the two engines guarantee *)

(** X1. The sequential engine fetches no schema_url twice while it
    serves a request: whatever the registry and the upstream services
    answer, and however [perform] ends, the schema fetches it has issued
    are pairwise distinct. *)
Theorem sequential_fetches_each_schema_once (reg : Registry) (W : World)
    (rq : Request) (kw : Kwargs) :
  fetched_once (perform reg W (init rq kw)).2.
Proof.
  apply perform_fetches_once.
  - constructor.
  - intros u Hu. simpl in Hu. now apply elem_of_nil in Hu.
Qed.

(** X2. The concurrent engine fetches no schema_url twice while it
    serves a request, whatever the order in which the answers arrive,
    provided the relationships of a model lead to services with
    different schema_urls. *)
Theorem concurrent_fetches_each_schema_once (reg : Registry) (W : World)
    (warmup fanout : list nat) (rq : Request) (kw : Kwargs) :
  (forall m, NoDup (warmup_urls reg (get_relationships reg m))) ->
  fetched_once (Async.perform reg W warmup fanout (init rq kw)).2.
Proof.
  intros Hd. apply async_perform_fetches_once; [exact Hd|apply init_in_order].
Qed.

Lemma concurrent_fetches_each_schema_once_witness :
  fetched_once
    (Async.perform (Scenario.registry Scenario.items (Scenario.joins_of ["10"; "11"]))
                   Scenario.world [1%nat] [1%nat] Scenario.detail_join).2.
Proof.
  apply (concurrent_fetches_each_schema_once
           (Scenario.registry Scenario.items (Scenario.joins_of ["10"; "11"]))
           Scenario.world [1%nat] [1%nat]).
  intros m. vm_compute. repeat constructor. intros H. inversion H.
Defined.

(** X3. The lookups of the warm-up of the concurrent join do not
    coalesce: when the relationships all lead to one schema_url for which
    [self._specs] has nothing yet, the warm-up fetches that schema_url
    once for every relationship. *)
Theorem warmup_fetches_once_per_relationship (reg : Registry) (W : World)
    (sched : list nat) (relationships : list (Relationship * bool)) (u : string) (s : Gw) :
  modules_of_registry reg s -> _specs s !! u = None ->
  Forall (fun r : Relationship * bool =>
            schema_url_of reg (logic_module_endpoint_name (related_model r.1)) = Some u)
         relationships ->
  schema_fetches (gather sched (warmup_tasks reg W relationships) s).2
  = (schema_fetches s ++ replicate (length relationships) u)%list.
Proof.
  intros Hm Hnone Hall. unfold gather.
  destruct (warmup_starts_all reg W relationships u s Hm Hnone Hall) as [H1 H2].
  destruct (warmup_starts reg W relationships s Hm) as (F & _ & _ & _ & _ & _ & I6).
  destruct (start_all (warmup_tasks reg W relationships) s) as [sts s1]. simpl in *.
  rewrite H2.
  destruct (warmup_resumes (length (waiting sts)) sched F (waiting sts) s1 I6 (le_n _))
    as (J1 & _). now rewrite J1.
Qed.

Lemma warmup_fetches_once_per_relationship_witness :
  schema_fetches
    (gather [] (warmup_tasks SharedServiceScenario.reg2 Scenario.world
                             SharedServiceScenario.both) Scenario.detail_join).2
  = ["http://products/docs/swagger.json"; "http://products/docs/swagger.json"].
Proof.
  apply (warmup_fetches_once_per_relationship SharedServiceScenario.reg2 Scenario.world []
           SharedServiceScenario.both "http://products/docs/swagger.json"
           Scenario.detail_join).
  - intros name lm. simpl. now rewrite lookup_empty.
  - reflexivity.
  - repeat constructor.
Defined.

(** ** Services and their logic modules *)

(** X4. [_get_logic_module] keeps what it found: once a lookup of a
    service has returned a logic module, every later lookup of that
    service returns the same module and leaves the request object as it
    is, whatever the registry holds by then; the entries of the other
    services are not touched; and a lookup that fails stores nothing. *)
Theorem logic_module_lookup_is_kept (reg : Registry) (name : string) (s : Gw) :
  (forall lm s1,
      _get_logic_module reg name s = (Ok lm, s1) ->
      (forall reg', _get_logic_module reg' name s1 = (Ok lm, s1))
      /\ (forall other, other <> name -> _logic_modules s1 !! other = _logic_modules s !! other))
  /\ (forall e s1, _get_logic_module reg name s = (Err e, s1) ->
                   s1 = s /\ e = service_not_found name).
Proof.
  rewrite _get_logic_module_eq. split.
  - intros lm s1. destruct (_logic_modules s !! name) eqn:E.
    + intros [= <- <-]. split; [|reflexivity].
      intros reg'. now rewrite _get_logic_module_eq, E.
    + destruct (LogicModule_get reg name); [|discriminate]. intros [= <- <-]. split.
      * intros reg'. rewrite _get_logic_module_eq. simpl. now rewrite lookup_insert_eq.
      * intros other Hne. simpl. now rewrite lookup_insert_ne by congruence.
  - intros e s1. destruct (_logic_modules s !! name); [discriminate|].
    destruct (LogicModule_get reg name); [discriminate|]. now intros [= <- <-].
Qed.



(** X6. The concurrent engine does not answer such a request: the
    response [async_perform] builds from the exception is returned but
    not stored in [result], so [perform] raises GatewayError. The request
    object is left as it was. *)
Theorem async_perform_unknown_service (reg : Registry) (W : World)
    (warmup fanout : list nat) (s : Gw) :
  unknown_service reg (kw_service (url_kwargs s)) s ->
  Async.perform reg W warmup fanout s
  = (Err (GatewayError "Error performing asynchronous gateway request"), s).
Proof.
  intros [H1 H2]. rewrite async_perform_eq. unfold await, Async._get_swagger_spec, co_after.
  rewrite _get_logic_module_eq, H1, H2. reflexivity.
Qed.

Lemma async_perform_unknown_service_witness :
  (Async.perform (Scenario.registry Scenario.items (Scenario.joins_of [])) Scenario.world
                 [] []
                 (init (Scenario.inbound "/ghost/things/" [])
                       {| kw_service := "ghost"; kw_model := Some "things"; kw_pk := None;
                          kw_method := None; kw_relationship_key := None |})).1
  = Err (GatewayError "Error performing asynchronous gateway request").
Proof.
  rewrite (async_perform_unknown_service
             (Scenario.registry Scenario.items (Scenario.joins_of [])) Scenario.world).
  - reflexivity.
  - split; reflexivity.
Defined.

(** ** Primary answers that are passed through *)

Lemma not_200 (status : Z) : status <> 200 -> (status =? 200) = false.
Proof. intros H. now apply Z.eqb_neq. Qed.

(** X7. A primary answer whose status is not 200 is passed through by
    both engines, whatever the query parameters ask for: no join and no
    aggregation take place, no further call is made, and the response
    has the content, the status and the headers of the primary answer. *)
Theorem non_200_is_passed_through (reg : Registry) (W : World) (spec : Spec)
    (warmup fanout : list nat) (s s1 : Gw) (content0 : value) (status : Z) (hdrs : Headers) :
  status <> 200 ->
  (_data_request W spec (url_kwargs s) s = (Ok (content0, status, hdrs), s1) ->
   _get_data reg W spec s
   = (Ok {| content := assemble content0; status_code := status; headers := hdrs |},
      set_payload content0 s1))
  /\ (await (Async._data_request W spec (url_kwargs s)) s = (Ok (content0, status, hdrs), s1) ->
      Async._get_data reg W warmup fanout spec s
      = (Ok {| content := assemble content0; status_code := status; headers := hdrs |},
         set_payload content0 s1)).
Proof.
  intros Hst. apply not_200 in Hst. split; intros H.
  - rewrite _get_data_eq, H. cbv zeta. unfold join_requested, aggregate_requested.
    rewrite Hst, !andb_false_r. cbn [andb]. rewrite andb_false_r. reflexivity.
  - rewrite async_get_data_eq, H. cbv zeta. unfold join_requested.
    rewrite Hst, !andb_false_r. cbn [andb]. reflexivity.
Qed.

Lemma non_200_is_passed_through_witness :
  (_get_data (Scenario.registry Scenario.items (Scenario.joins_of ["10"])) Scenario.world
             (Scenario.spec_of "orders" "orders")
             (init (Scenario.inbound "/orders/orders/9/" [("join", ["true"])])
                   (Scenario.kwargs (Some "9")))).1
  = Ok {| content := assemble (VDict [("detail", VStr "Not found.")]); status_code := 404;
          headers := [("Content-Type", "application/json")] |}.
Proof.
  pose proof (non_200_is_passed_through
                (Scenario.registry Scenario.items (Scenario.joins_of ["10"])) Scenario.world
                (Scenario.spec_of "orders" "orders") [] []
                (init (Scenario.inbound "/orders/orders/9/" [("join", ["true"])])
                      (Scenario.kwargs (Some "9")))
                (_data_request Scenario.world (Scenario.spec_of "orders" "orders")
                   (Scenario.kwargs (Some "9"))
                   (init (Scenario.inbound "/orders/orders/9/" [("join", ["true"])])
                         (Scenario.kwargs (Some "9")))).2
                (VDict [("detail", VStr "Not found.")]) 404
                [("Content-Type", "application/json")]) as H.
  destruct H as [H _]; [lia|]. rewrite H; [reflexivity|]. vm_compute. reflexivity.
Defined.

(** ** The headers of the upstream calls *)

Lemma get_headers_clear (rq : Request) : get_headers (clear_GET rq) = get_headers rq.
Proof. reflexivity. Qed.

Lemma carries_headers_call (h : Headers) (s : Gw) (c : HttpCall) :
  c_headers c = get_headers (request s) ->
  carries_headers h s -> carries_headers h (record_call c s).
Proof.
  intros Hc [H1 H2]. split; [exact H1|]. simpl. apply Forall_app. split; [exact H2|].
  constructor; [congruence|constructor].
Qed.

Lemma carries_headers_invariant (h : Headers) :
  step_invariant (carries_headers h) (carries_headers h) (fun _ _ => True).
Proof.
  split; auto.
  - intros s method url body Hs _ _. now apply carries_headers_call.
  - intros s method url body Hs _ _. now apply carries_headers_call.
  - intros s method url body rd Hs _ _ _.
    now apply (carries_headers_call h s (call_of (request s) method url body)).
Qed.

Lemma carries_headers_async_invariant (h : Headers) :
  async_invariant (carries_headers h) (fun _ _ => True).
Proof.
  split; auto.
  intros s method url body Hs _. now apply carries_headers_call.
Qed.

(** X8. Every data request that either engine sends upstream while it
    serves a request, the primary one and those of the join and of the
    aggregation, carries the headers [get_headers] builds from the
    inbound request: its Authorization header, and the JSON content type
    when the inbound request has it. *)
Theorem upstream_calls_carry_inbound_headers (reg : Registry) (W : World)
    (warmup fanout : list nat) (rq : Request) (kw : Kwargs) :
  dict_get "Authorization" (get_headers rq) = Some (authorization rq)
  /\ Forall (fun c => c_headers c = get_headers rq)
            (http_calls (perform reg W (init rq kw)).2)
  /\ Forall (fun c => c_headers c = get_headers rq)
            (http_calls (Async.perform reg W warmup fanout (init rq kw)).2).
Proof.
  assert (carries_headers (get_headers rq) (init rq kw)) as H0.
  { split; [reflexivity|constructor]. }
  split; [reflexivity|]. split.
  - pose proof (inv_perform reg W _ _ _ (carries_headers_invariant (get_headers rq))
                  (fun _ _ _ _ => Logic.I) (fun s v Hs => Hs) _ H0) as H.
    apply exits_same in H. exact (proj2 H).
  - pose proof (ak_perform reg W _ _ (carries_headers_async_invariant (get_headers rq))
                  (fun _ _ _ _ => Logic.I) (fun s v Hs => Hs) warmup fanout _ H0) as H.
    exact (proj2 H).
Qed.

(** ** How a data request of the sequential engine fails *)

(** X9. When [GatewayRequest._data_request] raises, the exception is
    EndpointNotFound (the spec has no such operation), AttributeError
    (requests has no such method) or GatewayError (whatever went wrong
    while the request was built, sent or received); the response cache
    is as it was, and at most the one call that failed was sent: none
    in the first two cases. *)
Theorem data_request_failure_modes (W : World) (spec : Spec) (kw : Kwargs)
    (s s1 : Gw) (e : exn) :
  _data_request W spec kw s = (Err e, s1) ->
  data_request_failure e
  /\ _data s1 = _data s
  /\ (s1 = s \/ exists c m, s1 = record_call c s /\ e = GatewayError m).
Proof.
  rewrite _data_request_eq. unfold data_request_failure.
  destruct (prepare_data (request s) spec kw) as [[method url]|e0] eqn:Ep.
  2: { unfold prepare_data in Ep. destruct (path_template kw) as [pk p].
       destruct (get_op_for_request spec (method (request s)) p); [discriminate|].
       injection Ep as <-. intros [= <- <-]. repeat split; eauto. }
  destruct (if is_valid_for_cache (request s) then _data s !! url else None);
    [discriminate|].
  destruct (str_in method requests_methods); simpl.
  2: { intros [= <- <-]. repeat split; eauto. }
  destruct (get_request_data (request s)) as [body|e1]; simpl.
  2: { intros [= <- <-]. repeat split; eauto. }
  destruct (http W (tick s) _); simpl.
  - intros [= <- <-]. repeat split; eauto 8.
  - destruct (is_valid_for_cache (request s)); discriminate.
Qed.

Lemma data_request_failure_modes_witness :
  data_request_failure
    (GatewayError (gateway_error_msg "ConnectionError" "refused")).
Proof.
  apply (data_request_failure_modes Scenario.world CacheScenario.products
           (CacheScenario.kw "13") CacheScenario.s0
           (_data_request Scenario.world CacheScenario.products (CacheScenario.kw "13")
              CacheScenario.s0).2).
  vm_compute. reflexivity.
Defined.

(** ** A join without records *)

Lemma untouched_trans (s0 s1 s2 : Gw) :
  untouched s0 s1 -> untouched s1 s2 -> untouched s0 s2.
Proof.
  unfold untouched. intros (A1 & A2 & A3 & A4) (B1 & B2 & B3 & B4).
  repeat split; congruence.
Qed.

Lemma get_datamesh_relationships_fetches (reg : Registry) (s : Gw) :
  schema_fetches (get_datamesh_relationships reg s).2 = schema_fetches s.
Proof.
  unfold get_datamesh_relationships, bind at 1, get. cbn beta iota. unfold bind.
  rewrite _get_logic_module_eq.
  destruct (_logic_modules s !! _).
  - destruct (PyStr.index _ _ 0); [|reflexivity].
    destruct (PyStr.index _ _ 1); [|reflexivity].
    now destruct (LogicModuleModel_get reg _ _).
  - destruct (LogicModule_get reg _); [|reflexivity]. simpl.
    destruct (PyStr.index _ _ 0); [|reflexivity].
    destruct (PyStr.index _ _ 1); [|reflexivity].
    now destruct (LogicModuleModel_get reg _ _).
Qed.

(** X10. When the primary payload holds no record (an empty list, or a
    ["results"] entry that is neither an object nor a list), the join of
    either engine sends no data request and leaves the payload and the
    request object as they are: the query parameters are not cleared.
    The sequential join fetches no schema either. *)
Theorem join_without_records (reg : Registry) (W : World) (warmup fanout : list nat)
    (s : Gw) :
  records_of (payload s) = [] ->
  untouched s (_join_response_data reg W s).2
  /\ schema_fetches (_join_response_data reg W s).2 = schema_fetches s
  /\ untouched s (Async._join_response_data reg W warmup fanout s).2.
Proof.
  intros Hr.
  pose proof (get_datamesh_relationships_untouched reg s) as H1.
  pose proof (get_datamesh_relationships_fetches reg s) as H2.
  rewrite _join_response_data_eq, async_join_response_data_eq, Hr.
  destruct (get_datamesh_relationships reg s) as [[[rels field]|e] s1]; simpl in *;
    [|exact (conj H1 (conj H2 H1))].
  split; [exact H1|]. split; [exact H2|].
  pose proof (warmup_untouched reg W warmup rels s1) as H3.
  destruct (gather warmup (warmup_tasks reg W rels) s1) as [[u|e] s2]; simpl in *.
  - unfold ret, gather. simpl. eapply untouched_trans; eauto.
  - eapply untouched_trans; eauto.
Qed.

Lemma join_without_records_witness :
  untouched (set_payload (VList []) Scenario.list_join)
            (_join_response_data
               (Scenario.registry Scenario.items (Scenario.joins_of ["10"]))
               Scenario.world (set_payload (VList []) Scenario.list_join)).2.
Proof.
  apply (join_without_records
           (Scenario.registry Scenario.items (Scenario.joins_of ["10"]))
           Scenario.world [] [] (set_payload (VList []) Scenario.list_join)).
  reflexivity.
Defined.

(** ** The body of an upstream call *)

Lemma dict_get_set_same {A} (k : string) (v : A) (d : list (string * A)) :
  dict_get k (dict_set k v d) = Some v.
Proof.
  induction d as [|[k' v'] d IH]; simpl.
  - now rewrite String.eqb_refl.
  - destruct (String.eqb k k') eqn:E; simpl; [now rewrite String.eqb_refl|].
    now rewrite E.
Qed.

Lemma dict_get_set_other {A} (k k0 : string) (v : A) (d : list (string * A)) :
  k <> k0 -> dict_get k (dict_set k0 v d) = dict_get k d.
Proof.
  intros Hne. induction d as [|[k' v'] d IH]; simpl.
  - apply String.eqb_neq in Hne. now rewrite Hne.
  - destruct (String.eqb k0 k') eqn:E; simpl.
    + apply String.eqb_eq in E as <-. apply String.eqb_neq in Hne. now rewrite Hne.
    + destruct (String.eqb k k'); [reflexivity|exact IH].
Qed.

(** [d.update(e)]: the entries of [e] win. *)
Lemma dict_get_update {A} (k : string) (d e : list (string * A)) :
  NoDup (List.map fst e) ->
  dict_get k (dict_update d e)
  = match dict_get k e with Some v => Some v | None => dict_get k d end.
Proof.
  unfold dict_update. revert d. induction e as [|[k0 v0] e IH]; intros d Hnd; simpl.
  { reflexivity. }
  apply NoDup_cons in Hnd as [Hnot Hnd]. rewrite (IH _ Hnd).
  destruct (String.eqb k k0) eqn:E.
  - apply String.eqb_eq in E as ->.
    assert (dict_get k0 e = None) as ->.
    { clear -Hnot. induction e as [|[k' v'] e IH]; simpl; [reflexivity|].
      destruct (String.eqb k0 k') eqn:E.
      - apply String.eqb_eq in E as ->. exfalso. apply Hnot. simpl. now left.
      - apply IH. intros H. apply Hnot. simpl. now right. }
    apply dict_get_set_same.
  - destruct (dict_get k e); [reflexivity|].
    apply dict_get_set_other. now apply String.eqb_neq.
Qed.

(** X11. For a form-encoded POST, PUT or PATCH, [get_request_data]
    layers three dicts: the query parameters without [aggregate] and
    [join], then the fields of the body, then one entry per uploaded
    file. A body field overrides a query parameter of the same name, and
    an upload overrides both; so a body field called [join] or
    [aggregate] is forwarded although the query parameter is not. *)
Theorem request_data_layers (rq : Request) (q : QueryDict) :
  String.eqb (content_type rq) "application/json" = false ->
  str_in (PyStr.lower (method rq)) ["post"; "put"; "patch"] = true ->
  data rq = Some (DataForm q) ->
  NoDup (List.map fst q) -> NoDup (List.map fst (FILES rq)) ->
  exists d,
    get_request_data rq = Ok (OutDict d)
    /\ forall k, dict_get k d
                 = layered_get k (forwarded_params rq) (querydict_dict q) (file_entries rq).
Proof.
  intros Hc Hm Hd Hq Hf. unfold get_request_data. rewrite Hc, Hm, Hd. cbn zeta.
  eexists. split; [reflexivity|]. intros k.
  change (fold_left (fun acc kv => dict_set kv.1 (file_entry kv.2) acc) (FILES rq)
            (dict_update (dict_pop "join" (dict_pop "aggregate"
                                             (querydict_dict (query_params rq))))
                         (querydict_dict q)))
    with (fold_left (fun acc (kv : string * Upload) =>
                       dict_set (fst kv) (file_entry (snd kv)) acc) (FILES rq)
            (dict_update (forwarded_params rq) (querydict_dict q))).
  assert (forall (F : list (string * Upload)) d0,
             fold_left (fun acc (kv : string * Upload) =>
                          dict_set (fst kv) (file_entry (snd kv)) acc) F d0
             = dict_update d0 (List.map (fun kv : string * Upload =>
                                           (fst kv, file_entry (snd kv))) F)) as Hfold.
  { intros F. induction F as [|[k0 u] F IH]; intros d0; [reflexivity|].
    simpl. rewrite IH. reflexivity. }
  rewrite Hfold. fold (file_entries rq). unfold layered_get.
  rewrite dict_get_update.
  2: { unfold file_entries. rewrite List.map_map. simpl. exact Hf. }
  destruct (dict_get k (file_entries rq)); [reflexivity|].
  rewrite dict_get_update; [reflexivity|].
  unfold querydict_dict. rewrite List.map_map. simpl. exact Hq.
Qed.

Lemma request_data_layers_witness :
  exists d,
    get_request_data UploadScenario.post = Ok (OutDict d)
    /\ dict_get "join" d = Some (VStr "x")
    /\ dict_get "page" d = Some (VStr "3")
    /\ dict_get "doc" d = Some (file_entry UploadScenario.upload).
Proof.
  destruct (request_data_layers UploadScenario.post [("page", ["3"]); ("join", ["x"])])
    as (d & Hd & Hk).
  - reflexivity.
  - reflexivity.
  - reflexivity.
  - vm_compute. repeat constructor; intros H; inversion H; subst;
      match goal with H' : _ ∈ [] |- _ => inversion H' end.
  - vm_compute. repeat constructor. intros H. inversion H.
  - exists d. split; [exact Hd|]. rewrite !Hk. repeat split; reflexivity.
Defined.

(** ** What becomes of an exception of the join *)

(** X12. An exception that ends the join decides the fate of the
    request. ServiceDoesNotExist is logged and the response is returned
    with the payload as the join left it; any other exception ends
    [_get_data] with that exception. The same holds of the concurrent
    engine. *)
Theorem join_exception_policy (reg : Registry) (W : World) (spec : Spec)
    (warmup fanout : list nat) (s s1 s2 : Gw) (content0 : value) (status : Z)
    (hdrs : Headers) (e : exn) :
  join_requested (request s1) status content0 = true ->
  (_data_request W spec (url_kwargs s) s = (Ok (content0, status, hdrs), s1) ->
   _join_response_data reg W (set_payload content0 s1) = (Err e, s2) ->
   (is_ServiceDoesNotExist e = false -> _get_data reg W spec s = (Err e, s2))
   /\ (is_ServiceDoesNotExist e = true ->
       aggregate_requested (request s2) status = false ->
       _get_data reg W spec s
       = (Ok {| content := assemble (payload s2); status_code := status; headers := hdrs |},
          record_log (LogError (exn_content e)) s2)))
  /\ (await (Async._data_request W spec (url_kwargs s)) s = (Ok (content0, status, hdrs), s1) ->
      Async._join_response_data reg W warmup fanout (set_payload content0 s1) = (Err e, s2) ->
      (is_ServiceDoesNotExist e = false ->
       Async._get_data reg W warmup fanout spec s = (Err e, s2))
      /\ (is_ServiceDoesNotExist e = true ->
          Async._get_data reg W warmup fanout spec s
          = (Ok {| content := assemble (payload s2); status_code := status;
                   headers := hdrs |},
             record_log (LogError (exn_content e)) s2))).
Proof.
  intros Hj. split; intros H1 H2; split; intros He.
  - now apply (_get_data_join_raises reg W spec s s1 s2 content0 status hdrs e).
  - intros Ha. rewrite _get_data_eq, H1. cbn zeta.
    change (request (set_payload content0 s1)) with (request s1). rewrite Hj.
    unfold catch_sdne. rewrite H2, He. unfold log_error, modify.
    change (request (record_log (LogError (exn_content e)) s2)) with (request s2).
    now rewrite Ha.
  - now apply (async_get_data_join_raises reg W warmup fanout spec s s1 s2 content0
                 status hdrs e).
  - rewrite async_get_data_eq, H1. cbn zeta.
    change (request (set_payload content0 s1)) with (request s1). rewrite Hj.
    unfold catch_sdne. rewrite H2, He. reflexivity.
Qed.

Lemma join_exception_policy_witness :
  (_get_data (Scenario.registry Scenario.items (Scenario.joins_of ["10"; "13"]))
             Scenario.world (Scenario.spec_of "orders" "orders") Scenario.detail_join).1
  = Err (GatewayError (gateway_error_msg "ConnectionError" "refused")).
Proof.
  pose proof (join_exception_policy
                (Scenario.registry Scenario.items (Scenario.joins_of ["10"; "13"]))
                Scenario.world (Scenario.spec_of "orders" "orders") [] []
                Scenario.detail_join
                (_data_request Scenario.world (Scenario.spec_of "orders" "orders")
                   (Scenario.kwargs (Some "7")) Scenario.detail_join).2
                (_join_response_data
                   (Scenario.registry Scenario.items (Scenario.joins_of ["10"; "13"]))
                   Scenario.world
                   (set_payload (Scenario.order 7)
                      (_data_request Scenario.world (Scenario.spec_of "orders" "orders")
                         (Scenario.kwargs (Some "7")) Scenario.detail_join).2)).2
                (Scenario.order 7) 200 [("Content-Type", "application/json")]
                (GatewayError (gateway_error_msg "ConnectionError" "refused"))) as H.
  destruct H as [H _]; [vm_compute; reflexivity|].
  destruct H as [H _]; [vm_compute; reflexivity|vm_compute; reflexivity|].
  rewrite H; reflexivity.
Defined.

(** ** The legacy aggregation *)

Lemma update_path_id (p : Path) (f : value -> value) (v : value) :
  (forall x, f x = x) -> update_path p f v = v.
Proof.
  intros Hf. revert v. induction p as [|[k|i] p IH]; intros v; simpl; [apply Hf| |].
  - destruct v; try reflexivity. f_equal.
    induction d as [|[k' x] d IHd]; simpl; [reflexivity|].
    destruct (String.eqb k k'); [now rewrite IH|now rewrite IHd].
  - destruct v; try reflexivity. f_equal.
    revert i. induction l as [|x l IHl]; intros [|i]; simpl; try reflexivity.
    + now rewrite IH.
    + f_equal. apply IHl.
Qed.

Lemma aggregation_frame_refl (s : Gw) : aggregation_frame s s.
Proof. now repeat split. Qed.

Lemma aggregate_item_frame (reg : Registry) (W : World) (lm : LogicModule) (p : Path)
    (s0 : Gw) :
  lm_relationships lm = [] ->
  triple (aggregation_frame s0) (aggregate_item reg W lm p)
         (fun _ s => aggregation_frame s0 s).
Proof.
  intros Hl s Hs. unfold aggregate_item, bind at 1, get. cbn beta iota.
  destruct (kw_model (url_kwargs s)) as [model|]; [|exact Hs].
  unfold _generate_extension_map. rewrite Hl.
  unfold bind, modify, ret, get. simpl.
  destruct (get_path p (payload s)) as [[]|]; simpl; try exact Hs.
  destruct Hs as (H1 & H2 & H3 & H4 & H5). repeat split; auto.
  rewrite <- H1. apply update_path_id. now intros [].
Qed.

(** X13. The legacy aggregation of a service whose logic module has no
    relationships changes nothing a caller can see: the payload, the
    request object with its query parameters and the upstream traffic
    are as they were, whether the payload is an object, a list or
    something else. *)
Theorem aggregation_without_relationships (reg : Registry) (W : World) (s : Gw) :
  (forall lm s1,
      _get_logic_module reg (kw_service (url_kwargs s)) s = (Ok lm, s1) ->
      lm_relationships lm = []) ->
  aggregation_frame s (_aggregate_response_data reg W s).2.
Proof.
  intros Hl. unfold _aggregate_response_data, bind at 1, get. cbn beta iota.
  unfold bind at 1. rewrite _get_logic_module_eq in *.
  assert (forall lm s1,
             match _logic_modules s !! kw_service (url_kwargs s) with
             | Some lm0 => (Ok lm0, s)
             | None =>
                 match LogicModule_get reg (kw_service (url_kwargs s)) with
                 | Some lm0 =>
                     (Ok lm0,
                      set_logic_modules
                        (<[kw_service (url_kwargs s) := lm0]> (_logic_modules s)) s)
                 | None => (Err (service_not_found (kw_service (url_kwargs s))), s)
                 end
             end = (Ok lm, s1) ->
             lm_relationships lm = [] /\ aggregation_frame s s1) as Hl'.
  { intros lm s1 H. split; [now apply (Hl lm s1)|].
    destruct (_logic_modules s !! _); [injection H as _ <-; apply aggregation_frame_refl|].
    destruct (LogicModule_get reg _); [|discriminate].
    injection H as _ <-. now repeat split. }
  clear Hl.
  change (ServiceDoesNotExist
            ("Service " ++ dquote ++ kw_service (url_kwargs s) ++ dquote ++ " not found."))
    with (service_not_found (kw_service (url_kwargs s))).
  destruct (match _logic_modules s !! kw_service (url_kwargs s) with
            | Some lm0 => _ | None => _ end) as [[lm|e] s1] eqn:E.
  2: { simpl. destruct (_logic_modules s !! _); [discriminate|].
       destruct (LogicModule_get reg _); [discriminate|]. injection E as _ <-.
       apply aggregation_frame_refl. }
  destruct (Hl' lm s1 eq_refl) as [Hrel Hs1]. cbn beta iota.
  destruct (get_path _ _) as [[]|]; try exact Hs1.
  - apply (triple_for_each (aggregation_frame s)); [|exact Hs1].
    intros p _. now apply aggregate_item_frame.
  - now apply (aggregate_item_frame reg W lm _ s Hrel).
Qed.

Lemma aggregation_without_relationships_witness :
  aggregation_frame
    (set_payload (VList [Scenario.order 7; Scenario.order 8]) Scenario.list_join)
    (_aggregate_response_data (Scenario.registry Scenario.items (Scenario.joins_of []))
       Scenario.world
       (set_payload (VList [Scenario.order 7; Scenario.order 8]) Scenario.list_join)).2.
Proof.
  apply (aggregation_without_relationships
           (Scenario.registry Scenario.items (Scenario.joins_of [])) Scenario.world).
  intros lm s1 H. vm_compute in H. injection H as <- _. reflexivity.
Defined.

(** ** The uuid field of a workflow model *)

Lemma str_endswith_spec (suffix s : string) :
  str_endswith suffix s = true <-> exists x, s = x ++ suffix.
Proof.
  split.
  - induction s as [|c s IH]; cbn [str_endswith].
    + rewrite orb_false_r. intros H. apply String.eqb_eq in H as <-. now exists "".
    + intros H. apply orb_true_iff in H as [H|H].
      * apply String.eqb_eq in H as <-. now exists "".
      * destruct (IH H) as [x ->]. exists (String c x). now rewrite str_app_cons.
  - intros [x ->]. induction x as [|c x IH].
    + rewrite str_app_nil. destruct suffix; cbn [str_endswith];
        now rewrite String.eqb_refl.
    + rewrite str_app_cons. cbn [str_endswith]. rewrite IH. apply orb_true_r.
Qed.

(** X14. [_get_bifrost_uuid_name] returns the name of the first field
    that is unique, has [uuid.uuid4] as its default and a name ending in
    ["uuid"]: the fields before it do not qualify, and the result is
    [None] exactly when no field does. *)
Theorem bifrost_uuid_name_is_first_match (fields : list ModelField) :
  match _get_bifrost_uuid_name fields with
  | Some name =>
      exists before field after,
        fields = (before ++ field :: after)%list
        /\ f_name field = name
        /\ Forall (fun f => is_uuid_field f = false) before
        /\ f_unique field = true /\ f_default_uuid4 field = true
        /\ exists x, name = x ++ "uuid"
  | None => Forall (fun f => is_uuid_field f = false) fields
  end.
Proof.
  induction fields as [|f fields IH]; simpl; [constructor|].
  destruct (is_uuid_field f) eqn:E.
  - exists [], f, fields. unfold is_uuid_field in E.
    apply andb_true_iff in E as [E E3]. apply andb_true_iff in E as [E1 E2].
    repeat split; auto. now apply str_endswith_spec.
  - destruct (_get_bifrost_uuid_name fields) as [name|].
    + destruct IH as (before & field & after & -> & H1 & H2 & H3).
      exists (f :: before), field, after. repeat split; auto; try apply H3.
    + now constructor.
Qed.

(** ** The model a request addresses *)

Lemma drop_app (p s : string) : PyStr.drop (String.length p) (p ++ s) = s.
Proof.
  induction p as [|c p IH]; [now rewrite str_app_nil|].
  rewrite str_app_cons. simpl. exact IH.
Qed.

Lemma take_app (p s : string) : PyStr.take (String.length p) (p ++ s) = p.
Proof.
  induction p as [|c p IH]; [now rewrite str_app_nil|].
  rewrite str_app_cons. simpl. now rewrite IH.
Qed.

Lemma index_at_start (sub s : string) (pos : nat) :
  PyStr.startswith sub s = true -> PyStr.index_at sub s 0 pos = Some pos.
Proof. intros H. destruct s; simpl; now rewrite H. Qed.

(** The first slash at or after [start] in [model/rest] is the one after
    [model]. *)
Lemma index_at_slash (model rest : string) (start pos : nat) :
  no_slash model = true -> (start <= pos)%nat ->
  PyStr.index_at "/" (model ++ String "/" rest) start pos
  = Some (pos + String.length model)%nat.
Proof.
  revert pos. induction model as [|c model IH]; intros pos Hn Hle.
  - rewrite str_app_nil. simpl.
    apply Nat.leb_le in Hle. rewrite Hle. simpl. f_equal. now rewrite Nat.add_0_r.
  - rewrite str_app_cons. simpl in Hn. apply andb_true_iff in Hn as [Hc Hn].
    cbn [PyStr.index_at PyStr.startswith String.length]. apply negb_true_iff in Hc.
    rewrite Ascii.eqb_sym in Hc. rewrite Hc, andb_false_r.
    rewrite IH; [|exact Hn|now apply Nat.le_le_succ_r].
    f_equal. now rewrite Nat.add_succ_r.
Qed.

(** X15. For a request path that starts with the service, then names a
    model, the relationships and the lookup field are those of the
    [LogicModuleModel] of that service whose endpoint is the model
    between slashes; when there is none, the lookup of the model raises.
    What follows the model in the path plays no part. *)
Theorem relationships_of_addressed_model (reg : Registry) (s s1 : Gw) (lm : LogicModule)
    (model rest : string) :
  _get_logic_module reg (kw_service (url_kwargs s)) s = (Ok lm, s1) ->
  path (request s) = "/" ++ endpoint_name lm ++ "/" ++ model ++ "/" ++ rest ->
  no_slash model = true ->
  get_datamesh_relationships reg s
  = match LogicModuleModel_get reg (endpoint_name lm) ("/" ++ model ++ "/") with
    | Some m => (Ok (get_relationships reg m, lookup_field_name m), s1)
    | None => (Err (OtherError "DoesNotExist" "LogicModuleModel"), s1)
    end.
Proof.
  intros Hlm Hp Hn. unfold get_datamesh_relationships, bind at 1, get. cbn beta iota.
  unfold bind at 1. rewrite Hlm. cbn beta iota zeta. rewrite Hp.
  assert ("/" ++ endpoint_name lm ++ "/" ++ model ++ "/" ++ rest
          = ("/" ++ endpoint_name lm) ++ String "/" (model ++ String "/" rest)) as ->.
  { now rewrite !str_app_cons, !str_app_nil. }
  unfold PyStr.index. rewrite index_at_start by apply startswith_app.
  rewrite Nat.add_0_r, drop_app.
  change (PyStr.index_at "/" (String "/" (model ++ String "/" rest)) 1 0)
    with (PyStr.index_at "/" (model ++ String "/" rest) 1 1).
  rewrite index_at_slash by (auto; lia).
  assert (PyStr.take (1 + String.length model + 1)
                     (String "/" (model ++ String "/" rest))
          = "/" ++ model ++ "/") as ->.
  { rewrite !str_app_cons, !str_app_nil. simpl. f_equal.
    replace (String.length model + 1)%nat with (String.length (model ++ "/")).
    - replace (model ++ String "/" rest) with ((model ++ "/") ++ rest).
      + apply take_app.
      + now rewrite str_app_assoc, str_app_cons, str_app_nil.
    - clear. induction model as [|c m IH]; [reflexivity|].
      rewrite str_app_cons. simpl. now rewrite IH. }
  destruct (LogicModuleModel_get reg _ _); reflexivity.
Qed.

Lemma relationships_of_addressed_model_witness :
  (get_datamesh_relationships (Scenario.registry Scenario.items (Scenario.joins_of []))
                              Scenario.detail_join).1
  = Ok (Scenario.items, "id").
Proof.
  rewrite (relationships_of_addressed_model
             (Scenario.registry Scenario.items (Scenario.joins_of []))
             Scenario.detail_join
             (_get_logic_module (Scenario.registry Scenario.items (Scenario.joins_of []))
                "orders" Scenario.detail_join).2
             (Scenario.lm "orders") "orders" "7/").
  - reflexivity.
  - reflexivity.
  - reflexivity.
  - reflexivity.
Defined.

(** ** The embed lists of a record *)

Lemma dict_get_alter_same {A} (f : A -> A) (k : string) (d : list (string * A)) :
  dict_get k (dict_alter f k d) = option_map f (dict_get k d).
Proof.
  induction d as [|[k' x] d IH]; simpl; [reflexivity|].
  destruct (String.eqb k k') eqn:E; simpl; rewrite E; [reflexivity|exact IH].
Qed.

Lemma dict_get_alter_other {A} (f : A -> A) (k k0 : string) (d : list (string * A)) :
  k <> k0 -> dict_get k (dict_alter f k0 d) = dict_get k d.
Proof.
  intros Hne. induction d as [|[k' x] d IH]; simpl; [reflexivity|].
  destruct (String.eqb k0 k') eqn:E; simpl.
  - apply String.eqb_eq in E as <-. apply String.eqb_neq in Hne. now rewrite Hne.
  - destruct (String.eqb k k'); [reflexivity|exact IH].
Qed.

(** What an update at [p] leaves at [p]. *)
Lemma get_path_update_path (p : Path) (f : value -> value) (v : value) :
  get_path p (update_path p f v) = option_map f (get_path p v).
Proof.
  revert v. induction p as [|[k|i] p IH]; intros v; simpl; [reflexivity| |].
  - destruct v; try reflexivity. simpl. rewrite dict_get_alter_same.
    destruct (dict_get k d); simpl; [apply IH|reflexivity].
  - destruct v; try reflexivity. simpl. rewrite list_lookup_alter_eq.
    destruct (l !! i); simpl; [apply IH|reflexivity].
Qed.

Lemma dict_alter_ext {A} (f g : A -> A) (k : string) (d : list (string * A)) :
  (forall x, f x = g x) -> dict_alter f k d = dict_alter g k d.
Proof.
  intros H. induction d as [|[k' x] d IH]; simpl; [reflexivity|].
  destruct (String.eqb k k'); [now rewrite H|now rewrite IH].
Qed.

Lemma alter_ext {A} (f g : A -> A) (i : nat) (l : list A) :
  (forall x, f x = g x) -> alter f i l = alter g i l.
Proof.
  intros H. revert i. induction l as [|x l IH]; intros [|i]; simpl; try reflexivity.
  - now rewrite H.
  - f_equal. apply IH.
Qed.

(** An update below [p] is an update at [p]. *)
Lemma update_path_app (p q : Path) (f : value -> value) (v : value) :
  update_path (p ++ q)%list f v = update_path p (update_path q f) v.
Proof.
  revert v. induction p as [|[k|i] p IH]; intros v; simpl; [reflexivity| |].
  - destruct v; try reflexivity. f_equal. now apply dict_alter_ext.
  - destruct v; try reflexivity. f_equal. now apply alter_ext.
Qed.

(** Neither a lookup of a spec nor a data request touches the payload. *)
Lemma payload_fixed_invariant (v : value) :
  step_invariant (fun s => payload s = v) (fun s => payload s = v) (fun _ _ => False).
Proof. split; simpl; auto; intros; contradiction. Qed.

Lemma _data_request_payload (W : World) (spec : Spec) (kw : Kwargs) (s : Gw) :
  payload (_data_request W spec kw s).2 = payload s.
Proof.
  pose proof (inv__data_request W _ _ _ (payload_fixed_invariant (payload s)) spec kw
                s eq_refl) as H.
  now apply exits_same in H.
Qed.

Lemma _get_swagger_spec_payload (reg : Registry) (W : World) (name : string) (s : Gw) :
  payload (_get_swagger_spec reg W name s).2 = payload s.
Proof.
  pose proof (inv__get_swagger_spec reg W _ _ _ (payload_fixed_invariant (payload s)) name
                s eq_refl) as H.
  now apply exits_same in H.
Qed.

Lemma keeps_for_each {A} (I : Gw -> Prop) (body : A -> M unit) (xs : list A) :
  (forall x, keeps I (body x)) -> keeps I (for_each body xs).
Proof.
  intros Hb. induction xs as [|x xs IH]; simpl; [apply keeps_ret|].
  apply keeps_bind; [apply Hb|]. intros u. exact IH.
Qed.

Lemma keeps_payload {A} (p : Path) (Q : list (string * value) -> Prop) (m : M A) :
  (forall s, payload (m s).2 = payload s) -> keeps (record_at p Q) m.
Proof. intros H s (d & Hd & HQ). exists d. now rewrite H. Qed.

Lemma same_traffic_refl (s : Gw) : same_traffic s s.
Proof. now repeat split. Qed.

Lemma same_traffic_trans (s t u : Gw) :
  same_traffic s t -> same_traffic t u -> same_traffic s u.
Proof. unfold same_traffic. intuition congruence. Qed.

Lemma same_traffic_set_payload (v : value) (s t : Gw) :
  same_traffic s t -> same_traffic (set_payload v s) t.
Proof. unfold same_traffic. simpl. tauto. Qed.

Lemma same_traffic_record_log (l : LogEntry) (s t : Gw) :
  same_traffic s t -> same_traffic (record_log l s) t.
Proof. unfold same_traffic. simpl. tauto. Qed.

Lemma same_traffic_sym (s t : Gw) : same_traffic s t -> same_traffic t s.
Proof. unfold same_traffic. intuition congruence. Qed.

Ltac traffic :=
  match goal with
  | H : same_traffic _ _ |- _ =>
      destruct H as (?Hr & ?Hu & ?Hl & ?Hs & ?Hd & ?Hp & ?Hc & ?Hf);
      unfold same_traffic; simpl; repeat split; congruence
  end.

(** The answer to a data request, and the traffic after it, depend on the
    payload and the log in nothing. *)
Lemma _data_request_same_traffic (W : World) (spec : Spec) (kw : Kwargs) (s t : Gw) :
  same_traffic s t ->
  (_data_request W spec kw s).1 = (_data_request W spec kw t).1
  /\ same_traffic (_data_request W spec kw s).2 (_data_request W spec kw t).2.
Proof.
  intros H. pose proof H as (Hr & Hu & Hl & Hs & Hd & Hp & Hc & Hf).
  clear Hu Hl Hs Hp.
  rewrite !_data_request_eq. unfold tick. rewrite Hr, Hd, Hc, Hf.
  destruct (prepare_data (request t) spec kw) as [[method url]|e]; [|now split].
  destruct (if is_valid_for_cache (request t) then _data t !! url else None).
  { split; [reflexivity|]. traffic. }
  destruct (str_in method requests_methods); [|now split].
  destruct (get_request_data (request t)) as [body|e]; [|now split].
  cbv zeta.
  destruct (http W _ _) as [cls msg|response].
  - split; [reflexivity|]. traffic.
  - split; [reflexivity|]. destruct (is_valid_for_cache (request t)); traffic.
Qed.

Lemma _get_swagger_spec_same_traffic (reg : Registry) (W : World) (name : string)
    (s t : Gw) :
  same_traffic s t ->
  (_get_swagger_spec reg W name s).1 = (_get_swagger_spec reg W name t).1
  /\ same_traffic (_get_swagger_spec reg W name s).2 (_get_swagger_spec reg W name t).2.
Proof.
  intros H. pose proof H as (Hr & Hu & Hl & Hs & Hd & Hp & Hc & Hf).
  unfold _get_swagger_spec, _get_logic_module, bind, get, modify, ret, raise, tick.
  cbn beta iota. rewrite Hl.
  destruct (_logic_modules t !! name) as [lm|].
  - cbn beta iota. rewrite Hs.
    destruct (_specs t !! _) as [sp|]; [now split|]. cbn beta iota.
    rewrite Hc, Hf.
    destruct (fetch_schema W _ _); cbn beta iota;
      (split; [reflexivity|]); traffic.
  - destruct (LogicModule_get reg name) as [lm|]; [|now split]. cbn beta iota.
    simpl. rewrite Hs.
    destruct (_specs t !! _) as [sp|];
      [split; [reflexivity|]; traffic|].
    cbn beta iota. simpl. rewrite Hc, Hf.
    destruct (fetch_schema W _ _); cbn beta iota;
      (split; [reflexivity|]); traffic.
Qed.

Section EmbedLists.

Context (reg : Registry) (W : World).
Variables (p : Path) (K : string -> Prop) (Q : list (string * value) -> Prop).

(** [Q] survives the two writes of the join under the keys of [K]:
    [data_item[k] = []] and [data_item[k].append(x)] of an object [x]. *)
Hypothesis Q_set : forall k d, K k -> Q d -> Q (dict_set k (VList []) d).
Hypothesis Q_append :
  forall k x d, K k -> Q d -> Q (dict_alter (list_append (VDict x)) k d).

Lemma keeps_append (k : string) (x : list (string * value)) :
  K k -> keeps (record_at p Q) (update_payload (p ++ [Key k])%list (list_append (VDict x))).
Proof.
  intros Hk s (d & Hd & HQ). unfold update_payload, modify, record_at. simpl.
  rewrite update_path_app, get_path_update_path, Hd. simpl.
  eexists. split; [reflexivity|]. now apply Q_append.
Qed.

Lemma keeps_item_set (k : string) :
  K k -> keeps (record_at p Q) (update_payload p (item_set k (VList []))).
Proof.
  intros Hk s (d & Hd & HQ). unfold update_payload, modify, record_at. simpl.
  rewrite get_path_update_path, Hd. simpl.
  eexists. split; [reflexivity|]. now apply Q_set.
Qed.

Lemma keeps_nest_join_record relationship related_model field spec join_record :
  K (key relationship) ->
  keeps (record_at p Q)
  (nest_join_record W p relationship related_model field spec join_record).
Proof.
  intros Hk.
  unfold nest_join_record. apply keeps_bind; [apply keeps_get|]. intros s0.
  destruct (jr_getattr join_record field); [|apply keeps_raise].
  apply keeps_bind; [apply keeps_payload, _data_request_payload|].
  intros [[content st] h]. destruct content; try (apply keeps_modify; now intros s1 Hs1).
  now apply keeps_append.
Qed.

Lemma keeps_nest_relationship origin_pk r :
  K (key r.1) -> keeps (record_at p Q) (nest_relationship reg W p origin_pk r).
Proof.
  destruct r as [relationship fwd]. intros Hk. unfold nest_relationship.
  apply keeps_bind; [now apply keeps_item_set|]. intros u.
  destruct (get_join_records reg origin_pk relationship fwd) as [|first rest];
    [apply keeps_ret|].
  destruct (prepare_lookup_kwargs reg fwd relationship first) as [related field].
  apply keeps_bind; [apply keeps_payload, _get_swagger_spec_payload|]. intros spec.
  apply keeps_for_each. intros j. now apply keeps_nest_join_record.
Qed.

End EmbedLists.

Lemma holds_objects_set (k k0 : string) (d : list (string * value)) :
  holds_objects k d -> holds_objects k (dict_set k0 (VList []) d).
Proof.
  intros (l & Hl & Ho). unfold holds_objects, holds in *.
  destruct (String.eqb k k0) eqn:E.
  - apply String.eqb_eq in E as ->. rewrite dict_get_set_same. eauto.
  - rewrite dict_get_set_other by now apply String.eqb_neq. eauto.
Qed.

Lemma holds_objects_append (k k0 : string) (x d : list (string * value)) :
  holds_objects k d -> holds_objects k (dict_alter (list_append (VDict x)) k0 d).
Proof.
  intros (l & Hl & Ho). unfold holds_objects, holds in *.
  destruct (String.eqb k k0) eqn:E.
  - apply String.eqb_eq in E as ->. rewrite dict_get_alter_same, Hl. simpl.
    eexists. split; [reflexivity|]. apply Forall_app. split; [exact Ho|].
    constructor; [now exists x|constructor].
  - rewrite dict_get_alter_other by now apply String.eqb_neq. eauto.
Qed.

Lemma holds_set_other (k k0 : string) (l : list value) (d : list (string * value)) :
  k0 <> k -> holds k l d -> holds k l (dict_set k0 (VList []) d).
Proof. intros Hk Hl. unfold holds. now rewrite dict_get_set_other. Qed.

Lemma holds_append_other (k k0 : string) (l : list value) (x d : list (string * value)) :
  k0 <> k -> holds k l d -> holds k l (dict_alter (list_append (VDict x)) k0 d).
Proof. intros Hk Hl. unfold holds. now rewrite dict_get_alter_other. Qed.

Lemma objects_app (xs ys : list Cached) : objects (xs ++ ys) = (objects xs ++ objects ys)%list.
Proof. unfold objects. apply flat_map_app. Qed.

Lemma objects_are_objects (answers : list Cached) : Forall is_object (objects answers).
Proof.
  induction answers as [|[[c st] h] answers IH]; [constructor|].
  unfold objects. simpl. destruct c; simpl; try exact IH.
  constructor; [now eexists|exact IH].
Qed.

(** One turn of the inner loop, in terms of its sub-request. *)
Lemma nest_join_record_eq (W : World) (p : Path) (relationship : Relationship)
    (related : LogicModuleModel) (field : string) (spec : Spec) (j : JoinRecord) (s : Gw) :
  nest_join_record W p relationship related field spec j s =
  match sub_request W related field spec j s with
  | (Err e, s1) => (Err e, s1)
  | (Ok (VDict d, _, _), s1) =>
      (Ok tt, set_payload (update_path (p ++ [Key (key relationship)])%list
                             (list_append (VDict d)) (payload s1)) s1)
  | (Ok _, s1) =>
      (Ok tt, record_log (LogNoResponseData
                            (join_kwargs (request s) related
                               (py_str (default None (jr_getattr j field))))) s1)
  end.
Proof.
  unfold nest_join_record, sub_request, bind, get, raise. cbn beta iota.
  destruct (jr_getattr j field) as [f|]; [|reflexivity]. simpl.
  destruct (_data_request W spec _ s) as [[[[content st] h]|e] s1]; [|reflexivity].
  now destruct content.
Qed.

Lemma sub_request_same_traffic (W : World) (related : LogicModuleModel) (field : string)
    (spec : Spec) (j : JoinRecord) (s t : Gw) :
  same_traffic s t ->
  (sub_request W related field spec j s).1 = (sub_request W related field spec j t).1
  /\ same_traffic (sub_request W related field spec j s).2
                  (sub_request W related field spec j t).2.
Proof.
  intros H. unfold sub_request, bind, get, raise. cbn beta iota.
  destruct (jr_getattr j field) as [f|]; [|now split].
  destruct H as (Hr & H). rewrite Hr.
  apply _data_request_same_traffic. now split.
Qed.

Lemma sub_request_payload (W : World) (related : LogicModuleModel) (field : string)
    (spec : Spec) (j : JoinRecord) (s : Gw) :
  payload (sub_request W related field spec j s).2 = payload s.
Proof.
  unfold sub_request, bind, get, raise. cbn beta iota.
  destruct (jr_getattr j field) as [f|]; [|reflexivity].
  apply _data_request_payload.
Qed.

(** The inner loop: after it the embed list holds what it held, then the
    object bodies of the answers in the order of the join records, and
    the sub-requests were answered as they are on their own. *)
Lemma nest_join_records_answers (W : World) (p : Path) (relationship : Relationship)
    (related : LogicModuleModel) (field : string) (spec : Spec)
    (join_records : list JoinRecord) :
  forall (l : list value) (s t s' : Gw),
  same_traffic s t ->
  record_at p (holds (key relationship) l) s ->
  for_each (nest_join_record W p relationship related field spec) join_records s
  = (Ok tt, s') ->
  exists answers t',
    map_m (sub_request W related field spec) join_records t = (Ok answers, t')
    /\ same_traffic s' t'
    /\ length answers = length join_records
    /\ record_at p (holds (key relationship) (l ++ objects answers)) s'.
Proof.
  induction join_records as [|j js IH]; intros l s t s' Hst Hl H.
  - simpl in H. injection H as <-. exists [], t. simpl.
    rewrite app_nil_r. unfold ret.
    split; [reflexivity|]. split; [exact Hst|]. split; [reflexivity|exact Hl].
  - simpl in H. unfold bind at 1 in H. rewrite nest_join_record_eq in H.
    simpl. unfold bind at 1.
    pose proof (sub_request_same_traffic W related field spec j s t Hst) as (E1 & E2).
    pose proof (sub_request_payload W related field spec j s) as Ep.
    destruct (sub_request W related field spec j s) as [[[[content st] h]|e] s1];
      [|discriminate].
    destruct (sub_request W related field spec j t) as [r1 t1]. simpl in E1, E2, Ep.
    subst r1.
    assert (exists s2,
              for_each (nest_join_record W p relationship related field spec) js s2
              = (Ok tt, s')
              /\ same_traffic s2 t1
              /\ record_at p (holds (key relationship)
                                (l ++ objects [(content, st, h)])) s2)
      as (s2 & H2 & Hs2 & Hl2).
    { destruct Hl as (d & Hd & Hl). rewrite <- Ep in Hd.
      destruct content;
        try (eexists; split; [exact H|]; split;
             [now apply same_traffic_record_log|];
             unfold objects; simpl; rewrite app_nil_r; exists d; now split).
      eexists. split; [exact H|]. split; [now apply same_traffic_set_payload|].
      unfold record_at. simpl.
      rewrite update_path_app, get_path_update_path, Hd. simpl.
      eexists. split; [reflexivity|]. unfold holds in *.
      now rewrite dict_get_alter_same, Hl. }
    destruct (IH _ _ _ _ Hs2 Hl2 H2) as (answers & t' & Hm & Ht' & Hn & Hh).
    exists ((content, st, h) :: answers), t'. unfold bind. rewrite Hm.
    split; [reflexivity|]. split; [exact Ht'|]. split; [simpl; now rewrite Hn|].
    rewrite <- app_assoc, <- objects_app in Hh. exact Hh.
Qed.

(** One round of the outer loop: the key of its relationship holds the
    object bodies of the answers to its sub-requests. *)
Lemma nest_relationship_answers (reg : Registry) (W : World) (p : Path)
    (origin_pk : value) (r : Relationship * bool) (s t s' : Gw) :
  same_traffic s t ->
  record_at p (fun _ => True) s ->
  nest_relationship reg W p origin_pk r s = (Ok tt, s') ->
  exists answers t',
    round_answers reg W origin_pk r t = (Ok answers, t')
    /\ same_traffic s' t'
    /\ length answers = length (get_join_records reg origin_pk r.1 r.2)
    /\ record_at p (holds (key r.1) (objects answers)) s'.
Proof.
  intros Hst (d & Hd & _) H. destruct r as [relationship fwd].
  unfold nest_relationship, bind at 1, update_payload at 1, modify in H.
  cbn beta iota in H. unfold round_answers. simpl fst. simpl snd.
  set (s1 := set_payload _ s) in H.
  assert (record_at p (holds (key relationship) []) s1) as H1.
  { exists (dict_set (key relationship) (VList []) d). subst s1. simpl.
    rewrite get_path_update_path, Hd. split; [reflexivity|].
    apply dict_get_set_same. }
  assert (same_traffic s1 t) as Hs1 by now apply same_traffic_set_payload.
  clearbody s1. clear s Hst Hd.
  destruct (get_join_records reg origin_pk relationship fwd) as [|first rest] eqn:Ej.
  - injection H as <-. exists [], t. unfold ret.
    split; [reflexivity|]. split; [exact Hs1|]. split; [reflexivity|exact H1].
  - destruct (prepare_lookup_kwargs reg fwd relationship first) as [related field].
    unfold bind in H |- *.
    pose proof (_get_swagger_spec_same_traffic reg W
                  (logic_module_endpoint_name related) s1 t Hs1) as (E1 & E2).
    pose proof (_get_swagger_spec_payload reg W
                  (logic_module_endpoint_name related) s1) as Ep.
    destruct (_get_swagger_spec reg W _ s1) as [[spec|e] s2]; [|discriminate].
    destruct (_get_swagger_spec reg W _ t) as [r2 t2]. simpl in E1, E2, Ep. subst r2.
    assert (record_at p (holds (key relationship) []) s2) as H2.
    { destruct H1 as (d1 & Hd1 & Hl1). exists d1. now rewrite Ep. }
    destruct (nest_join_records_answers W p relationship related field spec
                (first :: rest) [] s2 t2 s' E2 H2 H)
      as (answers & t' & Hm & Ht' & Hn & Hh).
    exists answers, t'. split; [exact Hm|]. split; [exact Ht'|]. split; [exact Hn|exact Hh].
Qed.

(** X16. When [_add_nested_data] returns for a record, the record holds
    under the key of every relationship a list of objects. When the keys
    of the relationships differ from one another, the list under each key
    is the list of the object bodies among the answers to the sub-requests
    of that relationship, in the order of its join records: one answer per
    join record, the sub-requests being answered as they are when nothing
    is written to the payload between them. *)
Theorem nested_keys_hold_lists (reg : Registry) (W : World) (p : Path)
    (relationships : list (Relationship * bool)) (field : string) (s s' : Gw) :
  _add_nested_data reg W p relationships field s = (Ok tt, s') ->
  Forall (fun r : Relationship * bool => record_at p (holds_objects (key r.1)) s')
         relationships
  /\ (NoDup (List.map (fun r : Relationship * bool => key r.1) relationships) ->
      exists (d : list (string * value)) (answers : list (list Cached)) (t : Gw),
        get_path p (payload s) = Some (VDict d)
        /\ map_m (round_answers reg W (default VNull (dict_get field d))) relationships
             (set_request (clear_GET (request s)) s) = (Ok answers, t)
        /\ same_traffic s' t
        /\ Forall2 (fun (r : Relationship * bool) (a : list Cached) =>
                      length a
                      = length (get_join_records reg (default VNull (dict_get field d))
                                  r.1 r.2)
                      /\ record_at p (holds (key r.1) (objects a)) s')
                   relationships answers).
Proof.
  rewrite _add_nested_data_eq. cbv zeta. unfold item_lookup.
  destruct (get_path p (payload s)) as [[]|] eqn:Hp; try discriminate.
  destruct (truthy _); [|discriminate].
  set (pk := default VNull (dict_get field d)).
  assert (record_at p (fun _ => True) (set_request (clear_GET (request s)) s)) as H0.
  { exists d. now split. }
  intros H. split.
  - revert H0 H. generalize (set_request (clear_GET (request s)) s). clear s Hp.
    induction relationships as [|r rels IH]; intros s H0 H; [constructor|].
    simpl in H. unfold bind in H.
    destruct (nest_relationship reg W p pk r s) as [[[]|e] s1] eqn:E1; [|discriminate].
    destruct (nest_relationship_answers reg W p pk r s s s1 (same_traffic_refl s) H0 E1)
      as (answers & t' & _ & _ & _ & d1 & Hd1 & Hl1).
    assert (record_at p (holds_objects (key r.1)) s1) as H1.
    { exists d1. split; [exact Hd1|]. eexists. split; [exact Hl1|].
      apply objects_are_objects. }
    pose proof (keeps_nest_relationship reg W p (fun _ => True) (fun _ => True)
                  (fun _ _ _ _ => Logic.I) (fun _ _ _ _ _ => Logic.I)
                  pk r Logic.I s H0) as H2.
    rewrite E1 in H2. simpl in H2.
    constructor.
    + pose proof (keeps_for_each (record_at p (holds_objects (key r.1)))
                    (nest_relationship reg W p pk) rels
                    (fun r' => keeps_nest_relationship reg W p (fun _ => True)
                       (holds_objects (key r.1))
                       (fun k d0 _ => holds_objects_set (key r.1) k d0)
                       (fun k x d0 _ => holds_objects_append (key r.1) k x d0)
                       pk r' Logic.I) s1 H1) as H3.
      now rewrite H in H3.
    + now apply (IH s1).
  - intros Hnd. exists d.
    cut (exists answers t,
           map_m (round_answers reg W pk) relationships
             (set_request (clear_GET (request s)) s) = (Ok answers, t)
           /\ same_traffic s' t
           /\ Forall2 (fun (r : Relationship * bool) (a : list Cached) =>
                         length a = length (get_join_records reg pk r.1 r.2)
                         /\ record_at p (holds (key r.1) (objects a)) s')
                      relationships answers).
    { intros (answers & t & H1 & H2 & H3). now exists answers, t. }
    pose proof (same_traffic_refl (set_request (clear_GET (request s)) s)) as Hst.
    revert H0 H Hst.
    generalize (set_request (clear_GET (request s)) s) at 1 2 3.
    generalize (set_request (clear_GET (request s)) s).
    clear Hp. intros t0 s0. revert s0 t0.
    induction relationships as [|r rels IH]; intros s0 t0 H0 H Hst.
    + simpl in H. injection H as <-. exists [], t0. simpl. unfold ret.
      split; [reflexivity|]. split; [exact Hst|constructor].
    + simpl in H. unfold bind in H. simpl in Hnd. apply NoDup_cons in Hnd as [Hin Hnd].
      destruct (nest_relationship reg W p pk r s0) as [[[]|e] s1] eqn:E1; [|discriminate].
      destruct (nest_relationship_answers reg W p pk r s0 t0 s1 Hst H0 E1)
        as (a & t1 & Ea & Hst1 & Hn & Hl1).
      pose proof (keeps_nest_relationship reg W p (fun _ => True) (fun _ => True)
                    (fun _ _ _ _ => Logic.I) (fun _ _ _ _ _ => Logic.I)
                    pk r Logic.I s0 H0) as H2.
      rewrite E1 in H2. simpl in H2.
      destruct (IH Hnd s1 t1 H2 H Hst1) as (answers & t & Hm & Ht & Hall).
      exists (a :: answers), t. simpl. unfold bind. rewrite Ea, Hm.
      split; [reflexivity|]. split; [exact Ht|]. constructor; [|exact Hall].
      split; [exact Hn|].
      pose proof (keeps_for_each (record_at p (holds (key r.1) (objects a)))
                    (nest_relationship reg W p pk) rels) as H3.
      assert (forall r', In r' rels ->
                keeps (record_at p (holds (key r.1) (objects a)))
                      (nest_relationship reg W p pk r')) as Hk.
      { intros r' Hr'.
        apply (keeps_nest_relationship reg W p (fun k => k <> key r.1)).
        - intros k d0 Hk. now apply holds_set_other.
        - intros k x d0 Hk. now apply holds_append_other.
        - intros E. apply Hin. rewrite <- E.
          apply list_elem_of_In. apply in_map_iff. now exists r'. }
      clear - Hk Hl1 H. revert s1 Hl1 H.
      induction rels as [|r' rels IH]; intros s1 Hl1 H.
      * simpl in H. now injection H as <-.
      * simpl in H. unfold bind in H.
        pose proof (Hk r' (or_introl eq_refl) s1 Hl1) as H4.
        destruct (nest_relationship reg W p pk r' s1) as [[[]|e] s2]; [|discriminate].
        apply (IH (fun r'' Hr'' => Hk r'' (or_intror Hr'')) s2 H4 H).
Qed.

Lemma nested_keys_hold_lists_witness :
  let reg := Scenario.registry SharedServiceScenario.both
               (Scenario.joins_of ["11"; "14"; "10"]) in
  let s := set_payload (Scenario.order 7) Scenario.detail_join in
  let s' := (_add_nested_data reg Scenario.world [] SharedServiceScenario.both "id" s).2 in
  _add_nested_data reg Scenario.world [] SharedServiceScenario.both "id" s = (Ok tt, s')
  /\ NoDup (List.map (fun r : Relationship * bool => key r.1) SharedServiceScenario.both)
  /\ Forall (fun r : Relationship * bool => record_at [] (holds_objects (key r.1)) s')
            SharedServiceScenario.both
  /\ exists (d : list (string * value)) (answers : list (list Cached)) (t : Gw),
       get_path [] (payload s) = Some (VDict d)
       /\ map_m (round_answers reg Scenario.world (default VNull (dict_get "id" d)))
            SharedServiceScenario.both (set_request (clear_GET (request s)) s)
          = (Ok answers, t)
       /\ same_traffic s' t
       /\ Forall2 (fun (r : Relationship * bool) (a : list Cached) =>
                     length a
                     = length (get_join_records reg (default VNull (dict_get "id" d))
                                 r.1 r.2)
                     /\ record_at [] (holds (key r.1) (objects a)) s')
                  SharedServiceScenario.both answers.
Proof.
  intros reg s s'.
  assert (_add_nested_data reg Scenario.world [] SharedServiceScenario.both "id" s
          = (Ok tt, s')) as H by (vm_compute; reflexivity).
  assert (NoDup (List.map (fun r : Relationship * bool => key r.1)
                   SharedServiceScenario.both)) as Hnd.
  { apply (bool_decide_unpack _). vm_compute. exact Logic.I. }
  split; [exact H|]. split; [exact Hnd|].
  destruct (nested_keys_hold_lists reg Scenario.world [] SharedServiceScenario.both "id"
              s s' H) as [HA HB].
  split; [exact HA|exact (HB Hnd)].
Defined.

(** The lists of the record above: products 11 and 10 in the order of the
    join records, the answer of product 14, which is no object, left out;
    the second relationship is answered from the cache and holds the same. *)
Example nested_lists_in_join_record_order :
  let reg := Scenario.registry SharedServiceScenario.both
               (Scenario.joins_of ["11"; "14"; "10"]) in
  payload (_add_nested_data reg Scenario.world [] SharedServiceScenario.both "id"
             (set_payload (Scenario.order 7) Scenario.detail_join)).2
  = VDict [("id", VNum 7); ("name", VStr "order");
           ("items", VList [Scenario.product 11; Scenario.product 10]);
           ("spares", VList [Scenario.product 11; Scenario.product 10])].
Proof. vm_compute. reflexivity. Qed.

(** ** The outcome of a sub-request of the join *)

(** X17. A sub-request of the sequential join that is answered never
    fails the round, and its status plays no part. When the body of the
    answer is an object, it is appended at the end of the embed list of
    the relationship, after what the list held; otherwise the payload
    stays as it is and the missing data is logged. *)
Theorem answered_sub_request_outcome (W : World) (data_item : Path)
    (relationship : Relationship) (related_model : LogicModuleModel) (field : string)
    (spec : Spec) (join_record : JoinRecord) (s : Gw) (f : option string)
    (url : string) (resp : HttpResponse) (l : list value) :
  jr_getattr join_record field = Some f ->
  answered W spec (join_kwargs (request s) related_model (py_str f)) s url resp ->
  get_path (data_item ++ [Key (key relationship)])%list (payload s) = Some (VList l) ->
  (nest_join_record W data_item relationship related_model field spec join_record s).1
  = Ok tt
  /\ match decode resp with
     | VDict d =>
         get_path (data_item ++ [Key (key relationship)])%list
                  (payload (nest_join_record W data_item relationship related_model field
                              spec join_record s).2)
         = Some (VList (l ++ [VDict d]))
     | _ =>
         payload (nest_join_record W data_item relationship related_model field spec
                    join_record s).2 = payload s
         /\ last (logged (nest_join_record W data_item relationship related_model field
                            spec join_record s).2)
            = Some (LogNoResponseData
                      (join_kwargs (request s) related_model (py_str f)))
     end.
Proof.
  intros Hf (method & body & Hp & Hc & Hm & Hb & Hh) Hl.
  pose (s1 := if is_valid_for_cache (request s)
              then set_data (<[url := (decode resp, r_status resp, r_headers resp)]>
                               (_data s))
                            (record_call (call_of (request s) method url body) s)
              else record_call (call_of (request s) method url body) s).
  assert (payload s1 = payload s /\ logged s1 = logged s) as [Hs1 Hs1'].
  { subst s1. now destruct (is_valid_for_cache (request s)). }
  assert (nest_join_record W data_item relationship related_model field spec join_record s
          = match decode resp with
            | VDict d =>
                (Ok tt,
                 set_payload
                   (update_path (data_item ++ [Key (key relationship)])%list
                                (list_append (VDict d)) (payload s1)) s1)
            | _ =>
                (Ok tt,
                 record_log
                   (LogNoResponseData (join_kwargs (request s) related_model (py_str f)))
                   s1)
            end) as Heq.
  { unfold nest_join_record, bind at 1, get. cbn beta iota. rewrite Hf.
    unfold bind at 1. rewrite _data_request_eq, Hp, Hc, Hm. cbn [negb]. rewrite Hb.
    cbv zeta. rewrite Hh. subst s1.
    destruct (is_valid_for_cache (request s)); destruct (decode resp); reflexivity. }
  rewrite Heq. clear Heq.
  destruct (decode resp); cbn [fst snd];
    try (split; [reflexivity|]; split; [exact Hs1|];
         cbn [logged record_log]; rewrite Hs1'; apply last_snoc).
  split; [reflexivity|]. cbn [payload set_payload].
  now rewrite get_path_update_path, Hs1, Hl.
Qed.

Lemma answered_sub_request_outcome_witness :
  get_path [Key "items"]
           (payload (nest_join_record Scenario.world [] (Scenario.rel "items" Scenario.m_products)
                       Scenario.m_products "related_record_id" CacheScenario.products
                       (Scenario.jr "12") EmbedScenario.s0).2)
  = Some (VList [Scenario.product 10; VDict [("detail", VStr "boom")]]).
Proof.
  pose proof (answered_sub_request_outcome Scenario.world []
                (Scenario.rel "items" Scenario.m_products) Scenario.m_products
                "related_record_id" CacheScenario.products (Scenario.jr "12")
                EmbedScenario.s0 (Some "12") "http://products/products/12/"
                {| r_json := Some (VDict [("detail", VStr "boom")]); r_json_raises := None;
                   r_content := EmptyString; r_status := 500;
                   r_headers := [("Content-Type", "application/json")] |}
                [Scenario.product 10]) as H.
  destruct H as [_ H].
  - reflexivity.
  - exists "get", (OutDict []). repeat split; vm_compute; reflexivity.
  - reflexivity.
  - exact H.
Defined.

(** ** The response cache of the concurrent engine *)

Lemma async_data_request_hit (W : World) spec kw s method url t :
  is_valid_for_cache (request s) = true ->
  prepare_data (request s) spec kw = Ok (method, url) ->
  _data s !! url = Some t ->
  await (Async._data_request W spec kw) s
  = (Ok t, record_log (LogDebug ("Taking data from cache: " ++ url)) s).
Proof.
  intros Hv Hp Hd. unfold await, Async._data_request. now rewrite Hp, Hv, Hd.
Qed.

Lemma async_data_request_fills (W : World) spec kw s method url t s1 :
  is_valid_for_cache (request s) = true ->
  prepare_data (request s) spec kw = Ok (method, url) ->
  await (Async._data_request W spec kw) s = (Ok t, s1) ->
  _data s1 !! url = Some t.
Proof.
  intros Hv Hp. unfold await, Async._data_request. rewrite Hp, Hv.
  destruct (_data s !! url) eqn:Hd.
  - intros [= <- <-]. exact Hd.
  - destruct (negb (str_in method requests_methods)); [discriminate|].
    destruct (get_request_data (request s)); [|discriminate].
    cbv zeta. unfold suspend. destruct (http W (tick s) _) as [cls msg|r]; [discriminate|].
    unfold bind, get, modify, ret, lift. simpl.
    destruct (Async.decode r); simpl; [|discriminate]. rewrite Hv.
    intros [= <- <-]. simpl. apply lookup_insert_eq.
Qed.

(** X18. The concurrent engine caches as the sequential one does when
    its data requests do not overlap: a cache-eligible request that was
    awaited and answered leaves its triple in the cache, and a later
    cache-eligible request that resolves to the same URL returns that
    triple, the state changing by a log line only: no call is added. *)
Theorem async_cache_serves_repeats (W : World) (spec spec' : Spec) (kw kw' : Kwargs)
    (s s1 s2 : Gw) (method method' url : string) (t : Cached) :
  is_valid_for_cache (request s) = true ->
  prepare_data (request s) spec kw = Ok (method, url) ->
  await (Async._data_request W spec kw) s = (Ok t, s1) ->
  cache_kept s1 s2 ->
  is_valid_for_cache (request s2) = true ->
  prepare_data (request s2) spec' kw' = Ok (method', url) ->
  await (Async._data_request W spec' kw') s2
  = (Ok t, record_log (LogDebug ("Taking data from cache: " ++ url)) s2)
  /\ http_calls (await (Async._data_request W spec' kw') s2).2 = http_calls s2.
Proof.
  intros Hv Hp H1 Hk Hv2 Hp2.
  assert (_data s2 !! url = Some t) as Hd.
  { eapply lookup_weaken; [|exact Hk].
    exact (async_data_request_fills W spec kw s method url t s1 Hv Hp H1). }
  rewrite (async_data_request_hit W spec' kw' s2 method' url t Hv2 Hp2 Hd). now split.
Qed.

Lemma async_cache_serves_repeats_witness :
  http_calls
    (await (Async._data_request Scenario.stamped CacheScenario.products
              (CacheScenario.kw "10"))
           (await (Async._data_request Scenario.stamped CacheScenario.products
                     (CacheScenario.kw "10")) CacheScenario.s0).2).2
  = http_calls
      (await (Async._data_request Scenario.stamped CacheScenario.products
                (CacheScenario.kw "10")) CacheScenario.s0).2.
Proof.
  apply (async_cache_serves_repeats Scenario.stamped CacheScenario.products
           CacheScenario.products (CacheScenario.kw "10") (CacheScenario.kw "10")
           CacheScenario.s0
           (await (Async._data_request Scenario.stamped CacheScenario.products
                     (CacheScenario.kw "10")) CacheScenario.s0).2
           (await (Async._data_request Scenario.stamped CacheScenario.products
                     (CacheScenario.kw "10")) CacheScenario.s0).2
           "get" "get" "http://products/products/10/"
           (Scenario.product 10, 200,
            [("X-Seq", "0"); ("Content-Type", "application/json")])).
  - vm_compute. reflexivity.
  - vm_compute. reflexivity.
  - vm_compute. reflexivity.
  - unfold cache_kept. reflexivity.
  - vm_compute. reflexivity.
  - vm_compute. reflexivity.
Defined.

(** ** The embed lists of the concurrent engine *)

(** X19. A sub-request of the concurrent join adds to its embed list
    when its answer is there, not when it is sent: the task waits once the
    call is issued, and when it is resumed, in whatever state the other
    tasks have left, an object body is appended at the end of the list as
    it is then, provided the list is still attached to its record. *)
Theorem embed_is_appended_on_completion (W : World) (spec : Spec) (placeholder : nat)
    (kw : Kwargs) (s : Gw) (url : string) (resp : HttpResponse)
    (d : list (string * value)) :
  async_answered W spec kw s url resp ->
  Async.decode resp = Ok (VDict d) ->
  exists k,
    (Async._extend_content W spec placeholder kw s).1 = Suspended k
    /\ payload (Async._extend_content W spec placeholder kw s).2 = payload s
    /\ forall s' place l,
         placeholders s' !! placeholder = Some (Some place) ->
         get_path place (payload s') = Some (VList l) ->
         (k s').1 = Ok tt
         /\ get_path place (payload (k s').2) = Some (VList (l ++ [VDict d])).
Proof.
  intros (method & body & Hp & Hc & Hm & Hb & Hh) Hd.
  unfold Async._extend_content, co_then, Async._data_request.
  rewrite Hp, Hc, Hm. cbn [negb]. rewrite Hb. cbv zeta. rewrite Hh.
  unfold suspend. cbn [fst snd]. eexists. split; [reflexivity|]. split; [reflexivity|].
  intros s' place l Hph Hl. unfold bind, get, modify, ret, lift. cbn beta iota.
  rewrite Hd. cbn beta iota.
  destruct (is_valid_for_cache (request s')); cbn beta iota;
    unfold Async.placeholder_append, bind, get, update_payload, modify;
    cbn beta iota; cbn [placeholders set_data]; rewrite Hph;
    cbn [fst snd payload set_payload set_data];
    (split; [reflexivity|]); now rewrite get_path_update_path, Hl.
Qed.

Lemma embed_is_appended_on_completion_witness :
  exists k,
    (Async._extend_content Scenario.world CacheScenario.products 0 (CacheScenario.kw "11")
                           CacheScenario.s0).1 = Suspended k
    /\ get_path [Key "items"]
                (payload (k (set_placeholders [Some [Key "items"]] EmbedScenario.s0)).2)
       = Some (VList [Scenario.product 10; Scenario.product 11]).
Proof.
  destruct (embed_is_appended_on_completion Scenario.world CacheScenario.products 0
              (CacheScenario.kw "11") CacheScenario.s0 "http://products/products/11/"
              {| r_json := Some (Scenario.product 11); r_json_raises := None;
                 r_content := EmptyString;
                 r_status := 200; r_headers := [("Content-Type", "application/json")] |}
              [("id", VNum 11)]) as (k & Hk & _ & H).
  - exists "get", (OutDict []). repeat split; vm_compute; reflexivity.
  - reflexivity.
  - exists k. split; [exact Hk|].
    apply (H (set_placeholders [Some [Key "items"]] EmbedScenario.s0) [Key "items"]
             [Scenario.product 10]); reflexivity.
Defined.

(** ** The expansions of the legacy aggregation *)

Lemma _data_request_request (W : World) (spec : Spec) (kw : Kwargs) (s : Gw) :
  request (_data_request W spec kw s).2 = request s.
Proof.
  rewrite _data_request_eq.
  destruct (prepare_data (request s) spec kw) as [[method url]|e]; [|reflexivity].
  destruct (if is_valid_for_cache (request s) then _data s !! url else None);
    [reflexivity|].
  destruct (str_in method requests_methods); [|reflexivity]. simpl.
  destruct (get_request_data (request s)); [|reflexivity]. simpl.
  destruct (http W (tick s) _); [reflexivity|].
  now destruct (is_valid_for_cache (request s)).
Qed.

Lemma _get_swagger_spec_request (reg : Registry) (W : World) (name : string) (s : Gw) :
  request (_get_swagger_spec reg W name s).2 = request s.
Proof.
  rewrite _get_swagger_spec_eq, _get_logic_module_eq.
  destruct (_logic_modules s !! name); cbv zeta.
  - destruct (_specs s !! _); [reflexivity|]. now destruct (fetch_schema W _ _).
  - destruct (LogicModule_get reg name); [|reflexivity].
    destruct (_specs _ !! _); [reflexivity|]. now destruct (fetch_schema W _ _).
Qed.

(** X20. An expansion of the legacy aggregation through the local
    workflow models (service ["bifrost"]) stays local: no schema is
    fetched, no upstream call is made, and the request object and the
    payload are left alone. An expansion through any other service whose
    spec is found clears the query parameters of the inbound request
    before it sends its data request, and they stay cleared. *)
Theorem expansion_is_local_or_clears (reg : Registry) (W : World) (extend_model : Kwargs)
    (s : Gw) :
  (kw_service extend_model = "bifrost" ->
   expansion_frame s (expand_one reg W extend_model s).2)
  /\ (kw_service extend_model <> "bifrost" ->
      forall spec s1,
        _get_swagger_spec reg W (kw_service extend_model) s = (Ok spec, s1) ->
        request (expand_one reg W extend_model s).2 = clear_GET (request s)).
Proof.
  split.
  - intros Hb. unfold expand_one. rewrite Hb. cbn [String.eqb Ascii.eqb Bool.eqb].
    destruct (wfm_get reg _ _) as [|msg| |[msg|] v]; now repeat split.
  - intros Hb spec s1 Hs. unfold expand_one.
    apply String.eqb_neq in Hb. rewrite Hb.
    pose proof (_get_swagger_spec_request reg W (kw_service extend_model) s) as Hr.
    unfold bind at 1. rewrite Hs in *. cbn beta iota. cbn [snd] in Hr.
    unfold bind at 1, clear_query_params, modify. cbn beta iota. unfold bind.
    pose proof (_data_request_request W spec extend_model
                  (set_request (clear_GET (request s1)) s1)) as H.
    destruct (_data_request W spec extend_model _) as [[[[c st] h]|e] s2];
      cbn [fst snd] in *; unfold ret; cbn [snd]; rewrite H; cbn [request set_request];
      now rewrite Hr.
Qed.

Lemma expansion_is_local_or_clears_witness :
  expansion_frame Scenario.detail_join
    (expand_one (Scenario.registry Scenario.items (Scenario.joins_of [])) Scenario.world
                {| kw_service := "bifrost"; kw_model := Some "WorkflowLevel1";
                   kw_pk := Some "1"; kw_method := None;
                   kw_relationship_key := Some "wfl1" |} Scenario.detail_join).2.
Proof.
  apply (expansion_is_local_or_clears
           (Scenario.registry Scenario.items (Scenario.joins_of [])) Scenario.world
           {| kw_service := "bifrost"; kw_model := Some "WorkflowLevel1";
              kw_pk := Some "1"; kw_method := None;
              kw_relationship_key := Some "wfl1" |} Scenario.detail_join).
  reflexivity.
Defined.

(** ** The join writes relationship keys only *)

Lemma is_relationship_key_in relationships (r : Relationship * bool) :
  In r relationships -> is_relationship_key relationships (key r.1) = true.
Proof.
  intros Hr. unfold is_relationship_key, str_in, relationship_keys.
  apply existsb_exists. exists (key r.1). split; [|apply String.eqb_refl].
  apply in_map_iff. now exists r.
Qed.

Lemma aggregate_requested_cleared (rq : Request) (status : Z) :
  aggregate_requested (clear_GET rq) status = false.
Proof. reflexivity. Qed.

Lemma catch_log_payload (m : M unit) (s : Gw) :
  payload (catch_sdne m log_error s).2 = payload (m s).2
  /\ request (catch_sdne m log_error s).2 = request (m s).2
  /\ placeholders (catch_sdne m log_error s).2 = placeholders (m s).2.
Proof.
  unfold catch_sdne. destruct (m s) as [[u|e] s']; simpl; [auto|].
  destruct (is_ServiceDoesNotExist e); simpl; auto.
Qed.

Lemma async_data_request_placeholders (W : World) (spec : Spec) (kw : Kwargs) (s : Gw) :
  placeholders (await (Async._data_request W spec kw) s).2 = placeholders s.
Proof.
  unfold await, Async._data_request.
  destruct (prepare_data (request s) spec kw) as [[method url]|e]; [|reflexivity].
  destruct (if is_valid_for_cache (request s) then _data s !! url else None);
    [reflexivity|].
  destruct (str_in method requests_methods); [|reflexivity]. cbn [negb].
  destruct (get_request_data (request s)); [|reflexivity].
  cbn zeta. unfold suspend.
  destruct (http W (tick s) _) as [cls msg|r]; [reflexivity|].
  unfold bind, get, modify, ret, lift. simpl.
  destruct (Async.decode r); simpl; [|reflexivity].
  now destruct (is_valid_for_cache (request s)).
Qed.

(** On a fresh request the triple [_data_request] returns is the decoded
    answer of the upstream call. *)
Lemma _data_request_answer (W : World) (spec : Spec) (kw : Kwargs) (s s1 : Gw)
    content0 status hdrs :
  _data s = ∅ ->
  _data_request W spec kw s = (Ok (content0, status, hdrs), s1) ->
  exists method url body r,
    http W (tick s) (call_of (request s) method url body) = HttpAnswer r
    /\ content0 = decode r /\ status = r_status r /\ hdrs = r_headers r.
Proof.
  intros He. rewrite _data_request_eq.
  destruct (prepare_data (request s) spec kw) as [[method url]|e]; [|discriminate].
  rewrite He, lookup_empty.
  replace (if is_valid_for_cache (request s) then None else None)
    with (@None Cached) by now destruct (is_valid_for_cache (request s)).
  destruct (str_in method requests_methods); [|discriminate].
  destruct (get_request_data (request s)) as [body|e]; [|discriminate].
  cbn zeta. destruct (http W (tick s) _) as [cls msg|r] eqn:E; [discriminate|].
  intros [= <- <- <- _]. now exists method, url, body, r.
Qed.

Lemma async_data_request_answer (W : World) (spec : Spec) (kw : Kwargs) (s s1 : Gw)
    content0 status hdrs :
  _data s = ∅ ->
  await (Async._data_request W spec kw) s = (Ok (content0, status, hdrs), s1) ->
  exists method url body r,
    http W (tick s) (Async.call_of (request s) method url body) = HttpAnswer r
    /\ Async.decode r = Ok content0 /\ status = r_status r /\ hdrs = r_headers r.
Proof.
  intros He. unfold await, Async._data_request.
  destruct (prepare_data (request s) spec kw) as [[method url]|e]; [|discriminate].
  rewrite He, lookup_empty.
  replace (if is_valid_for_cache (request s) then None else None)
    with (@None Cached) by now destruct (is_valid_for_cache (request s)).
  destruct (str_in method requests_methods); [|discriminate]. cbn [negb].
  destruct (get_request_data (request s)) as [body|e]; [|discriminate].
  cbn zeta. unfold suspend.
  destruct (http W (tick s) _) as [cls msg|r] eqn:E; [discriminate|].
  unfold bind, get, modify, ret, lift. simpl.
  destruct (Async.decode r) as [c|e] eqn:Ed; simpl; [|discriminate].
  destruct (is_valid_for_cache (request s)); intros [= <- <- <- _];
    now exists method, url, body, r.
Qed.

Section Joined.

Variable relationships : list (Relationship * bool).

Local Abbreviation is_key := (is_relationship_key relationships).

Lemma field_kept_refl (kv : string * value) : field_kept relationships kv kv.
Proof. now split. Qed.

Lemma record_joined_refl (d : list (string * value)) : record_joined relationships d d.
Proof.
  exists d, []. split; [now rewrite app_nil_r|]. split; [|constructor].
  induction d; constructor; auto using field_kept_refl.
Qed.

Lemma item_joined_refl (v : value) : item_joined relationships v v.
Proof. destruct v; simpl; auto. eexists. split; [reflexivity|apply record_joined_refl]. Qed.

Lemma records_joined_refl (v : value) : records_joined relationships v v.
Proof.
  destruct v; try apply item_joined_refl. simpl. exists l. split; [reflexivity|].
  induction l; constructor; auto using item_joined_refl.
Qed.

Lemma dict_alter_id {A} (k : string) (x : A) (d : list (string * A)) :
  dict_get k d = Some x -> dict_alter (fun _ => x) k d = d.
Proof.
  induction d as [|[k' y] d IH]; simpl; [discriminate|].
  destruct (String.eqb k k'); [now intros [= ->]|]. intros H. now rewrite IH.
Qed.

Lemma payload_joined_refl (v : value) : payload_joined relationships v v.
Proof.
  destruct v; try apply records_joined_refl. simpl.
  destruct (dict_get "results" d) as [r|] eqn:E.
  - exists r. split; [apply records_joined_refl|]. now rewrite dict_alter_id.
  - exists d. split; [reflexivity|apply record_joined_refl].
Qed.

(** *** The two writes, on an object *)

Lemma dict_alter_app {A} (f : A -> A) (k : string) (a b : list (string * A)) :
  dict_alter f k (a ++ b)%list
  = if dict_has k a then (dict_alter f k a ++ b)%list else (a ++ dict_alter f k b)%list.
Proof.
  unfold dict_has. induction a as [|[k' x] a IH]; simpl; [reflexivity|].
  destruct (String.eqb k k'); [reflexivity|]. rewrite IH.
  now destruct (dict_get k a).
Qed.

Lemma dict_set_app {A} (k : string) (x : A) (a b : list (string * A)) :
  dict_set k x (a ++ b)%list
  = if dict_has k a then (dict_set k x a ++ b)%list else (a ++ dict_set k x b)%list.
Proof.
  unfold dict_has. induction a as [|[k' y] a IH]; simpl; [reflexivity|].
  destruct (String.eqb k k'); [reflexivity|]. rewrite IH.
  now destruct (dict_get k a).
Qed.

Lemma dict_set_alter {A} (k : string) (x : A) (a : list (string * A)) :
  dict_has k a = true -> dict_set k x a = dict_alter (fun _ => x) k a.
Proof.
  unfold dict_has. induction a as [|[k' y] a IH]; simpl; [discriminate|].
  destruct (String.eqb k k') eqn:E.
  - apply String.eqb_eq in E as ->. reflexivity.
  - intros H. now rewrite IH.
Qed.

Lemma kept_alter (f : value -> value) (k : string) (d kept : list (string * value)) :
  is_key k = true ->
  Forall2 (field_kept relationships) d kept ->
  Forall2 (field_kept relationships) d (dict_alter f k kept).
Proof.
  intros Hk H. induction H as [|kv kv' d kept Hf H IH]; simpl; [constructor|].
  destruct kv' as [k' x]. destruct Hf as [H1 H2].
  simpl in H1. destruct (String.eqb k k') eqn:E.
  - apply String.eqb_eq in E. constructor; [|exact H].
    split; [exact H1|]. intros Hn. exfalso. rewrite <- H1, <- E in Hn. congruence.
  - constructor; [now split|exact IH].
Qed.

Lemma added_alter (f : value -> value) (k : string) (added : list (string * value)) :
  Forall (fun kv : string * value => is_key (fst kv) = true) added ->
  Forall (fun kv : string * value => is_key (fst kv) = true) (dict_alter f k added).
Proof.
  intros H. induction H as [|[k' x] added H1 H IH]; simpl; [constructor|].
  destruct (String.eqb k k'); constructor; auto.
Qed.

Lemma added_set (k : string) (x : value) (added : list (string * value)) :
  is_key k = true ->
  Forall (fun kv : string * value => is_key (fst kv) = true) added ->
  Forall (fun kv : string * value => is_key (fst kv) = true) (dict_set k x added).
Proof.
  intros Hk H. induction H as [|[k' y] added H1 H IH]; simpl.
  - constructor; [exact Hk|constructor].
  - destruct (String.eqb k k'); constructor; auto.
Qed.

Lemma record_joined_alter (f : value -> value) (k : string) (d0 d : list (string * value)) :
  is_key k = true ->
  record_joined relationships d0 d -> record_joined relationships d0 (dict_alter f k d).
Proof.
  intros Hk (kept & added & -> & H1 & H2). rewrite dict_alter_app.
  destruct (dict_has k kept).
  - exists (dict_alter f k kept), added. split; [reflexivity|].
    split; [now apply kept_alter|exact H2].
  - exists kept, (dict_alter f k added). split; [reflexivity|].
    split; [exact H1|now apply added_alter].
Qed.

Lemma record_joined_set (k : string) (x : value) (d0 d : list (string * value)) :
  is_key k = true ->
  record_joined relationships d0 d -> record_joined relationships d0 (dict_set k x d).
Proof.
  intros Hk (kept & added & -> & H1 & H2). rewrite dict_set_app.
  destruct (dict_has k kept) eqn:E.
  - exists (dict_set k x kept), added. split; [reflexivity|].
    split; [|exact H2]. rewrite dict_set_alter by exact E. now apply kept_alter.
  - exists kept, (dict_set k x added). split; [reflexivity|].
    split; [exact H1|now apply added_set].
Qed.

Lemma item_set_write (k : string) (x : value) :
  is_key k = true -> record_write relationships (item_set k x).
Proof.
  intros Hk. split.
  - intros d0 d H. eexists. split; [reflexivity|]. now apply record_joined_set.
  - intros v Hv. destruct v; try reflexivity. now destruct (Hv d).
Qed.

Lemma append_write (k : string) (x : value) :
  is_key k = true -> record_write relationships (update_path [Key k] (list_append x)).
Proof.
  intros Hk. split.
  - intros d0 d H. eexists. split; [reflexivity|]. now apply record_joined_alter.
  - intros v Hv. destruct v; try reflexivity. now destruct (Hv d).
Qed.

(** *** A write to a record of the payload *)

Lemma item_joined_write (f : value -> value) (v v' : value) :
  record_write relationships f ->
  item_joined relationships v v' -> item_joined relationships v (f v').
Proof.
  intros [Hf1 Hf2] H. destruct v; simpl in *; try (subst v'; now apply Hf2).
  destruct H as (d' & -> & H). destruct (Hf1 d d' H) as (d'' & -> & H'). now exists d''.
Qed.

Lemma items_joined_alter (f : value -> value) (i : nat) (l l' : list value) :
  record_write relationships f ->
  Forall2 (item_joined relationships) l l' ->
  Forall2 (item_joined relationships) l (alter f i l').
Proof.
  intros Hf H. revert i. induction H as [|x y l l' Hxy H IH]; intros [|i]; simpl;
    try constructor; auto.
  - now apply item_joined_write.
  - apply IH.
Qed.

Lemma dict_alter_alter {A} (f g : A -> A) (k : string) (d : list (string * A)) :
  dict_alter f k (dict_alter g k d) = dict_alter (fun x => f (g x)) k d.
Proof.
  induction d as [|[k' x] d IH]; simpl; [reflexivity|].
  destruct (String.eqb k k') eqn:E; simpl; rewrite E; [reflexivity|now rewrite IH].
Qed.

Lemma In_item_paths (p q : Path) (n : nat) :
  In p (item_paths q n) -> exists i, p = (q ++ [Idx i])%list.
Proof.
  unfold item_paths. intros H. apply in_map_iff in H as (i & <- & _). now exists i.
Qed.

(** A write to one of the records of [v] keeps the payload joined. *)
Lemma payload_joined_write (f : value -> value) (p : Path) (v v' : value) :
  record_write relationships f ->
  In p (records_of v) ->
  payload_joined relationships v v' ->
  payload_joined relationships v (update_path p f v').
Proof.
  intros Hf Hp H. unfold records_of, resp_data_path in Hp.
  destruct v; try (simpl in Hp; contradiction).
  - (* a list view *)
    simpl in Hp. apply In_item_paths in Hp as [i ->].
    simpl in *. destruct H as (l' & -> & H). exists (alter f i l').
    split; [reflexivity|]. now apply items_joined_alter.
  - unfold dict_has in Hp. simpl in H.
    destruct (dict_get "results" d) as [r|] eqn:E.
    + (* a paginated answer *)
      cbn [get_path] in Hp. rewrite E in Hp. cbn [get_path] in Hp.
      destruct H as (r' & Hr & ->).
      destruct r; try (simpl in Hp; contradiction).
      * apply In_item_paths in Hp as [i ->]. simpl.
        rewrite dict_alter_alter. simpl in Hr. destruct Hr as (l' & -> & Hr).
        unfold payload_joined. rewrite E.
        exists (VList (alter f i l')). split; [|reflexivity].
        exists (alter f i l'). split; [reflexivity|]. now apply items_joined_alter.
      * destruct Hp as [<-|[]]. simpl. rewrite dict_alter_alter.
        unfold payload_joined. rewrite E. exists (f r'). split; [|reflexivity].
        now apply (item_joined_write f (VDict d0) r').
    + (* a detail view *)
      simpl in Hp. destruct Hp as [<-|[]]. simpl.
      unfold payload_joined. rewrite E.
      now apply (item_joined_write f (VDict d) v').
Qed.

End Joined.

Lemma joined_invariant relationships (v : value) :
  step_invariant (fun s => payload_joined relationships v (payload s))
                 (fun s => payload_joined relationships v (payload s))
                 (fun p k => In p (records_of v)
                             /\ is_relationship_key relationships k = true).
Proof.
  split; auto; simpl.
  - intros s p k [Hp Hk] Hs. apply payload_joined_write; auto.
    now apply item_set_write.
  - intros s p k x [Hp Hk] Hs. rewrite update_path_app.
    apply payload_joined_write; auto. now apply append_write.
Qed.

Lemma joining_async_invariant relationships (v : value) :
  async_invariant (joining relationships v)
                  (fun p k => In p (records_of v)
                              /\ is_relationship_key relationships k = true).
Proof.
  split; auto; unfold joining; simpl.
  - intros s p k [Hp Hk] [Hs Hph]. split.
    + apply payload_joined_write; auto. now apply item_set_write.
    + apply Forall_app. split.
      * apply Forall_forall. intros o Ho.
        apply list_elem_of_In, in_map_iff in Ho as (o' & <- & Ho').
        destruct o' as [q|]; [|exact Logic.I].
        destruct (decide _); [exact Logic.I|].
        rewrite Forall_forall in Hph. apply (Hph (Some q)). now apply list_elem_of_In.
      * constructor; [|constructor]. now exists p, k.
  - intros s ph place x [Hs Hph] Hplace. split; [|exact Hph].
    rewrite Forall_forall in Hph.
    destruct (Hph (Some place)) as (p & k & -> & Hp & Hk).
    { eapply list_elem_of_lookup_2. exact Hplace. }
    rewrite update_path_app. apply payload_joined_write; auto. now apply append_write.
Qed.

Section JoinedEngine.

Context (reg : Registry) (W : World).

(** The sequential join leaves the payload joined. *)
Lemma join_joins (s : Gw) :
  payload_joined (relationships_of reg s) (payload s)
  (payload (_join_response_data reg W s).2).
Proof.
  rewrite _join_response_data_eq. unfold relationships_of.
  pose proof (get_datamesh_relationships_untouched reg s) as (_ & _ & Hp & _).
  destruct (get_datamesh_relationships reg s) as [[[rels field]|e] s1]; simpl in *;
    [|rewrite Hp; apply payload_joined_refl].
  apply (triple_same_snd (fun st => payload_joined rels (payload s) (payload st)));
    [|rewrite Hp; apply payload_joined_refl].
  apply (inv_for_each _ _ _ (joined_invariant rels (payload s))).
  intros p Hp'.
  apply (inv__add_nested_data reg W _ _ _ (joined_invariant rels (payload s))).
  apply Forall_forall. intros r Hr. split; [exact Hp'|].
  apply is_relationship_key_in. now apply list_elem_of_In.
Qed.

(** The concurrent join leaves the payload joined. *)
Lemma async_join_joins (warmup fanout : list nat) (s : Gw) :
  placeholders s = [] ->
  payload_joined (relationships_of reg s) (payload s)
  (payload (Async._join_response_data reg W warmup fanout s).2).
Proof.
  intros Hph. rewrite async_join_response_data_eq. unfold relationships_of.
  pose proof (get_datamesh_relationships_untouched reg s) as (_ & _ & Hp & Hp').
  destruct (get_datamesh_relationships reg s) as [[[rels field]|e] s1]; simpl in *;
    [|rewrite Hp; apply payload_joined_refl].
  set (I := joining rels (payload s)).
  pose proof (warmup_untouched reg W warmup rels s1) as (_ & _ & Hw & Hw').
  assert (I (gather warmup (warmup_tasks reg W rels) s1).2) as H2.
  { split.
    - rewrite Hw, Hp. apply payload_joined_refl.
    - rewrite Hw', Hp', Hph. constructor. }
  destruct (gather warmup (warmup_tasks reg W rels) s1) as [[u|e] s2]; simpl in *;
    [|exact (proj1 H2)].
  pose proof (keeps_tasks_map_m I
    (fun p => Async._prepare_datamesh_tasks reg W p rels field)
    (records_of (payload s))
    (fun p Hp' => ak__prepare_datamesh_tasks reg W I _
    (joining_async_invariant rels (payload s)) p rels field
    (proj2 (Forall_forall _ _)
    (fun r Hr => conj Hp' (is_relationship_key_in rels r
    (proj1 (list_elem_of_In _ _) Hr)))))
    s2 H2) as H3.
  unfold bind, ret in H3.
  destruct (map_m _ (records_of (payload s)) s2) as [[tss|e] s3]; simpl in *;
    [|exact (proj1 (proj1 H3))].
  destruct H3 as [H3 H4]. exact (proj1 (gather_keeps I fanout (concat tss) H4 s3 H3)).
Qed.

(** *** The join and the legacy aggregation *)

Lemma _get_logic_module_payload (name : string) (s : Gw) :
  payload (_get_logic_module reg name s).2 = payload s.
Proof.
  rewrite _get_logic_module_eq. destruct (_logic_modules s !! name); [reflexivity|].
  now destruct (LogicModule_get reg name).
Qed.

(** Where the join finds no record, the aggregation finds none. *)
Lemma aggregate_no_records (s : Gw) :
  records_of (payload s) = [] ->
  payload (_aggregate_response_data reg W s).2 = payload s.
Proof.
  intros Hrec. unfold _aggregate_response_data, bind at 1, get. cbn beta iota.
  unfold bind. pose proof (_get_logic_module_payload (kw_service (url_kwargs s)) s) as Hp.
  destruct (_get_logic_module reg _ s) as [[lm|e] s1]; simpl in *; [|exact Hp].
  unfold records_of in Hrec.
  destruct (get_path (resp_data_path (payload s)) (payload s)) as [[]|]; try exact Hp.
  - destruct l; [exact Hp|discriminate].
  - discriminate.
Qed.

(** An aggregation for a service that is not known ends in its first
    step. *)
Lemma aggregate_unknown_service (s : Gw) :
  unknown_service reg (kw_service (url_kwargs s)) s ->
  payload (_aggregate_response_data reg W s).2 = payload s.
Proof.
  intros [H1 H2]. unfold _aggregate_response_data, bind at 1, get. cbn beta iota.
  unfold bind. rewrite _get_logic_module_eq, H1, H2. reflexivity.
Qed.

(** [get_datamesh_relationships] raises ServiceDoesNotExist for an unknown
    service only, and changes nothing then. *)
Lemma get_datamesh_relationships_sdne (s s2 : Gw) (e : exn) :
  get_datamesh_relationships reg s = (Err e, s2) ->
  is_ServiceDoesNotExist e = true ->
  unknown_service reg (kw_service (url_kwargs s)) s /\ s2 = s.
Proof.
  unfold get_datamesh_relationships, bind at 1, get. cbn beta iota. unfold bind.
  rewrite _get_logic_module_eq. unfold unknown_service.
  destruct (_logic_modules s !! _) as [lm|].
  - destruct (PyStr.index _ _ 0); [|intros [= <- <-]; discriminate].
    destruct (PyStr.index _ _ 1); [|intros [= <- <-]; discriminate].
    destruct (LogicModuleModel_get reg _ _); [discriminate|intros [= <- <-]; discriminate].
  - destruct (LogicModule_get reg _) as [lm|].
    + destruct (PyStr.index _ _ 0); [|intros [= <- <-]; discriminate].
      destruct (PyStr.index _ _ 1); [|intros [= <- <-]; discriminate].
      destruct (LogicModuleModel_get reg _ _); [discriminate|intros [= <- <-]; discriminate].
    + intros [= <- <-] _. auto.
Qed.

(** When the join has returned, or its ServiceDoesNotExist was caught,
    either the query parameters are cleared, or the legacy aggregation
    will leave the payload as the join left it. *)
Lemma join_then_aggregate (s sB : Gw) (u : unit) :
  catch_sdne (_join_response_data reg W) log_error s = (Ok u, sB) ->
  request sB = clear_GET (request s)
  \/ payload (catch_sdne (_aggregate_response_data reg W) log_error sB).2 = payload sB.
Proof.
  unfold catch_sdne at 1. rewrite _join_response_data_eq.
  pose proof (get_datamesh_relationships_untouched reg s) as (Hc & Hq & Hp & _).
  destruct (get_datamesh_relationships reg s) as [[[rels field]|e] s2] eqn:Hr; simpl in *.
  - destruct (records_of (payload s)) as [|p ps] eqn:Hrec.
    + simpl. unfold ret. intros [= <- <-]. right.
      rewrite (proj1 (catch_log_payload (_aggregate_response_data reg W) s2)).
      apply aggregate_no_records. now rewrite Hp.
    + intros H. left.
      assert (cleared_since (request s2) (http_calls s2)
        (for_each (fun p => _add_nested_data reg W p rels field) (p :: ps) s2).2)
        as Hcl.
      { simpl for_each. unfold bind.
        pose proof (_add_nested_data_clears reg W p rels field s2) as Hfirst.
        destruct (_add_nested_data reg W p rels field s2) as [[u0|e] sA]; [|exact Hfirst].
        now apply join_loop_stays_cleared. }
      destruct (for_each _ (p :: ps) s2) as [[u0|e] sA]; simpl in *.
      * injection H as _ <-. rewrite <- Hq. exact (proj1 Hcl).
      * destruct (is_ServiceDoesNotExist e); [|discriminate].
        injection H as _ <-. simpl. rewrite <- Hq. exact (proj1 Hcl).
  - destruct (is_ServiceDoesNotExist e) eqn:E; [|discriminate].
    destruct (get_datamesh_relationships_sdne s s2 e Hr E) as [Hu ->].
    intros [= <- <-]. right.
    rewrite (proj1 (catch_log_payload (_aggregate_response_data reg W) _)).
    now apply aggregate_unknown_service.
Qed.

(** The response of [_get_data] has the status and the headers of the
    primary triple, and its body is the primary payload joined, unless the
    request asks for the legacy aggregation and not for the join. *)
Lemma _get_data_joined (spec : Spec) (s s1 s' : Gw) content0 status hdrs
  (resp : GatewayResponse) :
  _data_request W spec (url_kwargs s) s = (Ok (content0, status, hdrs), s1) ->
  _get_data reg W spec s = (Ok resp, s') ->
  status_code resp = status /\ headers resp = hdrs
  /\ (join_requested (request s1) status content0 = true
    \/ aggregate_requested (request s1) status = false ->
    exists v, content resp = assemble v
    /\ payload_joined (relationships_of reg (set_payload content0 s1))
    content0 v).
Proof.
  intros H1. rewrite _get_data_eq, H1. cbn zeta.
  set (s1' := set_payload content0 s1).
  change (request s1') with (request s1).
  destruct (join_requested (request s1) status content0) eqn:Ej.
  - pose proof (join_joins s1') as Hf.
    rewrite <- (proj1 (catch_log_payload (_join_response_data reg W) s1')) in Hf.
    destruct (catch_sdne (_join_response_data reg W) log_error s1') as [[u|e] sB] eqn:Hj;
      [|discriminate].
    simpl in Hf. pose proof (join_then_aggregate s1' sB u Hj) as Ha.
    destruct (aggregate_requested (request sB) status) eqn:Ea.
    + destruct Ha as [Ha|Ha].
      { rewrite Ha, aggregate_requested_cleared in Ea. discriminate. }
      destruct (catch_sdne (_aggregate_response_data reg W) log_error sB) as [[u'|e] sC];
        [|discriminate].
      intros [= <- <-]. simpl in *. split; [reflexivity|]. split; [reflexivity|].
      intros _. exists (payload sC). split; [reflexivity|]. now rewrite Ha.
    + intros [= <- <-]. simpl. split; [reflexivity|]. split; [reflexivity|].
      intros _. exists (payload sB). split; [reflexivity|exact Hf].
  - change (request s1') with (request s1).
    destruct (aggregate_requested (request s1) status) eqn:Ea.
    + destruct (catch_sdne (_aggregate_response_data reg W) log_error s1') as [[u'|e] sC];
        [|discriminate].
      intros [= <- <-]. simpl. split; [reflexivity|]. split; [reflexivity|].
      intros [?|?]; discriminate.
    + intros [= <- <-]. simpl. split; [reflexivity|]. split; [reflexivity|].
      intros _. exists content0. split; [reflexivity|apply payload_joined_refl].
Qed.

Lemma async_get_data_joined (warmup fanout : list nat) (spec : Spec) (s s1 s' : Gw)
  content0 status hdrs (resp : GatewayResponse) :
  await (Async._data_request W spec (url_kwargs s)) s = (Ok (content0, status, hdrs), s1) ->
  Async._get_data reg W warmup fanout spec s = (Ok resp, s') ->
  status_code resp = status /\ headers resp = hdrs
  /\ (placeholders s = [] ->
    exists v, content resp = assemble v
    /\ payload_joined (relationships_of reg (set_payload content0 s1))
    content0 v).
Proof.
  intros H1. rewrite async_get_data_eq, H1. cbn zeta.
  set (s1' := set_payload content0 s1).
  set (j := if join_requested (request s1') status content0
    then catch_sdne (Async._join_response_data reg W warmup fanout) log_error s1'
    else (Ok tt, s1')).
  assert (placeholders s = [] ->
    payload_joined (relationships_of reg s1') content0 (payload j.2)) as Hf.
  { intros Hph. unfold j. destruct (join_requested _ _ _);
      [|apply payload_joined_refl].
    destruct (catch_log_payload (Async._join_response_data reg W warmup fanout) s1')
      as (Hp & _).
    rewrite Hp. apply (async_join_joins warmup fanout s1').
    pose proof (async_data_request_placeholders W spec (url_kwargs s) s) as Hq.
    rewrite H1 in Hq. simpl in *. congruence. }
  destruct j as [[u|e] sB]; [|discriminate]. simpl in Hf.
  intros [= <- <-]. simpl. split; [reflexivity|]. split; [reflexivity|].
  intros Hph. exists (payload sB). split; [reflexivity | now apply Hf].
Qed.

End JoinedEngine.

(** C5. In both engines, when the primary call has returned its triple,
    which on a fresh request is the decoded answer of the upstream
    service, every response [_get_data] returns has the status code and
    the headers of that triple, whatever the sub-requests did. Its body is
    the primary payload joined: every record has its fields in their
    places, those that no relationship names with the values they had, and
    after them nothing but relationship keys; what is not a record is as
    it was. For the sequential engine this holds whenever the join is
    asked for, and else when the legacy aggregation is not. *)
Theorem response_keeps_primary (reg : Registry) (W : World) (spec : Spec) (s s1 : Gw)
    (content0 : value) (status : Z) (hdrs : Headers) :
  (_data_request W spec (url_kwargs s) s = (Ok (content0, status, hdrs), s1) ->
   (_data s = ∅ ->
    exists method url body r,
      http W (tick s) (call_of (request s) method url body) = HttpAnswer r
      /\ content0 = decode r /\ status = r_status r /\ hdrs = r_headers r)
   /\ forall resp s',
       _get_data reg W spec s = (Ok resp, s') ->
       status_code resp = status /\ headers resp = hdrs
       /\ (join_requested (request s1) status content0 = true
           \/ aggregate_requested (request s1) status = false ->
           exists v, content resp = assemble v
                     /\ payload_joined (relationships_of reg (set_payload content0 s1))
                                       content0 v))
  /\ (await (Async._data_request W spec (url_kwargs s)) s
      = (Ok (content0, status, hdrs), s1) ->
      (_data s = ∅ ->
       exists method url body r,
         http W (tick s) (Async.call_of (request s) method url body) = HttpAnswer r
         /\ Async.decode r = Ok content0 /\ status = r_status r /\ hdrs = r_headers r)
      /\ forall warmup fanout resp s',
          Async._get_data reg W warmup fanout spec s = (Ok resp, s') ->
          status_code resp = status /\ headers resp = hdrs
          /\ (placeholders s = [] ->
              exists v, content resp = assemble v
                        /\ payload_joined (relationships_of reg (set_payload content0 s1))
                                          content0 v)).
Proof.
  split; intros H1; split.
  - intros He. eapply _data_request_answer; eauto.
  - intros resp s' H. eapply _get_data_joined; eauto.
  - intros He. eapply async_data_request_answer; eauto.
  - intros warmup fanout resp s' H. eapply async_get_data_joined; eauto.
Qed.

(** [GET /orders/orders/7/?join=true] in the scenario, product 12
    answering 500: the response keeps the status 200 and the headers of
    the primary answer, and the fields of order 7. *)
Lemma response_keeps_primary_witness :
  let R := Scenario.registry Scenario.items (Scenario.joins_of ["12"; "10"]) in
  let W := Scenario.world in
  let sp := Scenario.spec_of "orders" "orders" in
  let s := (_get_swagger_spec R W "orders" Scenario.detail_join).2 in
  let resp := {| content :=
                   Dumped (VDict [("id", VNum 7); ("name", VStr "order");
                                  ("items", VList [VDict [("detail", VStr "boom")];
                                                   Scenario.product 10])]);
                 status_code := 200;
                 headers := [("Content-Type", "application/json")] |} in
  (_get_data R W sp s).1 = Ok resp
  /\ (Async._get_data R W [] [] sp s).1 = Ok resp
  /\ status_code resp = 200
  /\ exists v, content resp = assemble v
               /\ payload_joined Scenario.items (Scenario.order 7) v.
Proof.
  intros R W sp s resp.
  split; [vm_compute; reflexivity|]. split; [vm_compute; reflexivity|].
  set (s1 := (_data_request W sp (url_kwargs s) s).2).
  destruct (response_keeps_primary R W sp s s1 (Scenario.order 7) 200
              [("Content-Type", "application/json")]) as [H _].
  destruct H as [_ H]; [vm_compute; reflexivity|].
  destruct (H resp (_get_data R W sp s).2) as (Hs & _ & Hv); [vm_compute; reflexivity|].
  split; [exact Hs|]. apply Hv. left. vm_compute. reflexivity.
Defined.

(** What [payload_joined] rules out: a change below a field that no
    relationship names, even under a key that a relationship uses
    elsewhere, and a field that changes its place. *)
Example joined_keeps_nested_fields :
  ~ payload_joined Scenario.items
      (VDict [("id", VNum 7); ("meta", VDict [("items", VNum 1)])])
      (VDict [("id", VNum 7); ("meta", VDict [("items", VNum 2)])]).
Proof.
  simpl. intros (d' & E & kept & added & Hd & HF & _). injection E as <-.
  inversion HF as [|x1 y1 l1 k1 [K1 V1] HF2]; subst.
  inversion HF2 as [|x2 y2 l2 k2 [K2 V2] HF3]; subst.
  inversion HF3; subst. simpl in Hd. injection Hd as _ E2 _.
  specialize (V2 eq_refl). rewrite <- E2 in V2. discriminate.
Qed.

Example joined_keeps_places :
  ~ payload_joined Scenario.items
      (VDict [("items", VNum 1); ("id", VNum 7)])
      (VDict [("id", VNum 7); ("items", VList [])]).
Proof.
  simpl. intros (d' & E & kept & added & Hd & HF & _). injection E as <-.
  inversion HF as [|x1 y1 l1 k1 [K1 V1] HF2]; subst.
  simpl in Hd. injection Hd as E1 _. rewrite <- E1 in K1. discriminate.
Qed.

(** ** The response cache over a whole request *)









